(** * ActiveShapeStore: the reactive facade in front of Shape

    A shallow embedding of [client/src/game/ui/ActiveShapeStore.ts].
    The Vuex module is a record of its private fields; every [@Mutation]
    is a function from the collaborators ([gameStore], [layerManager],
    the uuid generator), its payload and the state to an [Outcome]: the
    new state, the calls made on core [Shape] objects, and whether the
    mutation ended in a [TypeError]. *)

From Stdlib Require Import List ZArith String Bool Lia.
Import ListNotations.
Local Open Scope string_scope.
Local Open Scope list_scope.
Local Open Scope Z_scope.

Set Implicit Arguments.

(** ** JavaScript values and arrays *)

(** A field that can hold [undefined], [null] or a value.  The store
    compares [_parentUuid] with [undefined], so both empty values are kept
    apart for it. *)
Inductive Nullish (A : Type) : Type :=
| Undefined
| Null
| Value (a : A).
Arguments Undefined {A}.
Arguments Null {A}.

(** [o?.f] on a possibly undefined object. *)
Definition optional_chain {A B : Type} (o : option A) (f : A -> B) : Nullish B :=
  match o with
  | None => Undefined
  | Some x => Value (f x)
  end.

(** [a ?? b] *)
Definition nullish_coalesce {A : Type} (a b : Nullish A) : Nullish A :=
  match a with
  | Undefined | Null => b
  | Value _ => a
  end.

(** [a === s] for a string [s]. *)
Definition strict_eq_string (a : Nullish string) (s : string) : bool :=
  match a with
  | Value x => String.eqb x s
  | _ => false
  end.

(** [a !== undefined] *)
Definition strict_neq_undefined {A : Type} (a : Nullish A) : bool :=
  match a with
  | Undefined => false
  | _ => true
  end.

(** [Array.prototype.find] *)
Fixpoint find_first {A : Type} (p : A -> bool) (l : list A) : option A :=
  match l with
  | [] => None
  | x :: l' => if p x then Some x else find_first p l'
  end.

(** [Array.prototype.findIndex]: the first index whose element satisfies
    [p], or [-1]. *)
Fixpoint findIndex {A : Type} (p : A -> bool) (l : list A) : Z :=
  match l with
  | [] => -1
  | x :: l' =>
      if p x then 0
      else let i := findIndex p l' in if i <? 0 then -1 else i + 1
  end.

(** [Array.prototype.some] *)
Definition some {A : Type} (p : A -> bool) (l : list A) : bool := existsb p l.

(** [Array.prototype.includes] on an array of strings. *)
Definition includes (l : list string) (s : string) : bool :=
  existsb (String.eqb s) l.

(** Writing the element at an index that [findIndex] returned. *)
Fixpoint set_nth {A : Type} (n : nat) (x : A) (l : list A) : list A :=
  match l, n with
  | [], _ => []
  | _ :: l', O => x :: l'
  | y :: l', S n' => y :: set_nth n' x l'
  end.

(** [l.splice(start, deleteCount, ...items)]: the removed elements and the
    array afterwards.  A negative [start] counts from the end, and both
    numbers are clamped to the array. *)
Definition splice {A : Type} (l : list A) (start deleteCount : Z) (items : list A)
  : list A * list A :=
  let len := Z.of_nat (List.length l) in
  let k := if start <? 0 then Z.max (len + start) 0 else Z.min start len in
  let d := Z.min (Z.max deleteCount 0) (len - k) in
  let rest := skipn (Z.to_nat k) l in
  (firstn (Z.to_nat d) rest,
   firstn (Z.to_nat k) l ++ items ++ skipn (Z.to_nat d) rest).

(** ** Data model *)

(** Modelled from the spec: [SyncTo] of [core/comm/types] is not part of the
    sources; the spec describes a three-valued direction tag, and the store
    only tests it against [SyncTo.UI] and passes [SyncTo.SERVER]. *)
Inductive SyncTo : Type := SERVER | SHAPE | UI.

Definition SyncTo_eqb (a b : SyncTo) : bool :=
  match a, b with
  | SERVER, SERVER | SHAPE, SHAPE | UI, UI => true
  | _, _ => false
  end.

(** Modelled from the spec: [ShapeAccess] and [ShapeOwner] of
    [shapes/owners] are not part of the sources; the spec gives
    [{ edit, movement, vision }] and [{ user, access }]. *)
Record ShapeAccess : Type := mkAccess {
  edit : bool;
  movement : bool;
  vision : bool
}.

Record ShapeOwner : Type := mkOwner {
  user : string;
  access : ShapeAccess
}.

(** Modelled from the spec: the interfaces [Tracker] and [Aura] of
    [shapes/interfaces] are not part of the sources; both have a stable
    [uuid], a tracker carries a numeric counter and an aura area and visual
    fields.  [Partial<Tracker>] and [Partial<Aura>] make every field
    optional, and [Object.assign] overwrites the fields that are present. *)
Module Tracker.
Record t : Type := mk {
  uuid : string;
  visible : bool;
  name : string;
  value : Z;
  maxvalue : Z
}.

Record partial : Type := mkPartial {
  p_uuid : option string;
  p_visible : option bool;
  p_name : option string;
  p_value : option Z;
  p_maxvalue : option Z
}.

Definition or_else {A : Type} (o : option A) (d : A) : A :=
  match o with Some x => x | None => d end.

Definition assign (target : t) (delta : partial) : t :=
  {| uuid := or_else (p_uuid delta) (uuid target);
     visible := or_else (p_visible delta) (visible target);
     name := or_else (p_name delta) (name target);
     value := or_else (p_value delta) (value target);
     maxvalue := or_else (p_maxvalue delta) (maxvalue target) |}.
End Tracker.

Module Aura.
Record t : Type := mk {
  uuid : string;
  visionSource : bool;
  visible : bool;
  name : string;
  value : Z;
  dim : Z;
  colour : string
}.

Record partial : Type := mkPartial {
  p_uuid : option string;
  p_visionSource : option bool;
  p_visible : option bool;
  p_name : option string;
  p_value : option Z;
  p_dim : option Z;
  p_colour : option string
}.

Definition or_else {A : Type} (o : option A) (d : A) : A :=
  match o with Some x => x | None => d end.

Definition assign (target : t) (delta : partial) : t :=
  {| uuid := or_else (p_uuid delta) (uuid target);
     visionSource := or_else (p_visionSource delta) (visionSource target);
     visible := or_else (p_visible delta) (visible target);
     name := or_else (p_name delta) (name target);
     value := or_else (p_value delta) (value target);
     dim := or_else (p_dim delta) (dim target);
     colour := or_else (p_colour delta) (colour target) |}.
End Aura.

(** [{ shape: string; temporary: boolean } & T] *)
Record Ui (T : Type) : Type := mkUi {
  shape : string;
  temporary : bool;
  entity : T
}.

Definition UiTracker : Type := Ui Tracker.t.
Definition UiAura : Type := Ui Aura.t.

(** [Object.assign(tracker, delta)]: the delta has no [shape] and no
    [temporary] field. *)
Definition assign_tracker (t : UiTracker) (delta : Tracker.partial) : UiTracker :=
  {| shape := shape t; temporary := temporary t;
     entity := Tracker.assign (entity t) delta |}.

Definition assign_aura (a : UiAura) (delta : Aura.partial) : UiAura :=
  {| shape := shape a; temporary := temporary a;
     entity := Aura.assign (entity a) delta |}.

(** [tracker.temporary = false] *)
Definition clear_temporary {T : Type} (t : Ui T) : Ui T :=
  {| shape := shape t; temporary := false; entity := entity t |}.

Definition toUiTrackers (trackers : list Tracker.t) (shape : string) : list UiTracker :=
  map (fun tracker => {| shape := shape; temporary := false; entity := tracker |}) trackers.

Definition toUiAuras (auras : list Aura.t) (shape : string) : list UiAura :=
  map (fun aura => {| shape := shape; temporary := false; entity := aura |}) auras.

(** Modelled from the spec: [createEmptyTracker] of [shapes/tracker] and
    [createEmptyAura] of [shapes/aura] are not part of the sources; the spec
    describes the placeholder as an empty row with [temporary: true] that
    belongs to the selected object.  Its identity comes from the uuid
    generator, passed here as [uuid]. *)
Definition createEmptyTracker (shape uuid : string) : UiTracker :=
  {| shape := shape; temporary := true;
     entity := Tracker.mk uuid false EmptyString 0 0 |}.

Definition createEmptyAura (shape uuid : string) : UiAura :=
  {| shape := shape; temporary := true;
     entity := Aura.mk uuid false false EmptyString 0 0 EmptyString |}.

(** Modelled from the spec: the class [Shape] of [shapes/shape] is not part
    of the sources; the store reads its [uuid], [defaultAccess], [owners],
    [getTrackers(false)] and [getAuras(false)]. *)
Module Shape.
Record t : Type := mk {
  uuid : string;
  defaultAccess : ShapeAccess;
  owners : list ShapeOwner;
  getTrackers : list Tracker.t;
  getAuras : list Aura.t
}.
End Shape.

(** The methods of [Shape] that the store calls: the Domain Mutation
    Gateway.  A call is recorded with its receiver. *)
Module Gateway.
Inductive Method : Type :=
| updateDefaultOwner (access : ShapeAccess) (syncTo : SyncTo)
| addOwner (owner : ShapeOwner) (syncTo : SyncTo)
| updateOwner (owner : ShapeOwner) (syncTo : SyncTo)
| removeOwner (owner : string) (syncTo : SyncTo)
| pushTracker (tracker : Tracker.t) (syncTo : SyncTo)
| updateTracker (tracker : string) (delta : Tracker.partial) (syncTo : SyncTo)
| removeTracker (tracker : string) (syncTo : SyncTo)
| pushAura (aura : Aura.t) (syncTo : SyncTo)
| updateAura (aura : string) (delta : Aura.partial) (syncTo : SyncTo)
| removeAura (aura : string) (syncTo : SyncTo).

Record Call : Type := mkCall {
  receiver : Shape.t;
  method : Method
}.
End Gateway.

(** ** Collaborators *)

Record GameStore : Type := mkGameStore {
  IS_DM : bool;
  FAKE_PLAYER : bool;
  activeTokens : list string;
  username : string
}.

Record LayerManager : Type := mkLayerManager {
  UUIDMap_get : string -> option Shape.t;
  getCompositeParent : string -> option Shape.t
}.

(** [uuidv4 k] is the k-th identifier the generator hands out during one
    mutation. *)
Record Env : Type := mkEnv {
  gameStore : GameStore;
  layerManager : LayerManager;
  uuidv4 : nat -> string
}.

(** ** The store *)

Record State : Type := mkState {
  _uuid : option string;
  _parentUuid : Nullish string;
  _lastUuid : option string;
  _access : option ShapeAccess;
  _owners : list ShapeOwner;
  _trackers : list UiTracker;
  firstRealTrackerIndex : Z;
  _auras : list UiAura;
  firstRealAuraIndex : Z
}.

Definition initial : State :=
  {| _uuid := None; _parentUuid := Null; _lastUuid := None;
     _access := None; _owners := [];
     _trackers := []; firstRealTrackerIndex := 0;
     _auras := []; firstRealAuraIndex := 0 |}.

Definition set_access (s : State) (a : option ShapeAccess) : State :=
  mkState (_uuid s) (_parentUuid s) (_lastUuid s) a (_owners s)
          (_trackers s) (firstRealTrackerIndex s) (_auras s) (firstRealAuraIndex s).

Definition set_owners (s : State) (o : list ShapeOwner) : State :=
  mkState (_uuid s) (_parentUuid s) (_lastUuid s) (_access s) o
          (_trackers s) (firstRealTrackerIndex s) (_auras s) (firstRealAuraIndex s).

Definition set_trackers (s : State) (l : list UiTracker) (i : Z) : State :=
  mkState (_uuid s) (_parentUuid s) (_lastUuid s) (_access s) (_owners s)
          l i (_auras s) (firstRealAuraIndex s).

Definition set_auras (s : State) (l : list UiAura) (i : Z) : State :=
  mkState (_uuid s) (_parentUuid s) (_lastUuid s) (_access s) (_owners s)
          (_trackers s) (firstRealTrackerIndex s) l i.

(** How a getter or a mutation ends. *)
Inductive Completion (A : Type) : Type :=
| Normal (a : A)
| TypeError.
Arguments TypeError {A}.

Record Outcome : Type := mkOutcome {
  state : State;
  calls : list Gateway.Call;
  threw : bool
}.

Definition done (s : State) : Outcome :=
  {| state := s; calls := []; threw := false |}.

Definition throw (s : State) : Outcome :=
  {| state := s; calls := []; threw := true |}.

Definition call (s : State) (receiver : Shape.t) (m : Gateway.Method) : Outcome :=
  {| state := s; calls := [Gateway.mkCall receiver m]; threw := false |}.

(** [layerManager.UUIDMap.get(uuid)!] followed by a method call: reading a
    method of [undefined] is a [TypeError]. *)
Definition call_on (env : Env) (s : State) (uuid : string) (m : Gateway.Method) : Outcome :=
  match UUIDMap_get (layerManager env) uuid with
  | None => throw s
  | Some shape => call s shape m
  end.

(** *** Getters *)

Definition uuid (s : State) : Nullish string :=
  match _uuid s with Some u => Value u | None => Undefined end.

Definition parentUuid (s : State) : Nullish string :=
  nullish_coalesce (_parentUuid s) Undefined.

Definition lastUuid (s : State) : Nullish string :=
  match _lastUuid s with Some u => Value u | None => Undefined end.

Definition isComposite (s : State) : bool :=
  strict_neq_undefined (_parentUuid s).

Definition owners (s : State) : list ShapeOwner := _owners s.

Definition hasEditAccess (env : Env) (s : State) : Completion bool :=
  match _uuid s with
  | None => Normal false
  | Some uuid =>
      let g := gameStore env in
      if IS_DM g then Normal true
      else if FAKE_PLAYER g && includes (activeTokens g) uuid then Normal true
      else match _access s with
           | None => TypeError
           | Some a =>
               Normal (edit a ||
                       some (fun u => String.eqb (user u) (username g)
                                      && Bool.eqb (edit (access u)) true)
                            (_owners s))
           end
  end.

Definition hasDefaultEditAccess (s : State) : Completion bool :=
  match _uuid s, _access s with
  | None, _ => Normal false
  | Some _, Some a => Normal (edit a)
  | Some _, None => TypeError
  end.

Definition hasDefaultMovementAccess (s : State) : Completion bool :=
  match _uuid s, _access s with
  | None, _ => Normal false
  | Some _, Some a => Normal (movement a)
  | Some _, None => TypeError
  end.

Definition hasDefaultVisionAccess (s : State) : Completion bool :=
  match _uuid s, _access s with
  | None, _ => Normal false
  | Some _, Some a => Normal (vision a)
  | Some _, None => TypeError
  end.

Definition trackers (s : State) : list UiTracker := _trackers s.
Definition auras (s : State) : list UiAura := _auras s.

(** *** Mutations *)

(** [this._uuid === shape] *)
Definition uuid_is (s : State) (shape : string) : bool :=
  match _uuid s with
  | Some u => String.eqb u shape
  | None => false
  end.

(** The tail shared by the owner and default-access mutations:
    [if (data.syncTo !== SyncTo.UI) layerManager.UUIDMap.get(uuid)!.m(...)]. *)
Definition forward (env : Env) (s : State) (uuid : string) (syncTo : SyncTo)
           (m : Gateway.Method) : Outcome :=
  if SyncTo_eqb syncTo UI then done s else call_on env s uuid m.

(** [{ ...access }] *)
Definition copy_access (a : ShapeAccess) : ShapeAccess :=
  {| edit := edit a; movement := movement a; vision := vision a |}.

(** [{ ...o, access: { ...o.access } }] *)
Definition copy_owner (o : ShapeOwner) : ShapeOwner :=
  {| user := user o; access := copy_access (access o) |}.

Definition setDefaultAccess (env : Env) (access : ShapeAccess) (syncTo : SyncTo)
           (s : State) : Outcome :=
  match _uuid s with
  | None => done s
  | Some uuid =>
      match hasEditAccess env s with
      | TypeError => throw s
      | Normal false => done s
      | Normal true =>
          let a := copy_access access in
          forward env (set_access s (Some a)) uuid syncTo
                  (Gateway.updateDefaultOwner a syncTo)
      end
  end.

Definition setDefaultEditAccess (env : Env) (editAccess : bool) (syncTo : SyncTo)
           (s : State) : Outcome :=
  match _uuid s with
  | None => done s
  | Some uuid =>
      match hasEditAccess env s with
      | TypeError => throw s
      | Normal false => done s
      | Normal true =>
          match _access s with
          | None => throw s
          | Some a =>
              let a1 := {| edit := editAccess; movement := movement a; vision := vision a |} in
              let a2 := if editAccess
                        then {| edit := edit a1; movement := true; vision := true |}
                        else a1 in
              forward env (set_access s (Some a2)) uuid syncTo
                      (Gateway.updateDefaultOwner a2 syncTo)
          end
      end
  end.

Definition setDefaultMovementAccess (env : Env) (movementAccess : bool) (syncTo : SyncTo)
           (s : State) : Outcome :=
  match _uuid s with
  | None => done s
  | Some uuid =>
      match hasEditAccess env s with
      | TypeError => throw s
      | Normal false => done s
      | Normal true =>
          match _access s with
          | None => throw s
          | Some a =>
              let a1 := {| edit := edit a; movement := movementAccess; vision := vision a |} in
              let a2 := if movementAccess
                        then {| edit := edit a1; movement := movement a1; vision := true |}
                        else {| edit := false; movement := movement a1; vision := vision a1 |} in
              forward env (set_access s (Some a2)) uuid syncTo
                      (Gateway.updateDefaultOwner a2 syncTo)
          end
      end
  end.

Definition setDefaultVisionAccess (env : Env) (visionAccess : bool) (syncTo : SyncTo)
           (s : State) : Outcome :=
  match _uuid s with
  | None => done s
  | Some uuid =>
      match hasEditAccess env s with
      | TypeError => throw s
      | Normal false => done s
      | Normal true =>
          match _access s with
          | None => throw s
          | Some a =>
              let a1 := {| edit := edit a; movement := movement a; vision := visionAccess |} in
              let a2 := if negb visionAccess
                        then {| edit := false; movement := false; vision := vision a1 |}
                        else a1 in
              forward env (set_access s (Some a2)) uuid syncTo
                      (Gateway.updateDefaultOwner a2 syncTo)
          end
      end
  end.

Definition addOwner (env : Env) (owner : ShapeOwner) (syncTo : SyncTo)
           (s : State) : Outcome :=
  match _uuid s with
  | None => done s
  | Some uuid =>
      match hasEditAccess env s with
      | TypeError => throw s
      | Normal false => done s
      | Normal true =>
          forward env (set_owners s (_owners s ++ [owner])) uuid syncTo
                  (Gateway.addOwner owner syncTo)
      end
  end.

(** [Object.assign(this._owners[index], data.owner)] overwrites every field
    of the entry at [index] with the payload's. *)
Definition updateOwner (env : Env) (owner : ShapeOwner) (syncTo : SyncTo)
           (s : State) : Outcome :=
  match _uuid s with
  | None => done s
  | Some uuid =>
      match hasEditAccess env s with
      | TypeError => throw s
      | Normal false => done s
      | Normal true =>
          let index := findIndex (fun o => String.eqb (user o) (user owner)) (_owners s) in
          if index <? 0 then done s
          else
            forward env (set_owners s (set_nth (Z.to_nat index) owner (_owners s)))
                    uuid syncTo
                    (Gateway.updateOwner (copy_owner owner) syncTo)
      end
  end.

Definition removeOwner (env : Env) (owner : string) (syncTo : SyncTo)
           (s : State) : Outcome :=
  match _uuid s with
  | None => done s
  | Some uuid =>
      match hasEditAccess env s with
      | TypeError => throw s
      | Normal false => done s
      | Normal true =>
          forward env
                  (set_owners s (filter (fun o => negb (String.eqb (user o) owner)) (_owners s)))
                  uuid syncTo
                  (Gateway.removeOwner owner syncTo)
      end
  end.

(** **** Trackers *)

Definition pushTracker (env : Env) (tracker : Tracker.t) (shape : string) (syncTo : SyncTo)
           (s : State) : Outcome :=
  match hasEditAccess env s with
  | TypeError => throw s
  | Normal false => done s
  | Normal true =>
      match toUiTrackers [tracker] shape with
      | [] => done s
      | uiTracker :: _ =>
          let inserted :=
            if uuid_is s shape then
              Some (set_trackers s
                      (snd (splice (_trackers s)
                                   (Z.of_nat (List.length (_trackers s)) - 1) 0 [uiTracker]))
                      (firstRealTrackerIndex s))
            else if strict_eq_string (_parentUuid s) shape then
              Some (set_trackers s
                      (snd (splice (_trackers s) (firstRealTrackerIndex s) 0 [uiTracker]))
                      (firstRealTrackerIndex s + 1))
            else None in
          match inserted with
          | None => done s
          | Some s' => forward env s' shape syncTo (Gateway.pushTracker tracker syncTo)
          end
      end
  end.

(** [find] returns the first entry with the given uuid, and the entry is
    then changed in place: in the list this is a write at the position of
    that first entry. *)
Definition updateTracker (env : Env) (tracker : string) (delta : Tracker.partial)
           (syncTo : SyncTo) (s : State) : Outcome :=
  match hasEditAccess env s with
  | TypeError => throw s
  | Normal false => done s
  | Normal true =>
      let p := fun t : UiTracker => String.eqb (Tracker.uuid (entity t)) tracker in
      match find_first p (_trackers s) with
      | None => done s
      | Some found =>
          let at_ := Z.to_nat (findIndex p (_trackers s)) in
          let t1 := assign_tracker found delta in
          let s1 := set_trackers s (set_nth at_ t1 (_trackers s)) (firstRealTrackerIndex s) in
          match UUIDMap_get (layerManager env) (shape t1) with
          | None => done s1
          | Some sh =>
              if SyncTo_eqb syncTo UI then done s1
              else if temporary t1 then
                let t2 := clear_temporary t1 in
                match _uuid s with
                | None => throw s1 (* not reached: without a selection hasEditAccess is false *)
                | Some uuid =>
                    call (set_trackers s
                            (set_nth at_ t2 (_trackers s) ++ [createEmptyTracker uuid (uuidv4 env 0)])
                            (firstRealTrackerIndex s))
                         sh (Gateway.pushTracker (entity t2) SERVER)
                end
              else call s1 sh (Gateway.updateTracker tracker delta syncTo)
          end
      end
  end.

Definition removeTracker (env : Env) (tracker : string) (syncTo : SyncTo)
           (s : State) : Outcome :=
  match hasEditAccess env s with
  | TypeError => throw s
  | Normal false => done s
  | Normal true =>
      let trackerIndex :=
        findIndex (fun t : UiTracker => String.eqb (Tracker.uuid (entity t)) tracker)
                  (_trackers s) in
      if trackerIndex <? 0 then done s
      else
        let '(removed, rest) := splice (_trackers s) trackerIndex 1 [] in
        let s1 := set_trackers s rest
                    (if trackerIndex <? firstRealTrackerIndex s
                     then firstRealTrackerIndex s - 1
                     else firstRealTrackerIndex s) in
        match removed with
        | [] => throw s1
        | t :: _ =>
            match UUIDMap_get (layerManager env) (shape t) with
            | None => done s1
            | Some sh =>
                if SyncTo_eqb syncTo UI then done s1
                else call s1 sh (Gateway.removeTracker tracker syncTo)
            end
        end
  end.

(** **** Auras *)

Definition pushAura (env : Env) (aura : Aura.t) (shape : string) (syncTo : SyncTo)
           (s : State) : Outcome :=
  match hasEditAccess env s with
  | TypeError => throw s
  | Normal false => done s
  | Normal true =>
      match toUiAuras [aura] shape with
      | [] => done s
      | uiAura :: _ =>
          let inserted :=
            if uuid_is s shape then
              Some (set_auras s
                      (snd (splice (_auras s)
                                   (Z.of_nat (List.length (_auras s)) - 1) 0 [uiAura]))
                      (firstRealAuraIndex s))
            else if strict_eq_string (_parentUuid s) shape then
              Some (set_auras s
                      (snd (splice (_auras s) (firstRealAuraIndex s) 0 [uiAura]))
                      (firstRealAuraIndex s + 1))
            else None in
          match inserted with
          | None => done s
          | Some s' => forward env s' shape syncTo (Gateway.pushAura aura syncTo)
          end
      end
  end.

Definition updateAura (env : Env) (aura : string) (delta : Aura.partial)
           (syncTo : SyncTo) (s : State) : Outcome :=
  match hasEditAccess env s with
  | TypeError => throw s
  | Normal false => done s
  | Normal true =>
      let p := fun a : UiAura => String.eqb (Aura.uuid (entity a)) aura in
      match find_first p (_auras s) with
      | None => done s
      | Some found =>
          let at_ := Z.to_nat (findIndex p (_auras s)) in
          let a1 := assign_aura found delta in
          let s1 := set_auras s (set_nth at_ a1 (_auras s)) (firstRealAuraIndex s) in
          match UUIDMap_get (layerManager env) (shape a1) with
          | None => done s1
          | Some sh =>
              if SyncTo_eqb syncTo UI then done s1
              else if temporary a1 then
                let a2 := clear_temporary a1 in
                match _uuid s with
                | None => throw s1 (* not reached: without a selection hasEditAccess is false *)
                | Some uuid =>
                    call (set_auras s
                            (set_nth at_ a2 (_auras s) ++ [createEmptyAura uuid (uuidv4 env 0)])
                            (firstRealAuraIndex s))
                         sh (Gateway.pushAura (entity a2) SERVER)
                end
              else call s1 sh (Gateway.updateAura aura delta syncTo)
          end
      end
  end.

Definition removeAura (env : Env) (aura : string) (syncTo : SyncTo)
           (s : State) : Outcome :=
  match hasEditAccess env s with
  | TypeError => throw s
  | Normal false => done s
  | Normal true =>
      let auraIndex :=
        findIndex (fun t : UiAura => String.eqb (Aura.uuid (entity t)) aura)
                  (_auras s) in
      if auraIndex <? 0 then done s
      else
        let '(removed, rest) := splice (_auras s) auraIndex 1 [] in
        let s1 := set_auras s rest
                    (if auraIndex <? firstRealAuraIndex s
                     then firstRealAuraIndex s - 1
                     else firstRealAuraIndex s) in
        match removed with
        | [] => throw s1
        | a :: _ =>
            match UUIDMap_get (layerManager env) (shape a) with
            | None => done s1
            | Some sh =>
                if SyncTo_eqb syncTo UI then done s1
                else call s1 sh (Gateway.removeAura aura syncTo)
            end
        end
  end.

(** **** Startup and cleanup *)

Definition setActiveShape (env : Env) (shape : Shape.t) (s : State) : Outcome :=
  let uuid := Shape.uuid shape in
  let parent := getCompositeParent (layerManager env) uuid in
  let parentTrackers :=
    match parent with
    | Some p => toUiTrackers (Shape.getTrackers p) (Shape.uuid p)
    | None => []
    end in
  let parentAuras :=
    match parent with
    | Some p => toUiAuras (Shape.getAuras p) (Shape.uuid p)
    | None => []
    end in
  done
    {| _uuid := Some uuid;
       _parentUuid := nullish_coalesce (optional_chain parent Shape.uuid) Null;
       _lastUuid := _lastUuid s;
       _access := Some (copy_access (Shape.defaultAccess shape));
       _owners := map copy_owner (Shape.owners shape);
       _trackers :=
         (parentTrackers ++ toUiTrackers (Shape.getTrackers shape) uuid)
           ++ [createEmptyTracker uuid (uuidv4 env 0)];
       firstRealTrackerIndex :=
         match parent with
         | Some _ => Z.of_nat (List.length parentTrackers)
         | None => firstRealTrackerIndex s
         end;
       _auras :=
         (parentAuras ++ toUiAuras (Shape.getAuras shape) uuid)
           ++ [createEmptyAura uuid (uuidv4 env 1)];
       firstRealAuraIndex :=
         match parent with
         | Some _ => Z.of_nat (List.length parentAuras)
         | None => firstRealAuraIndex s
         end |}.

Definition clear (s : State) : Outcome :=
  done
    {| _uuid := None; _parentUuid := Null; _lastUuid := _uuid s;
       _access := None; _owners := [];
       _trackers := []; firstRealTrackerIndex := 0;
       _auras := []; firstRealAuraIndex := 0 |}.

(** ** Operations as data, and the states the store can reach *)

Inductive Op : Type :=
| SetDefaultAccess (access : ShapeAccess) (syncTo : SyncTo)
| SetDefaultEditAccess (editAccess : bool) (syncTo : SyncTo)
| SetDefaultMovementAccess (movementAccess : bool) (syncTo : SyncTo)
| SetDefaultVisionAccess (visionAccess : bool) (syncTo : SyncTo)
| AddOwner (owner : ShapeOwner) (syncTo : SyncTo)
| UpdateOwner (owner : ShapeOwner) (syncTo : SyncTo)
| RemoveOwner (owner : string) (syncTo : SyncTo)
| PushTracker (tracker : Tracker.t) (shape : string) (syncTo : SyncTo)
| UpdateTracker (tracker : string) (delta : Tracker.partial) (syncTo : SyncTo)
| RemoveTracker (tracker : string) (syncTo : SyncTo)
| PushAura (aura : Aura.t) (shape : string) (syncTo : SyncTo)
| UpdateAura (aura : string) (delta : Aura.partial) (syncTo : SyncTo)
| RemoveAura (aura : string) (syncTo : SyncTo)
| SetActiveShape (shape : Shape.t)
| Clear.

Definition run (env : Env) (op : Op) (s : State) : Outcome :=
  match op with
  | SetDefaultAccess a t => setDefaultAccess env a t s
  | SetDefaultEditAccess b t => setDefaultEditAccess env b t s
  | SetDefaultMovementAccess b t => setDefaultMovementAccess env b t s
  | SetDefaultVisionAccess b t => setDefaultVisionAccess env b t s
  | AddOwner o t => addOwner env o t s
  | UpdateOwner o t => updateOwner env o t s
  | RemoveOwner o t => removeOwner env o t s
  | PushTracker x sh t => pushTracker env x sh t s
  | UpdateTracker x d t => updateTracker env x d t s
  | RemoveTracker x t => removeTracker env x t s
  | PushAura x sh t => pushAura env x sh t s
  | UpdateAura x d t => updateAura env x d t s
  | RemoveAura x t => removeAura env x t s
  | SetActiveShape sh => setActiveShape env sh s
  | Clear => clear s
  end.

(** Mutations are committed one after the other; the state a mutation leaves
    behind is the next one's start, whether or not it threw.  The
    collaborators may have changed in between, so every step has its own
    [Env]. *)
Fixpoint run_all (ops : list (Env * Op)) (s : State) : State :=
  match ops with
  | [] => s
  | (env, op) :: ops' => run_all ops' (state (run env op s))
  end.

Inductive reachable : State -> Prop :=
| reachable_initial : reachable initial
| reachable_step (env : Env) (op : Op) (s : State) :
    reachable s -> reachable (state (run env op s)).

(** The sync tag of a mutation; [setActiveShape] and [clear] carry none. *)
Definition tag (op : Op) : option SyncTo :=
  match op with
  | SetDefaultAccess _ t | SetDefaultEditAccess _ t
  | SetDefaultMovementAccess _ t | SetDefaultVisionAccess _ t
  | AddOwner _ t | UpdateOwner _ t | RemoveOwner _ t
  | PushTracker _ _ t | UpdateTracker _ _ t | RemoveTracker _ t
  | PushAura _ _ t | UpdateAura _ _ t | RemoveAura _ t => Some t
  | SetActiveShape _ | Clear => None
  end.

Definition registered (env : Env) (uuid : string) : bool :=
  match UUIDMap_get (layerManager env) uuid with
  | Some _ => true
  | None => false
  end.

Definition selection_registered (env : Env) (s : State) : bool :=
  match _uuid s with
  | Some u => registered env u
  | None => false
  end.

Definition has_access_record (s : State) : bool :=
  match _access s with Some _ => true | None => false end.

Definition gate_passes (env : Env) (s : State) : bool :=
  match hasEditAccess env s with
  | Normal true => true
  | _ => false
  end.

Definition owner_present (s : State) (u : string) : bool :=
  existsb (fun o => String.eqb (user o) u) (_owners s).

Definition tracker_present (s : State) (id : string) : bool :=
  existsb (fun t : UiTracker => String.eqb (Tracker.uuid (entity t)) id) (_trackers s).

Definition aura_present (s : State) (id : string) : bool :=
  existsb (fun a : UiAura => String.eqb (Aura.uuid (entity a)) id) (_auras s).

(** The first entry with the given id belongs to a shape that
    [layerManager.UUIDMap] knows. *)
Definition tracker_resolves (env : Env) (s : State) (id : string) : bool :=
  match find_first (fun t : UiTracker => String.eqb (Tracker.uuid (entity t)) id) (_trackers s) with
  | Some t => registered env (shape t)
  | None => false
  end.

Definition aura_resolves (env : Env) (s : State) (id : string) : bool :=
  match find_first (fun a : UiAura => String.eqb (Aura.uuid (entity a)) id) (_auras s) with
  | Some a => registered env (shape a)
  | None => false
  end.

(** No guard of the mutation stops it before its forwarding step: the
    permission gate passes, the target exists, a pushed entry belongs to
    the selection or its parent, and the receiving shape is registered. *)
Definition passes_guards (env : Env) (op : Op) (s : State) : bool :=
  gate_passes env s &&
  match op with
  | SetDefaultAccess _ _ | AddOwner _ _ | RemoveOwner _ _ => selection_registered env s
  | SetDefaultEditAccess _ _ | SetDefaultMovementAccess _ _ | SetDefaultVisionAccess _ _ =>
      has_access_record s && selection_registered env s
  | UpdateOwner o _ => owner_present s (user o) && selection_registered env s
  | PushTracker _ sh _ | PushAura _ sh _ =>
      (uuid_is s sh || strict_eq_string (_parentUuid s) sh) && registered env sh
  | UpdateTracker id _ _ | RemoveTracker id _ => tracker_resolves env s id
  | UpdateAura id _ _ | RemoveAura id _ => aura_resolves env s id
  | SetActiveShape _ | Clear => false
  end.

(** The id that an update or a removal addresses is not in its list.
    ([removeOwner] filters the list and has no such notion.) *)
Definition target_absent (op : Op) (s : State) : bool :=
  match op with
  | UpdateOwner o _ => negb (owner_present s (user o))
  | UpdateTracker id _ _ | RemoveTracker id _ => negb (tracker_present s id)
  | UpdateAura id _ _ | RemoveAura id _ => negb (aura_present s id)
  | _ => false
  end.

(** ** Fixtures: a game master's session with a composite child *)

Module Fixture.
Definition full : ShapeAccess := mkAccess true true true.
Definition none : ShapeAccess := mkAccess false false false.

Definition T1 : Tracker.t := Tracker.mk "T1" true "hp" 7 10.
Definition T2 : Tracker.t := Tracker.mk "T2" true "mana" 3 5.
Definition PT1 : Tracker.t := Tracker.mk "PT1" true "armour" 2 2.

Definition A : Shape.t := Shape.mk "A" full [] [T1] [].
Definition B : Shape.t := Shape.mk "B" none [] [] [].
Definition P : Shape.t := Shape.mk "P" none [] [PT1] [].

Definition lookup (u : string) : option Shape.t :=
  if String.eqb u "A" then Some A
  else if String.eqb u "B" then Some B
  else if String.eqb u "P" then Some P
  else None.

Definition parent_of (u : string) : option Shape.t :=
  if String.eqb u "B" then Some P else None.

Definition ids (k : nat) : string :=
  match k with O => "new-0" | _ => "new-1" end.

Definition dm : GameStore := mkGameStore true false [] "gm".
Definition player : GameStore := mkGameStore false false [] "ann".

Definition env : Env := mkEnv dm (mkLayerManager lookup parent_of) ids.
Definition env_player : Env := mkEnv player (mkLayerManager lookup parent_of) ids.
(** The selected shape has been taken off the board meanwhile. *)
Definition env_unregistered : Env :=
  mkEnv dm (mkLayerManager (fun _ => None) parent_of) ids.

Definition selectA : State := state (setActiveShape env A initial).
Definition selectB : State := state (setActiveShape env B initial).

Definition ann (a : ShapeAccess) : ShapeOwner := mkOwner "ann" a.
Definition bob : ShapeOwner := mkOwner "bob" full.


(** Two trackers that carry one uuid. *)
Definition d1 : Tracker.t := Tracker.mk "d" true "one" 1 1.
Definition d2 : Tracker.t := Tracker.mk "d" true "two" 2 2.
Definition twins : State :=
  run_all [(env, PushTracker d1 "A" UI); (env, PushTracker d2 "A" UI)] selectA.
End Fixture.

(** A selection always comes with its access record, and [_parentUuid] is
    never [undefined]. *)
Definition well_formed (s : State) : Prop :=
  (_uuid s <> None -> _access s <> None) /\ _parentUuid s <> Undefined.

(** ** Sequences of owner mutations *)

Definition owner_users (s : State) : list string := map user (_owners s).

(** Every step is an [addOwner] of a user who is not yet in the list, or an
    [updateOwner]. *)
Fixpoint adds_only_new_users (ops : list (Env * Op)) (s : State) : bool :=
  match ops with
  | [] => true
  | (env, op) :: ops' =>
      match op with
      | AddOwner o _ => negb (owner_present s (user o))
      | UpdateOwner _ _ => true
      | _ => false
      end
      && adds_only_new_users ops' (state (run env op s))
  end.

(** Every step is an [addOwner] or an [updateOwner]. *)
Definition owner_steps (ops : list (Env * Op)) : bool :=
  forallb (fun eo => match snd eo with
                     | AddOwner _ _ | UpdateOwner _ _ => true
                     | _ => false
                     end) ops.

(** ** Placeholders and cursors *)

Definition count_temporary {T : Type} (l : list (Ui T)) : nat :=
  List.length (filter (@temporary T) l).

Definition last_temporary {T : Type} (l : list (Ui T)) : bool :=
  match rev l with
  | t :: _ => temporary t
  | [] => false
  end.

(** Exactly one entry is temporary, and it is the last one. *)
Definition one_trailing_placeholder {T : Type} (l : list (Ui T)) : Prop :=
  count_temporary l = 1%nat /\ last_temporary l = true.

(** The entries whose [shape] is the parent's uuid. *)
Definition parent_entries {T : Type} (s : State) (l : list (Ui T)) : Z :=
  Z.of_nat (List.length (filter (fun t => strict_eq_string (_parentUuid s) (shape t)) l)).

Definition has_parent (p : Nullish string) : bool :=
  match p with Value _ => true | _ => false end.

(** A removal does not address a temporary entry. *)
Definition spares_placeholder (op : Op) (s : State) : bool :=
  match op with
  | RemoveTracker id _ =>
      match find_first (fun t : UiTracker => String.eqb (Tracker.uuid (entity t)) id)
                       (_trackers s) with
      | Some t => negb (temporary t)
      | None => true
      end
  | RemoveAura id _ =>
      match find_first (fun a : UiAura => String.eqb (Aura.uuid (entity a)) id)
                       (_auras s) with
      | Some a => negb (temporary a)
      | None => true
      end
  | _ => true
  end.

Definition is_mutation (op : Op) : bool :=
  match tag op with Some _ => true | None => false end.

(** The states that follow a selection through mutations that spare the
    placeholders. *)
Inductive after_select : State -> Prop :=
| after_select_here (env : Env) (shape : Shape.t) (s : State) :
    after_select (state (setActiveShape env shape s))
| after_select_step (env : Env) (op : Op) (s : State) :
    after_select s -> is_mutation op = true -> spares_placeholder op s = true ->
    after_select (state (run env op s)).

(** The selection has a parent other than itself, or it has none and the
    cursors are at 0, as [clear] and the initial state leave them. *)
Definition clean_select (env : Env) (shape : Shape.t) (s : State) : Prop :=
  match getCompositeParent (layerManager env) (Shape.uuid shape) with
  | Some p => Shape.uuid p <> Shape.uuid shape
  | None => firstRealTrackerIndex s = 0 /\ firstRealAuraIndex s = 0
  end.

Inductive after_clean_select : State -> Prop :=
| after_clean_select_here (env : Env) (shape : Shape.t) (s : State) :
    clean_select env shape s ->
    after_clean_select (state (setActiveShape env shape s))
| after_clean_select_step (env : Env) (op : Op) (s : State) :
    after_clean_select s -> is_mutation op = true -> spares_placeholder op s = true ->
    after_clean_select (state (run env op s)).

(** What one mutation can do to a list and its cursor.  [safe] says that a
    removal spares temporary entries. *)
Inductive list_step {T : Type} (safe : bool) (u : option string) (p : Nullish string)
  : list (Ui T) * Z -> list (Ui T) * Z -> Prop :=
| step_none l c : list_step safe u p (l, c) (l, c)
| step_push_own l c x l' :
    u = Some (shape x) -> temporary x = false ->
    l' = snd (splice l (Z.of_nat (List.length l) - 1) 0 [x]) ->
    list_step safe u p (l, c) (l', c)
| step_push_parent l c x l' :
    strict_eq_string p (shape x) = true -> temporary x = false ->
    l' = snd (splice l c 0 [x]) ->
    list_step safe u p (l, c) (l', c + 1)
| step_update l c i found t1 :
    nth_error l i = Some found ->
    shape t1 = shape found -> temporary t1 = temporary found ->
    list_step safe u p (l, c) (set_nth i t1 l, c)
| step_promote l c i found t2 ph :
    nth_error l i = Some found -> temporary found = true ->
    shape t2 = shape found -> temporary t2 = false ->
    u = Some (shape ph) -> temporary ph = true ->
    list_step safe u p (l, c) (set_nth i t2 l ++ [ph], c)
| step_remove l c i x :
    nth_error l i = Some x -> (safe = true -> temporary x = false) ->
    list_step safe u p (l, c)
              (firstn i l ++ skipn (S i) l, if Z.of_nat i <? c then c - 1 else c).

(** A list in two parts: [n] elements with [phi], then elements with [psi]. *)
Definition parts {A : Type} (phi psi : A -> Prop) (l : list A) (n : nat) : Prop :=
  exists P R, l = P ++ R /\ List.length P = n /\ Forall phi P /\ Forall psi R.

(** The list ends in its only temporary entry. *)
Definition trailing {T : Type} (l : list (Ui T)) : Prop :=
  (1 <= List.length l)%nat /\
  parts (fun t => temporary t = false) (fun t => temporary t = true)
        l (List.length l - 1).

(** With a parent, the cursor is an index of the list. *)
Definition in_range {T : Type} (p : Nullish string) (l : list (Ui T)) (c : Z) : Prop :=
  has_parent p = true -> 0 <= c <= Z.of_nat (List.length l).

(** With a parent, the cursor is not behind the placeholder. *)
Definition before_placeholder {T : Type} (p : Nullish string) (l : list (Ui T)) (c : Z) : Prop :=
  has_parent p = true -> 0 <= c <= Z.of_nat (List.length l) - 1.

(** The first [c] entries are the parent's, the others are not. *)
Definition segmented {T : Type} (p : Nullish string) (l : list (Ui T)) (c : Z) : Prop :=
  0 <= c /\
  parts (fun t => strict_eq_string p (shape t) = true)
        (fun t => strict_eq_string p (shape t) = false)
        l (Z.to_nat c).

Definition parent_differs (u : option string) (p : Nullish string) : Prop :=
  forall us, u = Some us -> strict_eq_string p us = false.

(** Both lists end in their placeholder, and with a parent both cursors
    stay before it. *)
Definition placeholders_kept (s : State) : Prop :=
  (trailing (_trackers s) /\
   before_placeholder (_parentUuid s) (_trackers s) (firstRealTrackerIndex s)) /\
  (trailing (_auras s) /\
   before_placeholder (_parentUuid s) (_auras s) (firstRealAuraIndex s)).

(** Both lists start with the parent's entries, as many as the cursor says. *)
Definition cursors_kept (s : State) : Prop :=
  parent_differs (_uuid s) (_parentUuid s) /\
  segmented (_parentUuid s) (_trackers s) (firstRealTrackerIndex s) /\
  segmented (_parentUuid s) (_auras s) (firstRealAuraIndex s).

Definition cursors_in_range (s : State) : Prop :=
  in_range (_parentUuid s) (_trackers s) (firstRealTrackerIndex s) /\
  in_range (_parentUuid s) (_auras s) (firstRealAuraIndex s).

(** ** Proof automation *)

Ltac unfold_mutations :=
  unfold run, setDefaultAccess, setDefaultEditAccess, setDefaultMovementAccess,
    setDefaultVisionAccess, addOwner, updateOwner, removeOwner,
    pushTracker, updateTracker, removeTracker, pushAura, updateAura, removeAura,
    setActiveShape, clear, forward, call_on, call, done, throw in *.

Ltac break_match :=
  match goal with
  | |- context [match ?x with _ => _ end] =>
      lazymatch type of x with
      | State => fail
      | Outcome => fail
      | option State => fail
      | _ => destruct x eqn:?; cbv beta iota
      end
  end.

Ltac bool_crush :=
  repeat match goal with
    | H : _ && _ = true |- _ => apply andb_true_iff in H; destruct H
    | H : _ || _ = true |- _ => apply orb_true_iff in H; destruct H
    | H : _ || _ = false |- _ => apply orb_false_iff in H; destruct H
    | H : negb _ = true |- _ => apply negb_true_iff in H
    | H : negb _ = false |- _ => apply negb_false_iff in H
    end;
  try discriminate; try congruence.

(** ** Vocabulary for the access descriptor, the forwarding step and the lists *)

(** [edit] needs [movement], and [movement] needs [vision]. *)
Definition ordered (a : ShapeAccess) : bool :=
  implb (edit a) (movement a) && implb (movement a) (vision a).

Definition access_ordered (s : State) : Prop :=
  forall a, _access s = Some a -> ordered a = true.

Definition is_default_access_op (op : Op) : bool :=
  match op with
  | SetDefaultAccess _ _ | SetDefaultEditAccess _ _
  | SetDefaultMovementAccess _ _ | SetDefaultVisionAccess _ _ => true
  | _ => false
  end.

(** The uuid that a mutation looks up with [layerManager.UUIDMap.get(...)!],
    without a test for [undefined]: the selection for the access and owner
    mutations, the payload's shape for a push. *)
Definition forward_target (op : Op) (s : State) : option string :=
  match op with
  | SetDefaultAccess _ _ | SetDefaultEditAccess _ _
  | SetDefaultMovementAccess _ _ | SetDefaultVisionAccess _ _
  | AddOwner _ _ | UpdateOwner _ _ | RemoveOwner _ _ => _uuid s
  | PushTracker _ sh _ | PushAura _ sh _ => Some sh
  | _ => None
  end.

(** The viewer has a right to edit that does not come from the default
    access of the selection. *)
Definition has_own_right (env : Env) (s : State) : bool :=
  let g := gameStore env in
  IS_DM g
  || (FAKE_PLAYER g && match _uuid s with
                       | Some u => includes (activeTokens g) u
                       | None => false
                       end)
  || some (fun u => String.eqb (user u) (username g) && Bool.eqb (edit (access u)) true)
          (_owners s).

(** Every entry belongs to the selection or to its parent. *)
Definition owned_entries {T : Type} (u : option string) (p : Nullish string)
           (l : list (Ui T)) : Prop :=
  Forall (fun t => u = Some (shape t) \/ p = Value (shape t)) l.

Definition lists_owned (s : State) : Prop :=
  owned_entries (_uuid s) (_parentUuid s) (_trackers s) /\
  owned_entries (_uuid s) (_parentUuid s) (_auras s).

Definition touches_trackers (op : Op) : bool :=
  match op with
  | PushTracker _ _ _ | UpdateTracker _ _ _ | RemoveTracker _ _ => true
  | _ => false
  end.

Definition touches_auras (op : Op) : bool :=
  match op with
  | PushAura _ _ _ | UpdateAura _ _ _ | RemoveAura _ _ => true
  | _ => false
  end.

Definition touches_owners (op : Op) : bool :=
  match op with
  | AddOwner _ _ | UpdateOwner _ _ | RemoveOwner _ _ => true
  | _ => false
  end.

(** The same mutation with another sync tag. *)
Definition with_tag (t : SyncTo) (op : Op) : Op :=
  match op with
  | SetDefaultAccess a _ => SetDefaultAccess a t
  | SetDefaultEditAccess b _ => SetDefaultEditAccess b t
  | SetDefaultMovementAccess b _ => SetDefaultMovementAccess b t
  | SetDefaultVisionAccess b _ => SetDefaultVisionAccess b t
  | AddOwner o _ => AddOwner o t
  | UpdateOwner o _ => UpdateOwner o t
  | RemoveOwner o _ => RemoveOwner o t
  | PushTracker x sh _ => PushTracker x sh t
  | UpdateTracker x d _ => UpdateTracker x d t
  | RemoveTracker x _ => RemoveTracker x t
  | PushAura x sh _ => PushAura x sh t
  | UpdateAura x d _ => UpdateAura x d t
  | RemoveAura x _ => RemoveAura x t
  | SetActiveShape sh => SetActiveShape sh
  | Clear => Clear
  end.

Definition is_entry_update (op : Op) : bool :=
  match op with
  | UpdateTracker _ _ _ | UpdateAura _ _ _ => true
  | _ => false
  end.

(** [l] with [x] put in at index [k]. *)
Definition inserted_at {A : Type} (k : nat) (x : A) (l : list A) : list A :=
  firstn k l ++ x :: skipn k l.

(** [l] without its element at index [i]. *)
Definition removed_at {A : Type} (i : nat) (l : list A) : list A :=
  firstn i l ++ skipn (S i) l.

Ltac ulia := unfold UiTracker, UiAura in *; lia.

(** * Tool: the base class of the tools, [client/src/game/ui/tools/tool.vue] *)

Module Tool.

(** [a ?? d] with a plain default. *)
Definition coalesce {A : Type} (a : Nullish A) (d : A) : A :=
  match a with
  | Value x => x
  | _ => d
  end.

(** [!a]: [undefined] and [null] are falsy. *)
Definition js_not (a : Nullish bool) : bool :=
  match a with
  | Value b => negb b
  | _ => true
  end.

(** [ToolFeatures] of [./utils] is not part of the sources; [hasFeature]
    reads two optional arrays of feature numbers from it. *)
Record ToolFeatures : Type := mkFeatures {
  enabled : option (list Z);
  disabled : option (list Z)
}.

(** [l.includes(feature)] on an array of numbers. *)
Definition includes_number (l : list Z) (feature : Z) : bool :=
  existsb (Z.eqb feature) l.

(** [!x ?? true] is [(!x) ?? true]: the negation is applied first. *)
Definition hasFeature (feature : Z) (features : ToolFeatures) : bool :=
  coalesce (Value (js_not (optional_chain (disabled features)
                                          (fun l => includes_number l feature))))
           true
  && ((coalesce (optional_chain (enabled features) (fun l => Z.of_nat (List.length l))) 0 =? 0)
      || coalesce (optional_chain (enabled features) (fun l => includes_number l feature))
                  false).

(** An array that is not there lists nothing. *)
Definition listed (l : option (list Z)) : list Z :=
  match l with Some x => x | None => [] end.

Inductive Mode : Type := Build | Play.

(** The part of the parent component [Tools] that [onToolsModeChange] uses.
    A [ToolName] is a string. *)
Record Tools : Type := mkTools {
  currentTool : string;
  buildTools : list (string * ToolFeatures);
  playTools : list (string * ToolFeatures)
}.

Definition set_currentTool (p : Tools) (name : string) : Tools :=
  mkTools name (buildTools p) (playTools p).

Section ModeChange.
(** [ToolName.Select] *)
Variable Select : string.

Definition onToolsModeChange (mode : Mode) (parent : Tools) : Tools :=
  match mode with
  | Build =>
      if negb (includes (map fst (buildTools parent)) (currentTool parent))
      then set_currentTool parent Select
      else parent
  | Play =>
      if negb (includes (map fst (playTools parent)) (currentTool parent))
      then set_currentTool parent Select
      else parent
  end.

Definition tools_of (mode : Mode) (parent : Tools) : list string :=
  match mode with
  | Build => map fst (buildTools parent)
  | Play => map fst (playTools parent)
  end.
End ModeChange.

End Tool.

(** * PingTool: the component appended to [ActiveShapeStore.ts]

    The circles and the layer are objects of classes that are not part of
    the sources.  The tool holds references to them; what it does to them
    is recorded as a list of effects, in the order of the calls. *)

Module PingTool.

(** Only the members that the tool names. *)
Inductive SyncMode : Type := TEMP_SYNC.
Inductive InvalidationMode : Type := NORMAL.

Section Points.
(** Points are opaque; [l2g] converts between the two kinds. *)
Variables LocalPoint GlobalPoint : Type.

Inductive Effect : Type :=
| console_log (msg : string)
| new_Circle (ref : nat) (center : GlobalPoint) (r : Z)
             (fillColour : string) (strokeColour : option string)
| addOwner (ref : nat) (user : string) (edit : bool) (sync : bool)
| addShape (layer : nat) (ref : nat) (sync : SyncMode) (invalidate : InvalidationMode)
| removeShape (layer : nat) (ref : nat) (sync : SyncMode)
| center (ref : nat) (gp : GlobalPoint)
| sendShapePositionUpdate (refs : list nat) (temporary : bool)
| invalidate (layer : nat) (skipLightUpdate : bool).

Record Env : Type := mkEnv {
  l2g : LocalPoint -> GlobalPoint;
  (** [layerManager.getLayer(floorStore.currentFloor, "draw")] *)
  getLayer_draw : option nat;
  rulerColour : string;
  username : string
}.

(** The fields of the component, and the number of circles constructed so
    far: [new Circle] yields a reference that no earlier one equals. *)
Record State : Type := mkState {
  active : bool;
  startPoint : option GlobalPoint;
  ping : option nat;
  border : option nat;
  constructed : nat
}.

Definition initial : State :=
  {| active := false; startPoint := None; ping := None; border := None;
     constructed := 0 |}.

Definition cleanup (env : Env) (s : State) : State * list Effect :=
  if negb (active s) then (s, [])
  else
    match ping s, border s, startPoint s with
    | Some p, Some b, Some _ =>
        match getLayer_draw env with
        | None => (s, [console_log "No active layer!"])
        | Some layer =>
            ({| active := false; startPoint := None; ping := None;
                border := border s; constructed := constructed s |},
             [removeShape layer p TEMP_SYNC; removeShape layer b TEMP_SYNC])
        end
    | _, _, _ => (s, [])
    end.

Definition onDeselect (env : Env) (s : State) : State * list Effect :=
  cleanup env s.

Definition onDown (env : Env) (lp : LocalPoint) (s : State) : State * list Effect :=
  let '(s1, e1) := cleanup env s in
  let sp := l2g env lp in
  match getLayer_draw env with
  | None =>
      ({| active := active s1; startPoint := Some sp; ping := ping s1;
          border := border s1; constructed := constructed s1 |},
       e1 ++ [console_log "No draw layer!"])
  | Some layer =>
      let p := constructed s1 in
      let b := S (constructed s1) in
      ({| active := true; startPoint := Some sp; ping := Some p;
          border := Some b; constructed := S (S (constructed s1)) |},
       e1 ++ [new_Circle p sp 20 (rulerColour env) None;
              new_Circle b sp 40 "#0000" (Some (rulerColour env));
              addOwner p (username env) true false;
              addOwner b (username env) true false;
              addShape layer p TEMP_SYNC NORMAL;
              addShape layer b TEMP_SYNC NORMAL])
  end.

Definition onUp (env : Env) (s : State) : State * list Effect :=
  cleanup env s.

Definition onMove (env : Env) (lp : LocalPoint) (s : State) : State * list Effect :=
  if negb (active s) then (s, [])
  else
    match ping s, border s, startPoint s with
    | Some p, Some b, Some _ =>
        let gp := l2g env lp in
        match getLayer_draw env with
        | None => (s, [console_log "No draw layer!"])
        | Some layer =>
            (s, [center p gp; center b gp;
                 sendShapePositionUpdate [p; b] true;
                 invalidate layer true])
        end
    | _, _, _ => (s, [])
    end.

(** The handlers as events, each with the collaborators as they are when it
    arrives. *)
Inductive Event : Type :=
| Down (lp : LocalPoint)
| Up
| Move (lp : LocalPoint)
| Deselect.

Definition handle (env : Env) (ev : Event) (s : State) : State * list Effect :=
  match ev with
  | Down lp => onDown env lp s
  | Up => onUp env s
  | Move lp => onMove env lp s
  | Deselect => onDeselect env s
  end.

(** The state and the effects so far, oldest first. *)
Fixpoint handle_all (evs : list (Env * Event)) (s : State) (trace : list Effect)
  : State * list Effect :=
  match evs with
  | [] => (s, trace)
  | (env, ev) :: evs' =>
      let '(s', e) := handle env ev s in
      handle_all evs' s' (trace ++ e)
  end.

Definition added (trace : list Effect) : list nat :=
  flat_map (fun e => match e with addShape _ r _ _ => [r] | _ => [] end) trace.

Definition removed (trace : list Effect) : list nat :=
  flat_map (fun e => match e with removeShape _ r _ => [r] | _ => [] end) trace.

(** While the tool is active its two circles are there, they are two
    different circles that it has added to a layer and not removed; what has
    been removed was added before and is removed once. *)
Definition consistent (s : State) (trace : list Effect) : Prop :=
  (active s = true ->
   exists p b sp, ping s = Some p /\ border s = Some b /\ startPoint s = Some sp /\
                  p <> b /\ In p (added trace) /\ In b (added trace) /\
                  ~ In p (removed trace) /\ ~ In b (removed trace)) /\
  (forall r, In r (added trace) -> (r < constructed s)%nat) /\
  incl (removed trace) (added trace) /\
  NoDup (removed trace) /\
  NoDup (added trace).
End Points.

End PingTool.

Module PingFixture.
Definition env (layer : option nat) : PingTool.Env (Z * Z) (Z * Z) :=
  PingTool.mkEnv (fun lp => (fst lp + 100, snd lp + 100)) layer "#f00" "ann".
End PingFixture.

(** * Properties *)

(** ** Arrays *)

Section Arrays.
Context {A : Type}.
Implicit Types (p : A -> bool) (l : list A) (x : A).

Lemma findIndex_range p l :
  -1 <= findIndex p l < Z.of_nat (List.length l).
Proof.
  induction l as [|y l IH]; cbn [findIndex List.length].
  - lia.
  - destruct (p y); [lia|].
    destruct (findIndex p l <? 0) eqn:E; [lia|].
    apply Z.ltb_ge in E. lia.
Qed.

Lemma findIndex_neg p l :
  (findIndex p l <? 0) = negb (existsb p l).
Proof.
  induction l as [|y l IH]; cbn [findIndex existsb]; [reflexivity|].
  destruct (p y); cbn [orb negb]; [reflexivity|].
  destruct (findIndex p l <? 0) eqn:E.
  - rewrite <- IH. reflexivity.
  - rewrite <- IH. apply Z.ltb_ge in E. apply Z.ltb_ge. lia.
Qed.

Lemma find_first_none p l :
  find_first p l = None <-> existsb p l = false.
Proof.
  induction l as [|y l IH]; cbn [find_first existsb]; [tauto|].
  destruct (p y); cbn [orb]; [split; discriminate | exact IH].
Qed.

Lemma find_first_nth p l x :
  find_first p l = Some x ->
  0 <= findIndex p l /\
  nth_error l (Z.to_nat (findIndex p l)) = Some x /\ p x = true.
Proof.
  induction l as [|y l IH]; cbn [find_first findIndex]; [discriminate|].
  destruct (p y) eqn:Py.
  - intros [= ->]. repeat split; [lia | assumption].
  - intros H. destruct (IH H) as (Hge & Hnth & Hp).
    destruct (findIndex p l <? 0) eqn:E; [apply Z.ltb_lt in E; lia|].
    repeat split; [lia | | assumption].
    replace (Z.to_nat (findIndex p l + 1)) with (S (Z.to_nat (findIndex p l))) by lia.
    exact Hnth.
Qed.

Lemma findIndex_found p l :
  0 <= findIndex p l -> exists x, find_first p l = Some x.
Proof.
  intros H. destruct (find_first p l) eqn:E; [eauto|].
  apply find_first_none in E.
  pose proof (findIndex_neg p l) as N. rewrite E in N. cbn in N.
  apply Z.ltb_lt in N. lia.
Qed.

Lemma length_set_nth n x l : List.length (set_nth n x l) = List.length l.
Proof.
  revert n; induction l as [|y l IH]; intros [|n]; cbn; auto.
Qed.

Lemma set_nth_split n x y l :
  nth_error l n = Some y ->
  l = firstn n l ++ y :: skipn (S n) l /\
  set_nth n x l = firstn n l ++ x :: skipn (S n) l.
Proof.
  revert n; induction l as [|z l IH]; intros [|n]; cbn; try discriminate.
  - intros [= ->]. split; reflexivity.
  - intros H. destruct (IH _ H) as [E1 E2]. split; f_equal; assumption.
Qed.

(** Inserting one element at an index inside the array. *)
Lemma splice_insert l (k : Z) x :
  0 <= k <= Z.of_nat (List.length l) ->
  splice l k 0 [x] = ([], firstn (Z.to_nat k) l ++ x :: skipn (Z.to_nat k) l).
Proof.
  intros H. unfold splice.
  destruct (k <? 0) eqn:E; [apply Z.ltb_lt in E; lia|].
  cbv zeta.
  replace (Z.min k (Z.of_nat (List.length l))) with k by lia.
  replace (Z.min (Z.max 0 0) (Z.of_nat (List.length l) - k)) with 0 by lia.
  reflexivity.
Qed.

(** [l.splice(l.length - 1, 0, x)] puts [x] just before the last element. *)
Lemma splice_before_last init last x :
  splice (init ++ [last]) (Z.of_nat (List.length (init ++ [last])) - 1) 0 [x]
  = ([], init ++ [x; last]).
Proof.
  rewrite splice_insert by (rewrite length_app; cbn; lia).
  rewrite length_app. cbn [List.length].
  replace (Z.to_nat (Z.of_nat (List.length init + 1) - 1)) with (List.length init + 0)%nat by lia.
  rewrite firstn_app_2, skipn_app, Nat.add_0_r, skipn_all.
  replace (List.length init - List.length init)%nat with 0%nat by lia.
  cbn. rewrite app_nil_r. reflexivity.
Qed.

(** On the empty array the same call inserts at the front. *)
Lemma splice_before_last_nil x :
  splice (@nil A) (Z.of_nat (List.length (@nil A)) - 1) 0 [x] = ([], [x]).
Proof. reflexivity. Qed.

(** [l.splice(i, 1)] at an index inside the array removes that element. *)
Lemma splice_remove l (i : Z) x :
  0 <= i -> nth_error l (Z.to_nat i) = Some x ->
  splice l i 1 [] = ([x], firstn (Z.to_nat i) l ++ skipn (S (Z.to_nat i)) l).
Proof.
  intros Hi Hn. unfold splice.
  assert (Hlt : (Z.to_nat i < List.length l)%nat)
    by (apply nth_error_Some; congruence).
  destruct (i <? 0) eqn:E; [apply Z.ltb_lt in E; lia|].
  cbv zeta.
  replace (Z.min i (Z.of_nat (List.length l))) with i by lia.
  replace (Z.min (Z.max 1 0) (Z.of_nat (List.length l) - i)) with 1 by lia.
  destruct (@set_nth_split (Z.to_nat i) x x l Hn) as [El _].
  assert (Es : skipn (Z.to_nat i) l = x :: skipn (S (Z.to_nat i)) l).
  { rewrite El at 1. rewrite skipn_app, skipn_firstn_comm.
    rewrite length_firstn, Nat.min_l by lia.
    replace (Z.to_nat i - Z.to_nat i)%nat with 0%nat by lia. reflexivity. }
  rewrite Es. reflexivity.
Qed.
End Arrays.

(** ** Reachable states *)

Lemma well_formed_step env op s :
  well_formed s -> well_formed (state (run env op s)).
Proof.
  intros [Ha Hp]. unfold well_formed.
  destruct op; unfold_mutations; cbn [toUiTrackers toUiAuras map];
    repeat break_match; cbn; split; try congruence; try (intuition congruence).
Qed.

Lemma reachable_well_formed s : reachable s -> well_formed s.
Proof.
  induction 1 as [|env op s _ IH].
  - split; cbn; congruence.
  - apply well_formed_step, IH.
Qed.

Lemma hasEditAccess_selected env s :
  hasEditAccess env s = Normal true -> exists u, _uuid s = Some u.
Proof.
  unfold hasEditAccess. destruct (_uuid s); [eauto | discriminate].
Qed.

Lemma reachable_hasEditAccess env s :
  reachable s -> exists b, hasEditAccess env s = Normal b.
Proof.
  intros R. destruct (reachable_well_formed R) as [Ha _].
  unfold hasEditAccess. destruct (_uuid s); [|eauto].
  repeat break_match; eauto. exfalso. apply Ha; congruence.
Qed.

Lemma gate_passes_spec env s :
  gate_passes env s = true <-> hasEditAccess env s = Normal true.
Proof.
  unfold gate_passes. destruct (hasEditAccess env s) as [[|]|];
    split; congruence.
Qed.

(** ** The composite flag *)

(** C10: in every reachable state the [isComposite] getter returns [true],
    with or without a selection and with or without a composite parent:
    [_parentUuid] only ever holds [null] or a string, and the getter compares
    it with [undefined]. *)
Theorem isComposite_always_true (s : State) :
  reachable s -> isComposite s = true.
Proof.
  intros R. destruct (reachable_well_formed R) as [_ Hp].
  unfold isComposite, strict_neq_undefined.
  destruct (_parentUuid s); congruence.
Qed.

(** Nothing is selected, and then a shape without a composite parent is. *)
Lemma isComposite_always_true_witness :
  isComposite initial = true /\
  _parentUuid Fixture.selectA = Null /\ isComposite Fixture.selectA = true.
Proof.
  split; [|split].
  - apply isComposite_always_true. apply reachable_initial.
  - reflexivity.
  - apply isComposite_always_true.
    exact (reachable_step Fixture.env (SetActiveShape Fixture.A) reachable_initial).
Defined.

(** ** Default access *)

Lemma reachable_gate env s :
  reachable s -> gate_passes env s = true ->
  exists u a, _uuid s = Some u /\ _access s = Some a /\
              hasEditAccess env s = Normal true.
Proof.
  intros R G. apply gate_passes_spec in G.
  destruct (hasEditAccess_selected _ _ G) as [u Hu].
  destruct (reachable_well_formed R) as [Ha _].
  destruct (_access s) as [a|] eqn:E.
  - eauto.
  - exfalso. apply Ha; congruence.
Qed.

(** C2: when the permission gate passes, granting edit also grants movement
    and vision, withdrawing movement withdraws edit, withdrawing vision
    withdraws movement and edit, and granting movement grants vision,
    whatever the sync tag and the descriptor before. *)
Theorem access_propagation (env : Env) (syncTo : SyncTo) (s : State) :
  reachable s -> gate_passes env s = true ->
  (exists a, _access (state (setDefaultEditAccess env true syncTo s)) = Some a /\
             edit a = true /\ movement a = true /\ vision a = true) /\
  (exists a, _access (state (setDefaultMovementAccess env false syncTo s)) = Some a /\
             movement a = false /\ edit a = false) /\
  (exists a, _access (state (setDefaultVisionAccess env false syncTo s)) = Some a /\
             vision a = false /\ movement a = false /\ edit a = false) /\
  (exists a, _access (state (setDefaultMovementAccess env true syncTo s)) = Some a /\
             movement a = true /\ vision a = true).
Proof.
  intros R G. destruct (reachable_gate env R G) as (u & a & Hu & Ha & Hg).
  unfold_mutations. rewrite Hu, Hg, Ha. cbn.
  repeat split; destruct (SyncTo_eqb syncTo UI);
    try destruct (UUIDMap_get (layerManager env) u); cbn; eauto 6.
Qed.

(** A player without any right of their own edits a shape whose default
    access is complete. *)
Lemma access_propagation_witness :
  exists a,
    _access (state (setDefaultVisionAccess Fixture.env_player false SERVER Fixture.selectA))
    = Some a /\ vision a = false /\ movement a = false /\ edit a = false.
Proof.
  refine (proj1 (proj2 (proj2
            (access_propagation Fixture.env_player SERVER (s := Fixture.selectA) _ _)))).
  - exact (reachable_step Fixture.env (SetActiveShape Fixture.A) reachable_initial).
  - reflexivity.
Defined.

(** ** What a removal does once its target is found *)

Lemma removeTracker_found env id syncTo s t :
  hasEditAccess env s = Normal true ->
  find_first (fun t : UiTracker => String.eqb (Tracker.uuid (entity t)) id) (_trackers s)
  = Some t ->
  removeTracker env id syncTo s =
  let i := findIndex (fun t : UiTracker => String.eqb (Tracker.uuid (entity t)) id)
                     (_trackers s) in
  let s1 := set_trackers s
              (firstn (Z.to_nat i) (_trackers s) ++ skipn (S (Z.to_nat i)) (_trackers s))
              (if i <? firstRealTrackerIndex s
               then firstRealTrackerIndex s - 1 else firstRealTrackerIndex s) in
  match UUIDMap_get (layerManager env) (shape t) with
  | None => done s1
  | Some sh => if SyncTo_eqb syncTo UI then done s1
               else call s1 sh (Gateway.removeTracker id syncTo)
  end.
Proof.
  intros Hg Hf. unfold removeTracker. rewrite Hg.
  destruct (find_first_nth _ _ Hf) as (Hge & Hnth & _).
  destruct (findIndex _ (_trackers s) <? 0) eqn:E; [apply Z.ltb_lt in E; lia|].
  rewrite (splice_remove _ Hge Hnth). reflexivity.
Qed.

Lemma removeAura_found env id syncTo s a :
  hasEditAccess env s = Normal true ->
  find_first (fun a : UiAura => String.eqb (Aura.uuid (entity a)) id) (_auras s)
  = Some a ->
  removeAura env id syncTo s =
  let i := findIndex (fun a : UiAura => String.eqb (Aura.uuid (entity a)) id)
                     (_auras s) in
  let s1 := set_auras s
              (firstn (Z.to_nat i) (_auras s) ++ skipn (S (Z.to_nat i)) (_auras s))
              (if i <? firstRealAuraIndex s
               then firstRealAuraIndex s - 1 else firstRealAuraIndex s) in
  match UUIDMap_get (layerManager env) (shape a) with
  | None => done s1
  | Some sh => if SyncTo_eqb syncTo UI then done s1
               else call s1 sh (Gateway.removeAura id syncTo)
  end.
Proof.
  intros Hg Hf. unfold removeAura. rewrite Hg.
  destruct (find_first_nth _ _ Hf) as (Hge & Hnth & _).
  destruct (findIndex _ (_auras s) <? 0) eqn:E; [apply Z.ltb_lt in E; lia|].
  rewrite (splice_remove _ Hge Hnth). reflexivity.
Qed.

Lemma removeTracker_absent env id syncTo s b :
  hasEditAccess env s = Normal b ->
  tracker_present s id = false ->
  removeTracker env id syncTo s = done s.
Proof.
  intros Hg Ha. unfold removeTracker. rewrite Hg. destruct b; [|reflexivity].
  rewrite findIndex_neg. unfold tracker_present in Ha. rewrite Ha. reflexivity.
Qed.

Lemma removeAura_absent env id syncTo s b :
  hasEditAccess env s = Normal b ->
  aura_present s id = false ->
  removeAura env id syncTo s = done s.
Proof.
  intros Hg Ha. unfold removeAura. rewrite Hg. destruct b; [|reflexivity].
  rewrite findIndex_neg. unfold aura_present in Ha. rewrite Ha. reflexivity.
Qed.

Lemma SyncTo_eqb_eq a b : SyncTo_eqb a b = true <-> a = b.
Proof. destruct a, b; cbn; split; congruence. Qed.

Lemma SyncTo_eqb_neq a b : a <> b -> SyncTo_eqb a b = false.
Proof. destruct a, b; cbn; congruence. Qed.

(** ** Forwarding to the gateway *)

Lemma calls_at_most_once env op s :
  (List.length (calls (run env op s)) <= 1)%nat.
Proof.
  destruct op; unfold_mutations; repeat break_match; cbn; lia.
Qed.

Lemma echo_makes_no_call env op s :
  tag op = Some UI -> calls (run env op s) = [].
Proof.
  destruct op; cbn [tag]; intros [= ->]; unfold_mutations; cbn [SyncTo_eqb];
    repeat break_match; reflexivity.
Qed.

Lemma guarded_call_made env op s t :
  tag op = Some t -> passes_guards env op s = true -> t <> UI ->
  List.length (calls (run env op s)) = 1%nat.
Proof.
  intros Ht Hp Hn. apply SyncTo_eqb_neq in Hn.
  unfold passes_guards in Hp. apply andb_true_iff in Hp. destruct Hp as [Hg Hp].
  apply gate_passes_spec in Hg.
  destruct op; cbn [tag] in Ht; try discriminate; injection Ht as ->;
    try (rename syncTo into t).
  all: revert Hp;
    unfold selection_registered, has_access_record, owner_present,
      tracker_resolves, aura_resolves, registered.
  all: destruct (hasEditAccess_selected _ _ Hg) as [u0 Hu0].
  1-9, 11-12: unfold_mutations; rewrite ?Hg, ?Hn, ?Hu0, ?findIndex_neg;
    cbn [toUiTrackers toUiAuras map assign_tracker assign_aura shape temporary];
    repeat break_match; cbn; intros; try reflexivity; bool_crush.
  - destruct (find_first _ (_trackers s)) as [x|] eqn:Hf; [|discriminate].
    cbn [run]. rewrite (@removeTracker_found env tracker t s x Hg Hf). cbv zeta.
    destruct (UUIDMap_get (layerManager env) (shape x)); [|discriminate].
    rewrite Hn. reflexivity.
  - destruct (find_first _ (_auras s)) as [x|] eqn:Hf; [|discriminate].
    cbn [run]. rewrite (@removeAura_found env aura t s x Hg Hf). cbv zeta.
    destruct (UUIDMap_get (layerManager env) (shape x)); [|discriminate].
    rewrite Hn. reflexivity.
Qed.

(** C1, as the store has it: a mutation calls the gateway at most once, and
    never when its tag is [SyncTo.UI]; when the tag is another one and no
    guard stops the mutation (the permission gate passes, the target is
    found, a pushed entry belongs to the selection or its parent, the
    receiving shape is registered), it calls the gateway exactly once. *)
Theorem forwarding_discipline (env : Env) (op : Op) (s : State) (t : SyncTo) :
  tag op = Some t ->
  (List.length (calls (run env op s)) <= 1)%nat /\
  (t = UI -> calls (run env op s) = []) /\
  (calls (run env op s) <> [] -> t <> UI) /\
  (passes_guards env op s = true -> t <> UI ->
   List.length (calls (run env op s)) = 1%nat).
Proof.
  intros Ht. split; [apply calls_at_most_once|]. split; [|split].
  - intros ->. apply echo_makes_no_call, Ht.
  - intros Hc ->. apply Hc, echo_makes_no_call, Ht.
  - intros Hp Hn. exact (guarded_call_made _ _ _ Ht Hp Hn).
Qed.

(** The game master raises the default edit access of the selection: one
    call; the same request as an echo: none. *)
Lemma forwarding_discipline_witness :
  List.length (calls (run Fixture.env (SetDefaultEditAccess true SERVER) Fixture.selectB)) = 1%nat /\
  calls (run Fixture.env (SetDefaultEditAccess true UI) Fixture.selectB) = [].
Proof.
  split.
  - refine (proj2 (proj2 (proj2
      (forwarding_discipline Fixture.env (SetDefaultEditAccess true SERVER)
         Fixture.selectB (t := SERVER) _))) _ _).
    + reflexivity.
    + reflexivity.
    + discriminate.
  - refine (proj1 (proj2
      (forwarding_discipline Fixture.env (SetDefaultEditAccess true UI)
         Fixture.selectB (t := UI) _)) _); reflexivity.
Defined.

(** C1 as stated fails: the game master removes the parent's tracker from
    the list while the parent is not registered in [layerManager.UUIDMap];
    the tag is not [SyncTo.UI], the permission gate passes, the entry leaves
    the list, and no call is made. *)
Lemma forwarding_counterexample :
  tag (RemoveTracker "PT1" SERVER) = Some SERVER /\
  gate_passes Fixture.env_unregistered Fixture.selectB = true /\
  _trackers Fixture.selectB
  = [mkUi "P" false Fixture.PT1; createEmptyTracker "B" "new-0"] /\
  _trackers (state (run Fixture.env_unregistered (RemoveTracker "PT1" SERVER) Fixture.selectB))
  = [createEmptyTracker "B" "new-0"] /\
  ~ (calls (run Fixture.env_unregistered (RemoveTracker "PT1" SERVER) Fixture.selectB) <> []
     <-> SERVER <> UI).
Proof.
  repeat split.
  intros [_ H]. apply H; [discriminate | reflexivity].
Qed.

(** ** Mutations that do nothing *)

Lemma filter_absent {A : Type} (p : A -> bool) (l : list A) :
  existsb p l = false -> filter (fun x => negb (p x)) l = l.
Proof.
  induction l as [|x l IH]; cbn; [reflexivity|].
  intros H. apply orb_false_iff in H. destruct H as [Hx Hl].
  rewrite Hx. cbn. f_equal. apply IH, Hl.
Qed.

Lemma set_owners_same s : set_owners s (_owners s) = s.
Proof. destruct s; reflexivity. Qed.

Lemma denied_is_noop env op s :
  tag op <> None -> hasEditAccess env s = Normal false -> run env op s = done s.
Proof.
  intros Ht Hg.
  destruct op; cbn [tag] in Ht; try congruence; unfold_mutations; rewrite Hg;
    destruct (_uuid s); reflexivity.
Qed.

Lemma absent_is_noop env op s b :
  hasEditAccess env s = Normal b -> target_absent op s = true ->
  run env op s = done s.
Proof.
  intros Hg Ha.
  destruct op; cbn [target_absent] in Ha; try discriminate;
    apply negb_true_iff in Ha; cbn [run].
  - unfold updateOwner. rewrite Hg, findIndex_neg.
    unfold owner_present in Ha. rewrite Ha.
    destruct (_uuid s), b; reflexivity.
  - unfold updateTracker. rewrite Hg.
    apply find_first_none in Ha. rewrite Ha. destruct b; reflexivity.
  - eapply removeTracker_absent; eassumption.
  - unfold updateAura. rewrite Hg.
    apply find_first_none in Ha. rewrite Ha. destruct b; reflexivity.
  - eapply removeAura_absent; eassumption.
Qed.

(** C7, as the store has it: without effective edit access (so also without
    a selection), or when the owner, tracker or aura that an update or a
    tracker or aura removal addresses is not in its list, a mutation leaves
    the whole state as it was, calls nothing and does not throw.
    [removeOwner] of a user who is not an owner leaves the state as it was
    too. *)
Theorem noop_without_access_or_target (env : Env) (op : Op) (s : State) :
  reachable s -> tag op <> None ->
  (gate_passes env s = false \/ target_absent op s = true ->
   run env op s = done s) /\
  (forall u t, op = RemoveOwner u t -> owner_present s u = false ->
               state (run env op s) = s).
Proof.
  intros R Ht. destruct (reachable_hasEditAccess env R) as [b Hb]. split.
  - intros [Hg | Ha].
    + apply denied_is_noop; [assumption|].
      unfold gate_passes in Hg. rewrite Hb in *. destruct b; congruence.
    + eapply absent_is_noop; eassumption.
  - intros u t -> Ha. cbn [run]. unfold removeOwner, forward, call_on, call, done, throw.
    unfold owner_present in Ha. rewrite (filter_absent _ _ Ha), set_owners_same.
    repeat break_match; reflexivity.
Qed.

(** A player without rights on shape B pushes a tracker; the game master
    edits a tracker that is not in the list. *)
Lemma noop_without_access_or_target_witness :
  run Fixture.env_player (PushTracker Fixture.T2 "B" SERVER) Fixture.selectB
  = done Fixture.selectB /\
  run Fixture.env (UpdateTracker "gone" (Tracker.mkPartial None None None (Some 1) None) SERVER)
      Fixture.selectB
  = done Fixture.selectB.
Proof.
  assert (R : reachable Fixture.selectB)
    by exact (reachable_step Fixture.env (SetActiveShape Fixture.B) reachable_initial).
  split.
  - refine (proj1 (noop_without_access_or_target Fixture.env_player
                     (PushTracker Fixture.T2 "B" SERVER) R _) _).
    + discriminate.
    + left. reflexivity.
  - refine (proj1 (noop_without_access_or_target Fixture.env
                     (UpdateTracker "gone" _ SERVER) R _) _).
    + discriminate.
    + right. reflexivity.
Defined.

(** C7 as stated fails for [removeOwner]: the user is not an owner, the
    state stays as it was, and the removal is forwarded all the same. *)
Lemma noop_counterexample :
  owner_present Fixture.selectB "nobody" = false /\
  state (run Fixture.env (RemoveOwner "nobody" SERVER) Fixture.selectB) = Fixture.selectB /\
  calls (run Fixture.env (RemoveOwner "nobody" SERVER) Fixture.selectB)
  = [Gateway.mkCall Fixture.B (Gateway.removeOwner "nobody" SERVER)] /\
  run Fixture.env (RemoveOwner "nobody" SERVER) Fixture.selectB <> done Fixture.selectB.
Proof.
  repeat split. discriminate.
Qed.

(** ** Owners *)

Lemma map_user_set_nth n o l :
  option_map user (nth_error l n) = Some (user o) ->
  map user (set_nth n o l) = map user l.
Proof.
  revert n; induction l as [|x l IH]; intros [|n]; cbn; try discriminate.
  - intros [= ->]. reflexivity.
  - intros H. f_equal. apply IH, H.
Qed.

Lemma findIndex_user o l :
  0 <= findIndex (fun x => String.eqb (user x) (user o)) l ->
  option_map user
    (nth_error l (Z.to_nat (findIndex (fun x => String.eqb (user x) (user o)) l)))
  = Some (user o).
Proof.
  intros H. destruct (findIndex_found _ _ H) as [x Hx].
  destruct (find_first_nth _ _ Hx) as (_ & Hn & Hp).
  rewrite Hn. cbn. apply String.eqb_eq in Hp. congruence.
Qed.

Lemma updateOwner_users env o t s :
  owner_users (state (updateOwner env o t s)) = owner_users s.
Proof.
  unfold updateOwner, forward, call_on, call, done, throw, owner_users.
  repeat break_match; cbn; try reflexivity.
  all: apply map_user_set_nth, findIndex_user; apply Z.ltb_ge; assumption.
Qed.

Lemma addOwner_users env o t s :
  owner_users (state (addOwner env o t s)) = owner_users s \/
  owner_users (state (addOwner env o t s)) = owner_users s ++ [user o].
Proof.
  unfold addOwner, forward, call_on, call, done, throw, owner_users.
  repeat break_match; cbn; rewrite ?map_app; auto.
Qed.

Lemma owner_present_In s u : owner_present s u = true <-> In u (owner_users s).
Proof.
  unfold owner_present, owner_users. rewrite existsb_exists, in_map_iff.
  split; intros (x & H1 & H2).
  - apply String.eqb_eq in H2. eauto.
  - exists x. split; [assumption | apply String.eqb_eq; assumption].
Qed.

Lemma NoDup_snoc (u : string) l : NoDup l -> ~ In u l -> NoDup (l ++ [u]).
Proof.
  intros Hl Hu. apply NoDup_app; [assumption | repeat constructor; intros [] | ].
  intros x Hx [<-|[]]. contradiction.
Qed.

(** C3, as the store has it: [updateOwner] never changes who the owners
    are, and [addOwner] appends without looking; so from a list without two
    entries for one user, any sequence of [updateOwner] and of [addOwner]
    for users not yet in the list keeps the users distinct. *)
Theorem owner_uniqueness (ops : list (Env * Op)) (s : State) :
  NoDup (owner_users s) ->
  adds_only_new_users ops s = true ->
  NoDup (owner_users (run_all ops s)).
Proof.
  revert s. induction ops as [|[env op] ops IH]; intros s Hs Hops; cbn in *.
  - assumption.
  - apply andb_true_iff in Hops. destruct Hops as [Hop Hrest].
    apply IH; [|assumption]. clear IH Hrest.
    destruct op; try discriminate; cbn [run].
    + destruct (addOwner_users env owner syncTo s) as [-> | ->]; [assumption|].
      apply NoDup_snoc; [assumption|].
      intros Hin. apply owner_present_In in Hin.
      apply negb_true_iff in Hop. congruence.
    + rewrite updateOwner_users. assumption.
Qed.

(** Two owners are added and one of them is updated. *)
Lemma owner_uniqueness_witness :
  NoDup (owner_users
           (run_all [(Fixture.env, AddOwner (Fixture.ann Fixture.none) SERVER);
                     (Fixture.env, AddOwner Fixture.bob UI);
                     (Fixture.env, UpdateOwner (Fixture.ann Fixture.full) SERVER)]
                    Fixture.selectB)).
Proof.
  apply owner_uniqueness.
  - constructor.
  - reflexivity.
Defined.

(** C3 as stated fails: [addOwner] twice for one user, on a reachable state,
    leaves two entries for that user. *)
Lemma owner_uniqueness_counterexample :
  reachable Fixture.selectB /\
  owner_steps [(Fixture.env, AddOwner (Fixture.ann Fixture.none) SERVER);
               (Fixture.env, AddOwner (Fixture.ann Fixture.full) SERVER)] = true /\
  owner_users
    (run_all [(Fixture.env, AddOwner (Fixture.ann Fixture.none) SERVER);
              (Fixture.env, AddOwner (Fixture.ann Fixture.full) SERVER)]
             Fixture.selectB)
  = ["ann"; "ann"] /\
  ~ NoDup (owner_users
             (run_all [(Fixture.env, AddOwner (Fixture.ann Fixture.none) SERVER);
                       (Fixture.env, AddOwner (Fixture.ann Fixture.full) SERVER)]
                      Fixture.selectB)).
Proof.
  split; [|split; [|split]].
  - exact (reachable_step Fixture.env (SetActiveShape Fixture.B) reachable_initial).
  - reflexivity.
  - reflexivity.
  - intros H. inversion H as [|x l Hn _]. apply Hn. left. reflexivity.
Qed.

(** ** One mutation, seen from a list *)

Lemma state_forward env s u t m : state (forward env s u t m) = s.
Proof.
  unfold forward, call_on, call, done, throw. repeat break_match; reflexivity.
Qed.

Lemma uuid_is_spec s sh : uuid_is s sh = true -> _uuid s = Some sh.
Proof.
  unfold uuid_is. destruct (_uuid s); [|discriminate].
  intros H. apply String.eqb_eq in H. congruence.
Qed.

Lemma mutation_keeps_selection env op s :
  is_mutation op = true ->
  _uuid (state (run env op s)) = _uuid s /\
  _parentUuid (state (run env op s)) = _parentUuid s.
Proof.
  destruct op; cbn [is_mutation tag]; try discriminate; intros _;
    unfold_mutations; cbn [toUiTrackers toUiAuras map];
    repeat break_match; cbn; split; congruence.
Qed.

Lemma pushTracker_step safe env x sh t s :
  list_step safe (_uuid s) (_parentUuid s)
            (_trackers s, firstRealTrackerIndex s)
            (_trackers (state (pushTracker env x sh t s)),
             firstRealTrackerIndex (state (pushTracker env x sh t s))).
Proof.
  unfold pushTracker. destruct (hasEditAccess env s) as [[|]|]; try apply step_none.
  cbn [toUiTrackers map].
  destruct (uuid_is s sh) eqn:Hu.
  - rewrite state_forward. cbn. apply uuid_is_spec in Hu.
    apply (@step_push_own _ safe (_uuid s) (_parentUuid s) (_trackers s)
             (firstRealTrackerIndex s) (mkUi sh false x)); [exact Hu | reflexivity | reflexivity].
  - destruct (strict_eq_string (_parentUuid s) sh) eqn:Hp; [|apply step_none].
    rewrite state_forward. cbn.
    apply (@step_push_parent _ safe (_uuid s) (_parentUuid s) (_trackers s)
             (firstRealTrackerIndex s) (mkUi sh false x)); [exact Hp | reflexivity | reflexivity].
Qed.

Lemma pushAura_step safe env x sh t s :
  list_step safe (_uuid s) (_parentUuid s)
            (_auras s, firstRealAuraIndex s)
            (_auras (state (pushAura env x sh t s)),
             firstRealAuraIndex (state (pushAura env x sh t s))).
Proof.
  unfold pushAura. destruct (hasEditAccess env s) as [[|]|]; try apply step_none.
  cbn [toUiAuras map].
  destruct (uuid_is s sh) eqn:Hu.
  - rewrite state_forward. cbn. apply uuid_is_spec in Hu.
    apply (@step_push_own _ safe (_uuid s) (_parentUuid s) (_auras s)
             (firstRealAuraIndex s) (mkUi sh false x)); [exact Hu | reflexivity | reflexivity].
  - destruct (strict_eq_string (_parentUuid s) sh) eqn:Hp; [|apply step_none].
    rewrite state_forward. cbn.
    apply (@step_push_parent _ safe (_uuid s) (_parentUuid s) (_auras s)
             (firstRealAuraIndex s) (mkUi sh false x)); [exact Hp | reflexivity | reflexivity].
Qed.

Lemma updateTracker_step safe env id delta t s :
  list_step safe (_uuid s) (_parentUuid s)
            (_trackers s, firstRealTrackerIndex s)
            (_trackers (state (updateTracker env id delta t s)),
             firstRealTrackerIndex (state (updateTracker env id delta t s))).
Proof.
  unfold updateTracker. destruct (hasEditAccess env s) as [[|]|]; try apply step_none.
  destruct (find_first _ (_trackers s)) as [found|] eqn:Hf; [|apply step_none].
  destruct (find_first_nth _ _ Hf) as (_ & Hn & _).
  cbn [assign_tracker shape temporary].
  assert (Hup : list_step safe (_uuid s) (_parentUuid s)
                  (_trackers s, firstRealTrackerIndex s)
                  (set_nth (Z.to_nat (findIndex
                     (fun t0 : UiTracker => String.eqb (Tracker.uuid (entity t0)) id)
                     (_trackers s))) (assign_tracker found delta) (_trackers s),
                   firstRealTrackerIndex s))
    by (eapply step_update; [exact Hn | reflexivity | reflexivity]).
  destruct (UUIDMap_get (layerManager env) (shape found)); [|exact Hup].
  destruct (SyncTo_eqb t UI); [exact Hup|].
  destruct (temporary found) eqn:Ht; [|exact Hup].
  destruct (_uuid s) as [u|] eqn:Hu; [|rewrite <- Hu in Hup; cbn; rewrite Hu in *; exact Hup].
  cbn. eapply step_promote; [exact Hn | exact Ht | reflexivity | reflexivity
                            | reflexivity | reflexivity].
Qed.

Lemma updateAura_step safe env id delta t s :
  list_step safe (_uuid s) (_parentUuid s)
            (_auras s, firstRealAuraIndex s)
            (_auras (state (updateAura env id delta t s)),
             firstRealAuraIndex (state (updateAura env id delta t s))).
Proof.
  unfold updateAura. destruct (hasEditAccess env s) as [[|]|]; try apply step_none.
  destruct (find_first _ (_auras s)) as [found|] eqn:Hf; [|apply step_none].
  destruct (find_first_nth _ _ Hf) as (_ & Hn & _).
  cbn [assign_aura shape temporary].
  assert (Hup : list_step safe (_uuid s) (_parentUuid s)
                  (_auras s, firstRealAuraIndex s)
                  (set_nth (Z.to_nat (findIndex
                     (fun a0 : UiAura => String.eqb (Aura.uuid (entity a0)) id)
                     (_auras s))) (assign_aura found delta) (_auras s),
                   firstRealAuraIndex s))
    by (eapply step_update; [exact Hn | reflexivity | reflexivity]).
  destruct (UUIDMap_get (layerManager env) (shape found)); [|exact Hup].
  destruct (SyncTo_eqb t UI); [exact Hup|].
  destruct (temporary found) eqn:Ht; [|exact Hup].
  destruct (_uuid s) as [u|] eqn:Hu; [|rewrite <- Hu in Hup; cbn; rewrite Hu in *; exact Hup].
  cbn. eapply step_promote; [exact Hn | exact Ht | reflexivity | reflexivity
                            | reflexivity | reflexivity].
Qed.

Lemma removeTracker_step safe env id t s :
  (safe = true -> spares_placeholder (RemoveTracker id t) s = true) ->
  list_step safe (_uuid s) (_parentUuid s)
            (_trackers s, firstRealTrackerIndex s)
            (_trackers (state (removeTracker env id t s)),
             firstRealTrackerIndex (state (removeTracker env id t s))).
Proof.
  intros Hs. cbn [spares_placeholder] in Hs.
  destruct (hasEditAccess env s) as [[|]|] eqn:Hg;
    try (unfold removeTracker; rewrite Hg; apply step_none).
  destruct (find_first (fun t0 : UiTracker => String.eqb (Tracker.uuid (entity t0)) id)
                       (_trackers s)) as [x|] eqn:Hf.
  - rewrite (@removeTracker_found env id t s x Hg Hf). cbv zeta.
    destruct (find_first_nth _ _ Hf) as (Hge & Hn & _).
    set (i := findIndex _ (_trackers s)) in *.
    assert (Hstep : list_step safe (_uuid s) (_parentUuid s)
                      (_trackers s, firstRealTrackerIndex s)
                      (firstn (Z.to_nat i) (_trackers s) ++ skipn (S (Z.to_nat i)) (_trackers s),
                       if i <? firstRealTrackerIndex s
                       then firstRealTrackerIndex s - 1 else firstRealTrackerIndex s)).
    { replace i with (Z.of_nat (Z.to_nat i)) at 3 by lia.
      eapply step_remove; [exact Hn|].
      intros E. apply negb_true_iff. exact (Hs E). }
    repeat break_match; exact Hstep.
  - rewrite (@removeTracker_absent env id t s true Hg); [apply step_none|].
    unfold tracker_present. apply find_first_none, Hf.
Qed.

Lemma removeAura_step safe env id t s :
  (safe = true -> spares_placeholder (RemoveAura id t) s = true) ->
  list_step safe (_uuid s) (_parentUuid s)
            (_auras s, firstRealAuraIndex s)
            (_auras (state (removeAura env id t s)),
             firstRealAuraIndex (state (removeAura env id t s))).
Proof.
  intros Hs. cbn [spares_placeholder] in Hs.
  destruct (hasEditAccess env s) as [[|]|] eqn:Hg;
    try (unfold removeAura; rewrite Hg; apply step_none).
  destruct (find_first (fun a0 : UiAura => String.eqb (Aura.uuid (entity a0)) id)
                       (_auras s)) as [x|] eqn:Hf.
  - rewrite (@removeAura_found env id t s x Hg Hf). cbv zeta.
    destruct (find_first_nth _ _ Hf) as (Hge & Hn & _).
    set (i := findIndex _ (_auras s)) in *.
    assert (Hstep : list_step safe (_uuid s) (_parentUuid s)
                      (_auras s, firstRealAuraIndex s)
                      (firstn (Z.to_nat i) (_auras s) ++ skipn (S (Z.to_nat i)) (_auras s),
                       if i <? firstRealAuraIndex s
                       then firstRealAuraIndex s - 1 else firstRealAuraIndex s)).
    { replace i with (Z.of_nat (Z.to_nat i)) at 3 by lia.
      eapply step_remove; [exact Hn|].
      intros E. apply negb_true_iff. exact (Hs E). }
    repeat break_match; exact Hstep.
  - rewrite (@removeAura_absent env id t s true Hg); [apply step_none|].
    unfold aura_present. apply find_first_none, Hf.
Qed.

Lemma trackers_step safe env op s :
  is_mutation op = true ->
  (safe = true -> spares_placeholder op s = true) ->
  list_step safe (_uuid s) (_parentUuid s)
            (_trackers s, firstRealTrackerIndex s)
            (_trackers (state (run env op s)),
             firstRealTrackerIndex (state (run env op s))).
Proof.
  intros Hm Hs.
  destruct op; cbn [is_mutation tag] in Hm; try discriminate; cbn [run].
  8: apply pushTracker_step.
  8: apply updateTracker_step.
  8: apply removeTracker_step; exact Hs.
  all: unfold_mutations; cbn [toUiAuras map];
    repeat break_match; cbn; apply step_none.
Qed.

Lemma auras_step safe env op s :
  is_mutation op = true ->
  (safe = true -> spares_placeholder op s = true) ->
  list_step safe (_uuid s) (_parentUuid s)
            (_auras s, firstRealAuraIndex s)
            (_auras (state (run env op s)),
             firstRealAuraIndex (state (run env op s))).
Proof.
  intros Hm Hs.
  destruct op; cbn [is_mutation tag] in Hm; try discriminate; cbn [run].
  11: apply pushAura_step.
  11: apply updateAura_step.
  11: apply removeAura_step; exact Hs.
  all: unfold_mutations; cbn [toUiTrackers map];
    repeat break_match; cbn; apply step_none.
Qed.

(** ** Lists in two parts *)

Section Parts.
Context {A : Type}.
Variables phi psi : A -> Prop.
Implicit Types (l P R : list A) (x y : A) (i k n : nat).

Lemma Forall_firstn' k l (Q : A -> Prop) : Forall Q l -> Forall Q (firstn k l).
Proof.
  intros H. revert k. induction H; intros [|k]; cbn; constructor; auto.
Qed.

Lemma Forall_skipn' k l (Q : A -> Prop) : Forall Q l -> Forall Q (skipn k l).
Proof.
  intros H. revert k. induction H; intros [|k]; cbn; auto.
Qed.

Lemma Forall_set_nth i x l (Q : A -> Prop) :
  Forall Q l -> Q x -> Forall Q (set_nth i x l).
Proof.
  intros H Hx. revert i. induction H; intros [|i]; cbn; constructor; auto.
Qed.

Lemma set_nth_app_l i x P R :
  (i < List.length P)%nat -> set_nth i x (P ++ R) = set_nth i x P ++ R.
Proof.
  revert i. induction P as [|y P IH]; intros [|i]; cbn; intros H; try lia.
  - reflexivity.
  - f_equal. apply IH. lia.
Qed.

Lemma set_nth_app_r i x P R :
  (List.length P <= i)%nat ->
  set_nth i x (P ++ R) = P ++ set_nth (i - List.length P) x R.
Proof.
  revert i. induction P as [|y P IH]; intros i H; cbn.
  - rewrite Nat.sub_0_r. reflexivity.
  - destruct i as [|i]; cbn in *; [lia|]. f_equal. apply IH. lia.
Qed.

Lemma parts_nth l n i y :
  parts phi psi l n -> nth_error l i = Some y ->
  ((i < n)%nat /\ phi y) \/ ((n <= i)%nat /\ psi y).
Proof.
  intros (P & R & -> & <- & HP & HR) Hn.
  destruct (Nat.lt_ge_cases i (List.length P)) as [Hlt|Hge].
  - left. split; [assumption|].
    rewrite nth_error_app1 in Hn by assumption.
    rewrite Forall_forall in HP. eapply HP, nth_error_In, Hn.
  - right. split; [assumption|].
    rewrite nth_error_app2 in Hn by assumption.
    rewrite Forall_forall in HR. eapply HR, nth_error_In, Hn.
Qed.

Lemma parts_length l n : parts phi psi l n -> (n <= List.length l)%nat.
Proof.
  intros (P & R & -> & <- & _). rewrite length_app. lia.
Qed.

Lemma parts_insert_front l n k x :
  parts phi psi l n -> (k <= n)%nat -> phi x ->
  parts phi psi (firstn k l ++ x :: skipn k l) (S n).
Proof.
  intros (P & R & -> & <- & HP & HR) Hk Hx.
  exists (firstn k P ++ x :: skipn k P), R.
  rewrite firstn_app, skipn_app.
  replace (k - List.length P)%nat with 0%nat by lia. cbn [firstn skipn].
  rewrite app_nil_r, <- app_assoc. cbn [app].
  repeat split.
  - rewrite length_app. cbn [List.length]. rewrite length_firstn, length_skipn. lia.
  - apply Forall_app. split; [apply Forall_firstn', HP|].
    constructor; [assumption | apply Forall_skipn', HP].
  - assumption.
Qed.

Lemma parts_insert_back l n k x :
  parts phi psi l n -> (n <= k)%nat -> psi x ->
  parts phi psi (firstn k l ++ x :: skipn k l) n.
Proof.
  intros (P & R & -> & <- & HP & HR) Hk Hx.
  exists P, (firstn (k - List.length P) R ++ x :: skipn (k - List.length P) R).
  rewrite firstn_app, skipn_app.
  rewrite firstn_all2 by lia. rewrite skipn_all2 by lia. cbn [app].
  rewrite <- app_assoc.
  repeat split.
  - assumption.
  - apply Forall_app. split; [apply Forall_firstn', HR|].
    constructor; [assumption | apply Forall_skipn', HR].
Qed.

Lemma parts_set_nth l n i x y :
  parts phi psi l n -> nth_error l i = Some y ->
  (phi y -> phi x) -> (psi y -> psi x) ->
  parts phi psi (set_nth i x l) n.
Proof.
  intros (P & R & -> & <- & HP & HR) Hn Hphi Hpsi.
  destruct (Nat.lt_ge_cases i (List.length P)) as [Hlt|Hge].
  - exists (set_nth i x P), R. rewrite set_nth_app_l by assumption.
    rewrite nth_error_app1 in Hn by assumption.
    repeat split; [apply length_set_nth | | assumption].
    apply Forall_set_nth; [assumption|]. apply Hphi.
    rewrite Forall_forall in HP. eapply HP, nth_error_In, Hn.
  - exists P, (set_nth (i - List.length P) x R). rewrite set_nth_app_r by assumption.
    rewrite nth_error_app2 in Hn by assumption.
    repeat split; [assumption|].
    apply Forall_set_nth; [assumption|]. apply Hpsi.
    rewrite Forall_forall in HR. eapply HR, nth_error_In, Hn.
Qed.

Lemma parts_snoc l n x :
  parts phi psi l n -> psi x -> parts phi psi (l ++ [x]) n.
Proof.
  intros (P & R & -> & <- & HP & HR) Hx.
  exists P, (R ++ [x]). rewrite app_assoc.
  repeat split; [assumption|].
  apply Forall_app. split; [assumption | repeat constructor; assumption].
Qed.

Lemma parts_remove l n i :
  parts phi psi l n -> (i < List.length l)%nat ->
  parts phi psi (firstn i l ++ skipn (S i) l) (if (i <? n)%nat then n - 1 else n)%nat.
Proof.
  intros (P & R & -> & <- & HP & HR) Hi.
  rewrite firstn_app, skipn_app.
  destruct (i <? List.length P)%nat eqn:E.
  - apply Nat.ltb_lt in E.
    exists (firstn i P ++ skipn (S i) P), R.
    replace (i - List.length P)%nat with 0%nat by lia.
    replace (S i - List.length P)%nat with 0%nat by lia.
    change (firstn 0 R) with (@nil A). change (skipn 0 R) with R.
    rewrite app_nil_r, <- app_assoc.
    repeat split.
    + rewrite length_app, length_firstn, length_skipn. lia.
    + apply Forall_app. split; [apply Forall_firstn' | apply Forall_skipn']; assumption.
    + assumption.
  - apply Nat.ltb_ge in E.
    exists P, (firstn (i - List.length P) R ++ skipn (S i - List.length P) R).
    rewrite firstn_all2 by lia. rewrite skipn_all2 by lia. cbn [app].
    rewrite <- app_assoc.
    repeat split; [assumption|].
    apply Forall_app. split; [apply Forall_firstn' | apply Forall_skipn']; assumption.
Qed.
End Parts.

(** ** What a list step preserves *)

Section ListSteps.
Context {T : Type}.
Implicit Types (l : list (Ui T)) (c : Z) (x : Ui T) (p : Nullish string).

Lemma length_splice_insert l (k : Z) x :
  List.length (snd (splice l k 0 [x])) = S (List.length l).
Proof.
  unfold splice. cbv zeta. cbn [snd].
  set (len := Z.of_nat (List.length l)).
  set (k' := if k <? 0 then Z.max (len + k) 0 else Z.min k len).
  assert (Hk : 0 <= k' <= len) by (subst k' len; destruct (k <? 0) eqn:E; lia).
  replace (Z.min (Z.max 0 0) (len - k')) with 0 by lia.
  change (Z.to_nat 0) with 0%nat. cbn [skipn].
  rewrite length_app. cbn [app List.length].
  rewrite length_firstn, length_skipn. lia.
Qed.

Lemma length_remove_nth l (i : nat) :
  (i < List.length l)%nat ->
  List.length (firstn i l ++ skipn (S i) l) = (List.length l - 1)%nat.
Proof.
  intros H. rewrite length_app, length_firstn, length_skipn. lia.
Qed.

Lemma strict_eq_has_parent p s : strict_eq_string p s = true -> has_parent p = true.
Proof. destruct p; cbn; congruence. Qed.

Lemma filter_none (f : Ui T -> bool) l :
  Forall (fun t => f t = false) l -> filter f l = [].
Proof.
  induction 1 as [|y l Hy _ IH]; cbn; [reflexivity|]. rewrite Hy. exact IH.
Qed.

Lemma filter_all (f : Ui T -> bool) l :
  Forall (fun t => f t = true) l -> filter f l = l.
Proof.
  induction 1 as [|y l Hy _ IH]; cbn; [reflexivity|]. rewrite Hy, IH. reflexivity.
Qed.

Lemma in_range_step safe u p l c l' c' :
  list_step safe u p (l, c) (l', c') -> in_range p l c -> in_range p l' c'.
Proof.
  unfold in_range. intros Hs Hr Hp. specialize (Hr Hp).
  inversion Hs; subst; clear Hs.
  - assumption.
  - rewrite length_splice_insert. lia.
  - rewrite length_splice_insert. lia.
  - rewrite length_set_nth. assumption.
  - rewrite length_app, length_set_nth. cbn. lia.
  - assert (Hi : (i < List.length l)%nat) by (apply nth_error_Some; congruence).
    rewrite length_remove_nth by assumption.
    destruct (Z.of_nat i <? c) eqn:E;
      [apply Z.ltb_lt in E | apply Z.ltb_ge in E]; lia.
Qed.

Lemma trailing_promote l i found t2 ph :
  trailing l -> nth_error l i = Some found -> temporary found = true ->
  temporary t2 = false -> temporary ph = true ->
  trailing (set_nth i t2 l ++ [ph]).
Proof.
  intros [Hlen Hparts] Hn Hf H2 Hph.
  assert (Hi : (i < List.length l)%nat) by (apply nth_error_Some; congruence).
  destruct (parts_nth _ Hparts Hn) as [[_ Hc]|[Hge _]]; [congruence|].
  split; [rewrite length_app; cbn; lia|].
  rewrite length_app, length_set_nth. cbn [List.length].
  destruct Hparts as (P & R & -> & HP & HnP & HR).
  rewrite length_app in *.
  exists (P ++ set_nth (i - List.length P) t2 R), [ph].
  rewrite set_nth_app_r by lia.
  rewrite <- app_assoc. repeat split.
  - rewrite length_app, length_set_nth. lia.
  - apply Forall_app. split; [assumption|].
    destruct R as [|r [|r' R]]; cbn in *; try lia.
    replace (i - List.length P)%nat with 0%nat by lia. cbn.
    repeat constructor. assumption.
  - repeat constructor. assumption.
Qed.

Lemma trailing_step u p l c l' c' :
  list_step true u p (l, c) (l', c') ->
  trailing l -> before_placeholder p l c ->
  trailing l' /\ before_placeholder p l' c'.
Proof.
  intros Hs Ht Hb. pose proof Ht as [Hlen Hparts].
  inversion Hs; subst; clear Hs.
  - split; assumption.
  - rewrite splice_insert by lia. cbn [snd].
    replace (Z.to_nat (Z.of_nat (List.length l) - 1)) with (List.length l - 1)%nat by lia.
    assert (Hl : List.length (firstn (List.length l - 1) l ++ x :: skipn (List.length l - 1) l)
                 = S (List.length l)).
    { rewrite length_app. cbn [List.length]. rewrite length_firstn, length_skipn. lia. }
    split.
    + split; [lia|]. rewrite Hl.
      replace (S (List.length l) - 1)%nat with (S (List.length l - 1)) by lia.
      apply parts_insert_front; [assumption | lia | assumption].
    + intros Hp. specialize (Hb Hp). rewrite Hl. lia.
  - assert (Hp : has_parent p = true) by (eapply strict_eq_has_parent; eassumption).
    specialize (Hb Hp).
    rewrite splice_insert by lia. cbn [snd].
    assert (Hl : List.length (firstn (Z.to_nat c) l ++ x :: skipn (Z.to_nat c) l)
                 = S (List.length l)).
    { rewrite length_app. cbn [List.length]. rewrite length_firstn, length_skipn. lia. }
    split.
    + split; [lia|]. rewrite Hl.
      replace (S (List.length l) - 1)%nat with (S (List.length l - 1)) by lia.
      apply parts_insert_front; [assumption | lia | assumption].
    + intros _. rewrite Hl. lia.
  - split.
    + split; rewrite length_set_nth; [assumption|].
      eapply parts_set_nth; [eassumption | eassumption | congruence | congruence].
    + intros Hp. rewrite length_set_nth. auto.
  - split.
    + eapply trailing_promote; eassumption.
    + intros Hp. specialize (Hb Hp). rewrite length_app, length_set_nth. cbn. lia.
  - assert (Hi : (i < List.length l)%nat) by (apply nth_error_Some; congruence).
    match goal with H : true = true -> _ |- _ => specialize (H eq_refl); rename H into Hx end.
    match goal with H : nth_error _ _ = Some _ |- _ => rename H into Hnth end.
    destruct (parts_nth _ Hparts Hnth) as [[Hlt _]|[_ Hc]]; [|congruence].
    pose proof (@parts_remove _ _ _ _ _ i Hparts Hi) as Hrem.
    assert (E : (i <? List.length l - 1)%nat = true) by (apply Nat.ltb_lt; lia).
    rewrite E in Hrem.
    split.
    + split; rewrite length_remove_nth by assumption; [lia | exact Hrem].
    + intros Hp. specialize (Hb Hp). rewrite length_remove_nth by assumption.
      destruct (Z.of_nat i <? c) eqn:E';
        [apply Z.ltb_lt in E' | apply Z.ltb_ge in E']; lia.
Qed.

Lemma segmented_no_parent p l c :
  has_parent p = false -> segmented p l c -> c = 0.
Proof.
  intros Hp [Hc (P & R & _ & Hn & HP & _)].
  destruct P as [|y P]; [cbn in Hn; lia|].
  inversion HP as [|? ? Hy _]. apply strict_eq_has_parent in Hy. congruence.
Qed.

Lemma segmented_step u p l c l' c' :
  list_step true u p (l, c) (l', c') ->
  trailing l -> before_placeholder p l c -> parent_differs u p ->
  segmented p l c -> segmented p l' c'.
Proof.
  intros Hs [Hlen _] Hb Hd Hseg. pose proof Hseg as [Hc Hparts].
  inversion Hs; subst; clear Hs.
  - assumption.
  - rewrite splice_insert by lia. cbn [snd]. split; [assumption|].
    apply parts_insert_back; [assumption | | apply Hd; reflexivity].
    destruct (has_parent p) eqn:Hp.
    + specialize (Hb Hp). lia.
    + rewrite (segmented_no_parent Hp Hseg). lia.
  - assert (Hp : has_parent p = true) by (eapply strict_eq_has_parent; eassumption).
    specialize (Hb Hp).
    rewrite splice_insert by lia. cbn [snd]. split; [lia|].
    replace (Z.to_nat (c + 1)) with (S (Z.to_nat c)) by lia.
    apply parts_insert_front; [assumption | lia | assumption].
  - split; [assumption|].
    eapply parts_set_nth; [eassumption | eassumption | congruence | congruence].
  - split; [assumption|].
    apply parts_snoc; [|apply Hd; reflexivity].
    eapply parts_set_nth; [eassumption | eassumption | congruence | congruence].
  - assert (Hi : (i < List.length l)%nat) by (apply nth_error_Some; congruence).
    pose proof (@parts_remove _ _ _ _ _ i Hparts Hi) as Hrem.
    destruct (Z.of_nat i <? c) eqn:E; [apply Z.ltb_lt in E | apply Z.ltb_ge in E].
    + assert (E' : (i <? Z.to_nat c)%nat = true) by (apply Nat.ltb_lt; lia).
      rewrite E' in Hrem. split; [lia|].
      replace (Z.to_nat (c - 1)) with (Z.to_nat c - 1)%nat by lia. exact Hrem.
    + assert (E' : (i <? Z.to_nat c)%nat = false) by (apply Nat.ltb_ge; lia).
      rewrite E' in Hrem. split; [lia | exact Hrem].
Qed.

Lemma trailing_one_placeholder l : trailing l -> one_trailing_placeholder l.
Proof.
  intros [Hlen (P & R & -> & Hn & HP & HR)].
  rewrite length_app in *.
  destruct R as [|r [|r' R]]; cbn [List.length] in *; try lia.
  inversion HR as [|? ? Hr _]. split.
  - unfold count_temporary. rewrite filter_app, (filter_none _ HP).
    cbn. rewrite Hr. reflexivity.
  - unfold last_temporary. rewrite rev_app_distr. cbn. exact Hr.
Qed.

Lemma segmented_count p l c :
  segmented p l c ->
  c = Z.of_nat (List.length (filter (fun t => strict_eq_string p (shape t)) l)).
Proof.
  intros [Hc (P & R & -> & Hn & HP & HR)].
  rewrite filter_app, (filter_all _ HP), (filter_none _ HR), app_nil_r. lia.
Qed.
End ListSteps.

(** ** The lists that a selection builds *)

Section Selected.
Context {T : Type}.
Implicit Types (a b : list (Ui T)) (ph : Ui T) (p : Nullish string).

Lemma Forall_toUi (Q : Ui T -> Prop) (sh : string) (es : list T) :
  (forall e, Q (mkUi sh false e)) ->
  Forall Q (map (fun e => mkUi sh false e) es).
Proof.
  intros H. induction es; cbn; constructor; auto.
Qed.

Lemma selected_trailing a b ph :
  Forall (fun t => temporary t = false) a ->
  Forall (fun t => temporary t = false) b ->
  temporary ph = true ->
  trailing ((a ++ b) ++ [ph]).
Proof.
  intros Ha Hb Hph. split; [rewrite length_app; cbn; lia|].
  exists (a ++ b), [ph]. repeat split.
  - rewrite !length_app. cbn. lia.
  - apply Forall_app. split; assumption.
  - repeat constructor. assumption.
Qed.

Lemma selected_segmented p a b ph :
  Forall (fun t => strict_eq_string p (shape t) = true) a ->
  Forall (fun t => strict_eq_string p (shape t) = false) b ->
  strict_eq_string p (shape ph) = false ->
  segmented p ((a ++ b) ++ [ph]) (Z.of_nat (List.length a)).
Proof.
  intros Ha Hb Hph. split; [lia|].
  exists a, (b ++ [ph]). rewrite app_assoc. repeat split.
  - lia.
  - assumption.
  - apply Forall_app. split; [assumption | repeat constructor; assumption].
Qed.
End Selected.

Lemma setActiveShape_placeholders env sh s :
  placeholders_kept (state (setActiveShape env sh s)).
Proof.
  unfold placeholders_kept, setActiveShape, done. cbn [state _trackers _auras
    _parentUuid firstRealTrackerIndex firstRealAuraIndex].
  unfold toUiTrackers, toUiAuras, createEmptyTracker, createEmptyAura.
  split; (split; [apply selected_trailing;
                    [destruct (getCompositeParent _ _); [apply Forall_toUi|constructor]
                    | apply Forall_toUi | ]; reflexivity |]).
  all: unfold before_placeholder; destruct (getCompositeParent _ _); cbn; [|discriminate].
  all: intros _; rewrite !length_app; cbn; lia.
Qed.

Lemma strict_eq_value_refl u : strict_eq_string (Value u) u = true.
Proof. cbn. apply String.eqb_refl. Qed.

Lemma strict_eq_value_neq u v : u <> v -> strict_eq_string (Value u) v = false.
Proof. intros H. cbn. apply String.eqb_neq. assumption. Qed.

Lemma setActiveShape_cursors env sh s :
  clean_select env sh s -> cursors_kept (state (setActiveShape env sh s)).
Proof.
  unfold clean_select, cursors_kept, setActiveShape, done. cbn [state _trackers _auras
    _uuid _parentUuid firstRealTrackerIndex firstRealAuraIndex].
  unfold toUiTrackers, toUiAuras, createEmptyTracker, createEmptyAura.
  destruct (getCompositeParent _ _) as [par|]; cbn [optional_chain nullish_coalesce].
  - intros Hne. split; [|split].
    + intros us [= <-]. apply strict_eq_value_neq, Hne.
    + apply selected_segmented;
        [apply Forall_toUi; intros; apply strict_eq_value_refl
        | apply Forall_toUi; intros; apply strict_eq_value_neq, Hne
        | apply strict_eq_value_neq, Hne].
    + apply selected_segmented;
        [apply Forall_toUi; intros; apply strict_eq_value_refl
        | apply Forall_toUi; intros; apply strict_eq_value_neq, Hne
        | apply strict_eq_value_neq, Hne].
  - intros [-> ->]. split; [|split].
    + intros us _. reflexivity.
    + apply (@selected_segmented _ Null []); [constructor | | reflexivity].
      apply Forall_toUi. reflexivity.
    + apply (@selected_segmented _ Null []); [constructor | | reflexivity].
      apply Forall_toUi. reflexivity.
Qed.

Lemma placeholders_kept_step env op s :
  is_mutation op = true -> spares_placeholder op s = true ->
  placeholders_kept s -> placeholders_kept (state (run env op s)).
Proof.
  intros Hm Hs [[Ht Hbt] [Ha Hba]].
  destruct (mutation_keeps_selection env op s Hm) as [_ Hp].
  unfold placeholders_kept. rewrite Hp. split.
  - exact (trailing_step (@trackers_step true env op s Hm (fun _ => Hs)) Ht Hbt).
  - exact (trailing_step (@auras_step true env op s Hm (fun _ => Hs)) Ha Hba).
Qed.

Lemma cursors_kept_step env op s :
  is_mutation op = true -> spares_placeholder op s = true ->
  placeholders_kept s -> cursors_kept s -> cursors_kept (state (run env op s)).
Proof.
  intros Hm Hs [[Ht Hbt] [Ha Hba]] (Hd & Hst & Hsa).
  destruct (mutation_keeps_selection env op s Hm) as [Hu Hp].
  unfold cursors_kept. rewrite Hu, Hp. split; [assumption|]. split.
  - exact (segmented_step (@trackers_step true env op s Hm (fun _ => Hs)) Ht Hbt Hd Hst).
  - exact (segmented_step (@auras_step true env op s Hm (fun _ => Hs)) Ha Hba Hd Hsa).
Qed.

Lemma after_select_placeholders s : after_select s -> placeholders_kept s.
Proof.
  induction 1 as [env sh s | env op s _ IH Hm Hs].
  - apply setActiveShape_placeholders.
  - apply placeholders_kept_step; assumption.
Qed.

Lemma after_clean_select_invariants s :
  after_clean_select s -> placeholders_kept s /\ cursors_kept s.
Proof.
  induction 1 as [env sh s Hc | env op s _ [IHp IHc] Hm Hs].
  - split; [apply setActiveShape_placeholders | apply setActiveShape_cursors, Hc].
  - split; [apply placeholders_kept_step | apply cursors_kept_step]; assumption.
Qed.

Lemma reachable_cursors_in_range s : reachable s -> cursors_in_range s.
Proof.
  induction 1 as [|env op s _ [IHt IHa]].
  - split; intros H; discriminate H.
  - destruct (is_mutation op) eqn:Hm.
    + destruct (mutation_keeps_selection env op s Hm) as [_ Hp].
      unfold cursors_in_range. rewrite Hp. split.
      * refine (in_range_step (@trackers_step false env op s Hm _) IHt). discriminate.
      * refine (in_range_step (@auras_step false env op s Hm _) IHa). discriminate.
    + destruct op; try discriminate; cbn [run].
      * destruct (setActiveShape_placeholders env shape0 s) as [[_ Hbt] [_ Hba]].
        split; intros Hp; [specialize (Hbt Hp) | specialize (Hba Hp)]; lia.
      * split; intros Hp; discriminate Hp.
Qed.

(** ** Placeholders *)

(** C4, as the store has it: after [setActiveShape], and after every
    mutation that follows it, of any kind and with any sync tag, as long as
    no removal addresses a temporary entry, the tracker list and the aura
    list each hold exactly one temporary entry, and it is the last one. *)
Theorem placeholder_invariant (s : State) :
  after_select s ->
  one_trailing_placeholder (_trackers s) /\ one_trailing_placeholder (_auras s).
Proof.
  intros H. destruct (after_select_placeholders H) as [[Ht _] [Ha _]].
  split; apply trailing_one_placeholder; assumption.
Qed.

(** Select the child B, push a tracker of its own, fill in the empty row,
    and remove the pushed tracker. *)
Lemma placeholder_invariant_witness :
  one_trailing_placeholder
    (_trackers
       (run_all [(Fixture.env, PushTracker Fixture.T2 "B" SERVER);
                 (Fixture.env, UpdateTracker "new-0"
                                 (Tracker.mkPartial None None (Some "hp") (Some 5) None) SERVER);
                 (Fixture.env, RemoveTracker "T2" UI)]
                Fixture.selectB)).
Proof.
  refine (proj1 (placeholder_invariant _)).
  cbn [run_all].
  apply after_select_step; [|reflexivity|reflexivity].
  apply after_select_step; [|reflexivity|reflexivity].
  apply after_select_step; [|reflexivity|reflexivity].
  apply after_select_here.
Defined.

(** C4 as stated fails: a removal that addresses the placeholder takes it
    out of the list, and no temporary entry is left. *)
Lemma placeholder_counterexample :
  _trackers (state (run Fixture.env (RemoveTracker "new-0" SERVER) Fixture.selectA))
  = [mkUi "A" false Fixture.T1] /\
  ~ one_trailing_placeholder
      (_trackers (state (run Fixture.env (RemoveTracker "new-0" SERVER) Fixture.selectA))).
Proof.
  split; [reflexivity|].
  intros [H _]. vm_compute in H. discriminate H.
Qed.

(** ** Cursors *)

(** C5, as the store has it: after a selection that has a parent other than
    itself, or has none and starts from cursors at 0, and after every
    mutation that follows it, as long as no removal addresses a temporary
    entry, each cursor is the number of entries of its list whose [shape] is
    the parent's uuid. *)
Theorem cursor_consistency (s : State) :
  after_clean_select s ->
  firstRealTrackerIndex s = parent_entries s (_trackers s) /\
  firstRealAuraIndex s = parent_entries s (_auras s).
Proof.
  intros H. destruct (after_clean_select_invariants H) as [_ (_ & Ht & Ha)].
  split; apply segmented_count; assumption.
Qed.

(** Select the child B of P, push a tracker of the parent, remove the
    parent's first tracker. *)
Lemma cursor_consistency_witness :
  firstRealTrackerIndex
    (run_all [(Fixture.env, PushTracker Fixture.T2 "P" SERVER);
              (Fixture.env, RemoveTracker "PT1" UI)]
             Fixture.selectB)
  = parent_entries
      (run_all [(Fixture.env, PushTracker Fixture.T2 "P" SERVER);
                (Fixture.env, RemoveTracker "PT1" UI)]
               Fixture.selectB)
      (_trackers
         (run_all [(Fixture.env, PushTracker Fixture.T2 "P" SERVER);
                   (Fixture.env, RemoveTracker "PT1" UI)]
                  Fixture.selectB)).
Proof.
  refine (proj1 (cursor_consistency _)).
  cbn [run_all].
  apply after_clean_select_step; [|reflexivity|reflexivity].
  apply after_clean_select_step; [|reflexivity|reflexivity].
  apply after_clean_select_here.
  unfold clean_select. cbn. discriminate.
Defined.

(** C5 as stated fails: once the placeholder is removed, a tracker pushed
    to the selection lands in front of the parent's tracker, and removing
    it again moves the cursor to 0 while the parent's tracker is still
    there. *)
Lemma cursor_counterexample :
  clean_select Fixture.env Fixture.B initial /\
  _trackers
    (run_all [(Fixture.env, RemoveTracker "new-0" SERVER);
              (Fixture.env, PushTracker Fixture.T2 "B" SERVER);
              (Fixture.env, RemoveTracker "T2" SERVER)]
             Fixture.selectB)
  = [mkUi "P" false Fixture.PT1] /\
  firstRealTrackerIndex
    (run_all [(Fixture.env, RemoveTracker "new-0" SERVER);
              (Fixture.env, PushTracker Fixture.T2 "B" SERVER);
              (Fixture.env, RemoveTracker "T2" SERVER)]
             Fixture.selectB)
  = 0 /\
  firstRealTrackerIndex
    (run_all [(Fixture.env, RemoveTracker "new-0" SERVER);
              (Fixture.env, PushTracker Fixture.T2 "B" SERVER);
              (Fixture.env, RemoveTracker "T2" SERVER)]
             Fixture.selectB)
  <> parent_entries
       (run_all [(Fixture.env, RemoveTracker "new-0" SERVER);
                 (Fixture.env, PushTracker Fixture.T2 "B" SERVER);
                 (Fixture.env, RemoveTracker "T2" SERVER)]
                Fixture.selectB)
       (_trackers
          (run_all [(Fixture.env, RemoveTracker "new-0" SERVER);
                    (Fixture.env, PushTracker Fixture.T2 "B" SERVER);
                    (Fixture.env, RemoveTracker "T2" SERVER)]
                   Fixture.selectB)).
Proof.
  split; [|split; [|split]].
  - unfold clean_select. cbn. discriminate.
  - reflexivity.
  - reflexivity.
  - vm_compute. discriminate.
Qed.

(** ** Where a push lands *)

Lemma pushTracker_placement env tracker sh syncTo s :
  reachable s -> gate_passes env s = true ->
  (uuid_is s sh = true ->
   firstRealTrackerIndex (state (pushTracker env tracker sh syncTo s))
   = firstRealTrackerIndex s /\
   (forall init last, _trackers s = init ++ [last] ->
      _trackers (state (pushTracker env tracker sh syncTo s))
      = init ++ [mkUi sh false tracker; last]) /\
   (_trackers s = [] ->
      _trackers (state (pushTracker env tracker sh syncTo s)) = [mkUi sh false tracker])) /\
  (uuid_is s sh = false -> strict_eq_string (_parentUuid s) sh = true ->
   firstRealTrackerIndex (state (pushTracker env tracker sh syncTo s))
   = firstRealTrackerIndex s + 1 /\
   exists k, Z.of_nat k = firstRealTrackerIndex s /\
             (k <= List.length (_trackers s))%nat /\
             _trackers (state (pushTracker env tracker sh syncTo s))
             = firstn k (_trackers s) ++ mkUi sh false tracker :: skipn k (_trackers s)) /\
  (uuid_is s sh = false -> strict_eq_string (_parentUuid s) sh = false ->
   pushTracker env tracker sh syncTo s = done s).
Proof.
  intros R G. apply gate_passes_spec in G.
  destruct (reachable_cursors_in_range R) as [Hr _].
  unfold pushTracker. rewrite G. cbn [toUiTrackers map].
  split; [|split].
  - intros ->. rewrite state_forward. cbn [_trackers firstRealTrackerIndex set_trackers].
    split; [reflexivity|]. split.
    + intros init last ->. rewrite splice_before_last. reflexivity.
    + intros ->. reflexivity.
  - intros -> Hp. rewrite Hp, state_forward.
    cbn [_trackers firstRealTrackerIndex set_trackers].
    split; [reflexivity|].
    specialize (Hr (strict_eq_has_parent _ _ Hp)).
    exists (Z.to_nat (firstRealTrackerIndex s)).
    split; [apply Z2Nat.id, Hr|].
    split; [apply Nat2Z.inj_le; rewrite Z2Nat.id; apply Hr|].
    rewrite (splice_insert _ _ Hr). reflexivity.
  - intros -> ->. reflexivity.
Qed.

Lemma pushAura_placement env aura sh syncTo s :
  reachable s -> gate_passes env s = true ->
  (uuid_is s sh = true ->
   firstRealAuraIndex (state (pushAura env aura sh syncTo s))
   = firstRealAuraIndex s /\
   (forall init last, _auras s = init ++ [last] ->
      _auras (state (pushAura env aura sh syncTo s))
      = init ++ [mkUi sh false aura; last]) /\
   (_auras s = [] ->
      _auras (state (pushAura env aura sh syncTo s)) = [mkUi sh false aura])) /\
  (uuid_is s sh = false -> strict_eq_string (_parentUuid s) sh = true ->
   firstRealAuraIndex (state (pushAura env aura sh syncTo s))
   = firstRealAuraIndex s + 1 /\
   exists k, Z.of_nat k = firstRealAuraIndex s /\
             (k <= List.length (_auras s))%nat /\
             _auras (state (pushAura env aura sh syncTo s))
             = firstn k (_auras s) ++ mkUi sh false aura :: skipn k (_auras s)) /\
  (uuid_is s sh = false -> strict_eq_string (_parentUuid s) sh = false ->
   pushAura env aura sh syncTo s = done s).
Proof.
  intros R G. apply gate_passes_spec in G.
  destruct (reachable_cursors_in_range R) as [_ Hr].
  unfold pushAura. rewrite G. cbn [toUiAuras map].
  split; [|split].
  - intros ->. rewrite state_forward. cbn [_auras firstRealAuraIndex set_auras].
    split; [reflexivity|]. split.
    + intros init last ->. rewrite splice_before_last. reflexivity.
    + intros ->. reflexivity.
  - intros -> Hp. rewrite Hp, state_forward.
    cbn [_auras firstRealAuraIndex set_auras].
    split; [reflexivity|].
    specialize (Hr (strict_eq_has_parent _ _ Hp)).
    exists (Z.to_nat (firstRealAuraIndex s)).
    split; [apply Z2Nat.id, Hr|].
    split; [apply Nat2Z.inj_le; rewrite Z2Nat.id; apply Hr|].
    rewrite (splice_insert _ _ Hr). reflexivity.
  - intros -> ->. reflexivity.
Qed.









(** ** Promoting the placeholder *)

Lemma nth_error_set_nth {A : Type} (i : nat) (x y : A) (l r : list A) :
  nth_error l i = Some y -> nth_error (set_nth i x l ++ r) i = Some x.
Proof.
  revert i. induction l as [|z l IH]; intros [|i]; cbn; try discriminate.
  - reflexivity.
  - apply IH.
Qed.

Lemma updateTracker_promotes env id delta syncTo s found sh u :
  syncTo <> UI -> gate_passes env s = true -> _uuid s = Some u ->
  find_first (fun t : UiTracker => String.eqb (Tracker.uuid (entity t)) id) (_trackers s)
  = Some found ->
  temporary found = true ->
  UUIDMap_get (layerManager env) (shape found) = Some sh ->
  let promoted := clear_temporary (assign_tracker found delta) in
  let i := Z.to_nat (findIndex (fun t : UiTracker => String.eqb (Tracker.uuid (entity t)) id)
                               (_trackers s)) in
  let r := updateTracker env id delta syncTo s in
  calls r = [Gateway.mkCall sh (Gateway.pushTracker (entity promoted) SERVER)] /\
  threw r = false /\
  _trackers (state r)
  = set_nth i promoted (_trackers s) ++ [createEmptyTracker u (uuidv4 env 0)] /\
  nth_error (_trackers (state r)) i = Some promoted /\
  temporary promoted = false /\
  List.length (_trackers (state r)) = S (List.length (_trackers s)).
Proof.
  intros Hn Hg Hu Hf Ht Hsh. apply gate_passes_spec in Hg.
  apply SyncTo_eqb_neq in Hn.
  destruct (find_first_nth _ _ Hf) as (_ & Hnth & _).
  cbv zeta. unfold updateTracker.
  rewrite Hg, Hf. cbn [assign_tracker shape temporary].
  rewrite Hsh, Hn, Ht, Hu. cbn [call calls threw state _trackers set_trackers].
  repeat split.
  - eapply nth_error_set_nth, Hnth.
  - rewrite length_app, length_set_nth. cbn [List.length]. apply Nat.add_1_r.
Qed.

Lemma updateAura_promotes env id delta syncTo s found sh u :
  syncTo <> UI -> gate_passes env s = true -> _uuid s = Some u ->
  find_first (fun a : UiAura => String.eqb (Aura.uuid (entity a)) id) (_auras s)
  = Some found ->
  temporary found = true ->
  UUIDMap_get (layerManager env) (shape found) = Some sh ->
  let promoted := clear_temporary (assign_aura found delta) in
  let i := Z.to_nat (findIndex (fun a : UiAura => String.eqb (Aura.uuid (entity a)) id)
                               (_auras s)) in
  let r := updateAura env id delta syncTo s in
  calls r = [Gateway.mkCall sh (Gateway.pushAura (entity promoted) SERVER)] /\
  threw r = false /\
  _auras (state r)
  = set_nth i promoted (_auras s) ++ [createEmptyAura u (uuidv4 env 0)] /\
  nth_error (_auras (state r)) i = Some promoted /\
  temporary promoted = false /\
  List.length (_auras (state r)) = S (List.length (_auras s)).
Proof.
  intros Hn Hg Hu Hf Ht Hsh. apply gate_passes_spec in Hg.
  apply SyncTo_eqb_neq in Hn.
  destruct (find_first_nth _ _ Hf) as (_ & Hnth & _).
  cbv zeta. unfold updateAura.
  rewrite Hg, Hf. cbn [assign_aura shape temporary].
  rewrite Hsh, Hn, Ht, Hu. cbn [call calls threw state _auras set_auras].
  repeat split.
  - eapply nth_error_set_nth, Hnth.
  - rewrite length_app, length_set_nth. cbn [List.length]. apply Nat.add_1_r.
Qed.

(** C6, as the store has it: when [updateTracker] or [updateAura] has a tag
    other than [SyncTo.UI], the permission gate passes, the entry it finds
    is temporary, and the shape of that entry is registered in
    [layerManager.UUIDMap], then the entry stays where it is with the delta
    merged and [temporary] cleared, the gateway gets exactly one call, a
    push of that entry, and a fresh placeholder of the selection is
    appended to the list. *)
Theorem placeholder_promotion (env : Env) (syncTo : SyncTo) (s : State) (u : string) :
  syncTo <> UI -> gate_passes env s = true -> _uuid s = Some u ->
  (forall id delta found sh,
     find_first (fun t : UiTracker => String.eqb (Tracker.uuid (entity t)) id) (_trackers s)
     = Some found ->
     temporary found = true ->
     UUIDMap_get (layerManager env) (shape found) = Some sh ->
     let promoted := clear_temporary (assign_tracker found delta) in
     let i := Z.to_nat (findIndex (fun t : UiTracker => String.eqb (Tracker.uuid (entity t)) id)
                                  (_trackers s)) in
     let r := updateTracker env id delta syncTo s in
     calls r = [Gateway.mkCall sh (Gateway.pushTracker (entity promoted) SERVER)] /\
     threw r = false /\
     _trackers (state r)
     = set_nth i promoted (_trackers s) ++ [createEmptyTracker u (uuidv4 env 0)] /\
     nth_error (_trackers (state r)) i = Some promoted /\
     temporary promoted = false /\
     List.length (_trackers (state r)) = S (List.length (_trackers s))) /\
  (forall id delta found sh,
     find_first (fun a : UiAura => String.eqb (Aura.uuid (entity a)) id) (_auras s)
     = Some found ->
     temporary found = true ->
     UUIDMap_get (layerManager env) (shape found) = Some sh ->
     let promoted := clear_temporary (assign_aura found delta) in
     let i := Z.to_nat (findIndex (fun a : UiAura => String.eqb (Aura.uuid (entity a)) id)
                                  (_auras s)) in
     let r := updateAura env id delta syncTo s in
     calls r = [Gateway.mkCall sh (Gateway.pushAura (entity promoted) SERVER)] /\
     threw r = false /\
     _auras (state r)
     = set_nth i promoted (_auras s) ++ [createEmptyAura u (uuidv4 env 0)] /\
     nth_error (_auras (state r)) i = Some promoted /\
     temporary promoted = false /\
     List.length (_auras (state r)) = S (List.length (_auras s))).
Proof.
  intros Hn Hg Hu. split; intros id delta found sh Hf Ht Hsh.
  - exact (@updateTracker_promotes env id delta syncTo s found sh u Hn Hg Hu Hf Ht Hsh).
  - exact (@updateAura_promotes env id delta syncTo s found sh u Hn Hg Hu Hf Ht Hsh).
Qed.

(** The child B of P is selected, its list is [PT1, placeholder]; the
    empty row gets the value 5. *)
Lemma placeholder_promotion_witness :
  calls (updateTracker Fixture.env "new-0"
           (Tracker.mkPartial None None None (Some 5) None) SERVER Fixture.selectB)
  = [Gateway.mkCall Fixture.B
       (Gateway.pushTracker (Tracker.mk "new-0" false EmptyString 5 0) SERVER)] /\
  _trackers (state (updateTracker Fixture.env "new-0"
                      (Tracker.mkPartial None None None (Some 5) None) SERVER Fixture.selectB))
  = [mkUi "P" false Fixture.PT1;
     mkUi "B" false (Tracker.mk "new-0" false EmptyString 5 0);
     createEmptyTracker "B" "new-0"].
Proof.
  pose proof (proj1 (@placeholder_promotion Fixture.env SERVER Fixture.selectB "B"
                       ltac:(discriminate) eq_refl eq_refl)
                    "new-0" (Tracker.mkPartial None None None (Some 5) None)
                    (createEmptyTracker "B" "new-0") Fixture.B eq_refl eq_refl eq_refl)
    as (Hc & _ & Hl & _).
  split; [exact Hc | exact Hl].
Defined.

(** C6 as stated fails: the selected shape is no longer registered, and an
    edit of the placeholder merges the delta but promotes nothing: no call,
    no new placeholder, and the entry is still temporary. *)
Lemma placeholder_promotion_counterexample :
  SERVER <> UI /\
  gate_passes Fixture.env_unregistered Fixture.selectB = true /\
  find_first (fun t : UiTracker => String.eqb (Tracker.uuid (entity t)) "new-0")
             (_trackers Fixture.selectB)
  = Some (createEmptyTracker "B" "new-0") /\
  temporary (createEmptyTracker "B" "new-0") = true /\
  calls (updateTracker Fixture.env_unregistered "new-0"
           (Tracker.mkPartial None None None (Some 5) None) SERVER Fixture.selectB)
  = [] /\
  _trackers (state (updateTracker Fixture.env_unregistered "new-0"
                      (Tracker.mkPartial None None None (Some 5) None) SERVER Fixture.selectB))
  = [mkUi "P" false Fixture.PT1;
     mkUi "B" true (Tracker.mk "new-0" false EmptyString 5 0)].
Proof.
  repeat split. discriminate.
Qed.

(** ** Selecting *)

Lemma setActiveShape_lists env sh s :
  let parent := getCompositeParent (layerManager env) (Shape.uuid sh) in
  let pt := match parent with
            | Some p => toUiTrackers (Shape.getTrackers p) (Shape.uuid p)
            | None => []
            end in
  let pa := match parent with
            | Some p => toUiAuras (Shape.getAuras p) (Shape.uuid p)
            | None => []
            end in
  let s' := state (setActiveShape env sh s) in
  _trackers s' = pt ++ toUiTrackers (Shape.getTrackers sh) (Shape.uuid sh)
                    ++ [createEmptyTracker (Shape.uuid sh) (uuidv4 env 0)] /\
  _auras s' = pa ++ toUiAuras (Shape.getAuras sh) (Shape.uuid sh)
                 ++ [createEmptyAura (Shape.uuid sh) (uuidv4 env 1)] /\
  _access s' = Some (Shape.defaultAccess sh) /\
  _owners s' = Shape.owners sh /\
  (parent <> None ->
   firstRealTrackerIndex s' = Z.of_nat (List.length pt) /\
   firstRealAuraIndex s' = Z.of_nat (List.length pa)) /\
  (parent = None ->
   firstRealTrackerIndex s' = firstRealTrackerIndex s /\
   firstRealAuraIndex s' = firstRealAuraIndex s).
Proof.
  cbv zeta. unfold setActiveShape. cbn [state done _trackers _auras _access _owners
    firstRealTrackerIndex firstRealAuraIndex].
  rewrite <- !app_assoc.
  repeat split.
  - destruct (Shape.defaultAccess sh); reflexivity.
  - induction (Shape.owners sh) as [|[us [e m v]] l IH]; cbn; [reflexivity|].
    f_equal. exact IH.
  - destruct (getCompositeParent _ _); [reflexivity | congruence].
  - destruct (getCompositeParent _ _); [reflexivity | congruence].
  - rewrite H. reflexivity.
  - rewrite H. reflexivity.
Qed.

(** C9 at its failing input: the child B of P was selected, which set the
    tracker cursor to 1, and now A is selected, which has no parent.  The
    lists are built as described, no entry is the parent's, and the cursor
    is still 1. *)
Theorem select_keeps_stale_cursor :
  getCompositeParent (layerManager Fixture.env) (Shape.uuid Fixture.A) = None /\
  firstRealTrackerIndex Fixture.selectB = 1 /\
  _trackers (state (setActiveShape Fixture.env Fixture.A Fixture.selectB))
  = [mkUi "A" false Fixture.T1; createEmptyTracker "A" "new-0"] /\
  _parentUuid (state (setActiveShape Fixture.env Fixture.A Fixture.selectB)) = Null /\
  parent_entries (state (setActiveShape Fixture.env Fixture.A Fixture.selectB))
                 (_trackers (state (setActiveShape Fixture.env Fixture.A Fixture.selectB)))
  = 0 /\
  firstRealTrackerIndex (state (setActiveShape Fixture.env Fixture.A Fixture.selectB)) = 1.
Proof.
  repeat split.
Qed.

(** * Further properties of the store *)

(** ** Leaving and entering a selection *)

(** [clear] remembers the selection it leaves in [lastUuid], a following
    [setActiveShape] keeps that memory, and a second [clear] in a row
    overwrites it with nothing.  Selecting and clearing gives the initial
    state but for [lastUuid]. *)
Theorem clear_remembers_selection (env : Env) (sh : Shape.t) (s : State) :
  lastUuid (state (clear s)) = uuid s /\
  uuid (state (clear s)) = Undefined /\
  lastUuid (state (setActiveShape env sh (state (clear s)))) = uuid s /\
  lastUuid (state (clear (state (clear s)))) = Undefined /\
  state (clear (state (setActiveShape env sh s)))
  = mkState None Null (Some (Shape.uuid sh)) None [] [] 0 [] 0.
Proof.
  unfold lastUuid, uuid, clear, setActiveShape, done. cbn.
  repeat split.
Qed.

(** ** Getters *)

(** In a reachable state no getter throws: whenever something is selected
    the access record is there to be read. *)
Theorem getters_never_throw (env : Env) (s : State) :
  reachable s ->
  (exists b, hasEditAccess env s = Normal b) /\
  (exists b, hasDefaultEditAccess s = Normal b) /\
  (exists b, hasDefaultMovementAccess s = Normal b) /\
  (exists b, hasDefaultVisionAccess s = Normal b).
Proof.
  intros R. split; [exact (reachable_hasEditAccess env R)|].
  destruct (reachable_well_formed R) as [Ha _].
  unfold hasDefaultEditAccess, hasDefaultMovementAccess, hasDefaultVisionAccess.
  destruct (_uuid s); [|repeat split; eauto].
  destruct (_access s); [repeat split; eauto|].
  exfalso. apply Ha; congruence.
Qed.

Lemma getters_never_throw_witness :
  exists b, hasDefaultVisionAccess Fixture.selectA = Normal b.
Proof.
  refine (proj2 (proj2 (proj2 (getters_never_throw Fixture.env (s := Fixture.selectA) _)))).
  exact (reachable_step Fixture.env (SetActiveShape Fixture.A) reachable_initial).
Defined.

(** ** The order of the three rights *)

(** The three single-right setters keep a descriptor ordered: if edit
    implied movement and movement implied vision before, they do so after,
    whatever the argument, the tag and the outcome of the gate. *)
Theorem setters_keep_access_ordered (env : Env) (b : bool) (t : SyncTo) (s : State) :
  access_ordered s ->
  access_ordered (state (setDefaultEditAccess env b t s)) /\
  access_ordered (state (setDefaultMovementAccess env b t s)) /\
  access_ordered (state (setDefaultVisionAccess env b t s)).
Proof.
  unfold access_ordered. intros H.
  destruct (_access s) as [[e m v]|] eqn:E.
  - specialize (H _ eq_refl). unfold ordered in H. cbn in H.
    repeat split; intros a; unfold_mutations; rewrite ?E;
      repeat break_match; cbn; rewrite ?E; intros [= <-];
      unfold ordered; cbn; destruct e, m, v, b; cbn in *; congruence.
  - repeat split; intros a; unfold_mutations; rewrite ?E;
      repeat break_match; cbn; rewrite ?E; congruence.
Qed.

(** The player lowers movement on a shape whose three rights are set. *)
Lemma setters_keep_access_ordered_witness :
  access_ordered (state (setDefaultMovementAccess Fixture.env_player false SERVER Fixture.selectA)).
Proof.
  refine (proj1 (proj2 (setters_keep_access_ordered Fixture.env_player false SERVER
                          (s := Fixture.selectA) _))).
  intros a [= <-]. reflexivity.
Defined.

(** ** What is forwarded for the default access *)

(** A default-access mutation that calls the gateway calls
    [updateDefaultOwner] on the shape registered under the selected uuid,
    with the mutation's own tag and with the very descriptor that the store
    holds afterwards. *)
Theorem default_access_forwarded_as_stored (env : Env) (op : Op) (s : State)
        (c : Gateway.Call) :
  is_default_access_op op = true ->
  In c (calls (run env op s)) ->
  exists u a t,
    _uuid s = Some u /\
    UUIDMap_get (layerManager env) u = Some (Gateway.receiver c) /\
    tag op = Some t /\
    Gateway.method c = Gateway.updateDefaultOwner a t /\
    _access (state (run env op s)) = Some a.
Proof.
  intros Hop Hin.
  destruct op; try discriminate; cbn [tag]; unfold_mutations;
    repeat break_match; cbn in Hin; try contradiction;
    destruct Hin as [<-|[]]; cbn; eauto 10.
Qed.

Lemma default_access_forwarded_as_stored_witness :
  exists u a t,
    _uuid Fixture.selectA = Some u /\
    UUIDMap_get (layerManager Fixture.env) u = Some Fixture.A /\
    tag (SetDefaultVisionAccess false SHAPE) = Some t /\
    Gateway.updateDefaultOwner Fixture.none SHAPE = Gateway.updateDefaultOwner a t /\
    _access (state (run Fixture.env (SetDefaultVisionAccess false SHAPE) Fixture.selectA))
    = Some a.
Proof.
  refine (default_access_forwarded_as_stored Fixture.env (SetDefaultVisionAccess false SHAPE)
            Fixture.selectA
            (Gateway.mkCall Fixture.A (Gateway.updateDefaultOwner Fixture.none SHAPE)) _ _).
  - reflexivity.
  - left. reflexivity.
Defined.

(** ** Owners *)

Lemma hasEditAccess_more_owners env s o :
  hasEditAccess env s = Normal true ->
  hasEditAccess env (set_owners s (_owners s ++ [o])) = Normal true.
Proof.
  unfold hasEditAccess. cbn [_uuid _access _owners set_owners].
  repeat break_match; try congruence.
  intros [= H]. f_equal. unfold some in *. rewrite existsb_app.
  apply orb_true_iff in H. destruct H as [H|H]; rewrite H; cbn;
    rewrite ?orb_true_r; reflexivity.
Qed.

(** [removeOwner] that passes the gate removes every entry of the user, not
    only the first, and keeps every other entry. *)
Theorem removeOwner_removes_every_entry (env : Env) (u : string) (t : SyncTo) (s : State) :
  gate_passes env s = true ->
  owner_present (state (removeOwner env u t s)) u = false /\
  (forall o, In o (_owners (state (removeOwner env u t s)))
             <-> In o (_owners s) /\ user o <> u).
Proof.
  intros G. apply gate_passes_spec in G.
  destruct (hasEditAccess_selected _ _ G) as [k Hk].
  unfold removeOwner. rewrite Hk, G, state_forward.
  cbn [_owners set_owners]. split.
  - unfold owner_present. cbn [_owners set_owners].
    apply not_true_is_false. intros H. apply existsb_exists in H.
    destruct H as (o & Hin & Ho). apply filter_In in Hin. destruct Hin as [_ Hn].
    rewrite Ho in Hn. discriminate.
  - intros o. rewrite filter_In. split; intros [Hin H]; split; try assumption.
    + apply negb_true_iff, String.eqb_neq in H. assumption.
    + apply negb_true_iff, String.eqb_neq. assumption.
Qed.

(** Ann was added twice; one [removeOwner] removes both entries. *)
Lemma removeOwner_removes_every_entry_witness :
  owner_present
    (state (removeOwner Fixture.env "ann" UI
              (run_all [(Fixture.env, AddOwner (Fixture.ann Fixture.none) UI);
                        (Fixture.env, AddOwner Fixture.bob UI);
                        (Fixture.env, AddOwner (Fixture.ann Fixture.full) UI)]
                       Fixture.selectB)))
    "ann" = false.
Proof.
  refine (proj1 (@removeOwner_removes_every_entry Fixture.env "ann" UI _ _)).
  reflexivity.
Defined.

(** Adding an owner whose user is not yet in the list and removing that
    user again gives back the state as it was. *)
Theorem addOwner_removeOwner_round_trip (env : Env) (o : ShapeOwner) (t1 t2 : SyncTo)
        (s : State) :
  gate_passes env s = true ->
  owner_present s (user o) = false ->
  state (removeOwner env (user o) t2 (state (addOwner env o t1 s))) = s.
Proof.
  intros G Ha. apply gate_passes_spec in G.
  destruct (hasEditAccess_selected _ _ G) as [k Hk].
  unfold addOwner. rewrite Hk, G, state_forward.
  unfold removeOwner. cbn [_uuid set_owners]. rewrite Hk.
  rewrite (hasEditAccess_more_owners _ _ o G), state_forward.
  cbn [_owners set_owners].
  rewrite filter_app. unfold owner_present in Ha.
  rewrite (filter_absent _ _ Ha). cbn [filter].
  rewrite String.eqb_refl. cbn [negb]. rewrite app_nil_r.
  destruct s; reflexivity.
Qed.

Lemma addOwner_removeOwner_round_trip_witness :
  state (removeOwner Fixture.env "bob" SERVER
           (state (addOwner Fixture.env Fixture.bob SERVER Fixture.selectB)))
  = Fixture.selectB.
Proof.
  apply (@addOwner_removeOwner_round_trip Fixture.env Fixture.bob SERVER SERVER
           Fixture.selectB); reflexivity.
Defined.





(** ** Giving up one's own access *)

Lemma lowered_access_locks_out env s a a' :
  hasEditAccess env s = Normal true -> has_own_right env s = false ->
  _access s = Some a -> edit a' = false ->
  hasEditAccess env (set_access s (Some a')) = Normal false.
Proof.
  unfold hasEditAccess, has_own_right. cbn [_uuid _access _owners set_access].
  intros G Hr Ha He. rewrite Ha in G.
  destruct (_uuid s); [|discriminate].
  apply orb_false_iff in Hr. destruct Hr as [Hr Hs].
  apply orb_false_iff in Hr. destruct Hr as [Hd Hf].
  rewrite Hd, Hf, He, Hs. reflexivity.
Qed.

(** A viewer whose only right to edit comes from the default access of the
    selection (not the game master, not impersonating the selection, not an
    owner with edit) shuts themselves out by lowering edit, movement or
    vision: afterwards [hasEditAccess] is false, and every mutation they
    send is dropped. *)
Theorem lowering_default_access_locks_out (env : Env) (t : SyncTo) (s s' : State) :
  gate_passes env s = true ->
  has_own_right env s = false ->
  s' = state (setDefaultEditAccess env false t s) \/
  s' = state (setDefaultMovementAccess env false t s) \/
  s' = state (setDefaultVisionAccess env false t s) ->
  hasEditAccess env s' = Normal false /\
  (forall op, is_mutation op = true -> run env op s' = done s').
Proof.
  intros G Hr Hs'. apply gate_passes_spec in G.
  assert (Hl : hasEditAccess env s' = Normal false).
  { destruct (hasEditAccess_selected _ _ G) as [k Hk].
    destruct (_access s) as [a|] eqn:Ha.
    - destruct Hs' as [->|[->| ->]]; unfold_mutations; rewrite Hk, G, Ha;
        cbn [negb]; (repeat break_match); cbn [state];
        eapply lowered_access_locks_out; try eassumption; reflexivity.
    - exfalso. revert G. unfold hasEditAccess. rewrite Hk, Ha.
      unfold has_own_right in Hr. rewrite Hk in Hr.
      apply orb_false_iff in Hr. destruct Hr as [Hr _].
      apply orb_false_iff in Hr. destruct Hr as [Hd Hf].
      rewrite Hd, Hf. discriminate. }
  split; [exact Hl|].
  intros op Hm. apply denied_is_noop; [|exact Hl].
  unfold is_mutation in Hm. destruct (tag op); congruence.
Qed.

(** The player Ann can edit A through its default access only; she lowers
    vision and then tries to add herself as an owner. *)
Lemma lowering_default_access_locks_out_witness :
  run Fixture.env_player (AddOwner (Fixture.ann Fixture.full) SERVER)
      (state (setDefaultVisionAccess Fixture.env_player false SERVER Fixture.selectA))
  = done (state (setDefaultVisionAccess Fixture.env_player false SERVER Fixture.selectA)).
Proof.
  refine (proj2 (@lowering_default_access_locks_out Fixture.env_player SERVER
                   Fixture.selectA _ _ _ _) (AddOwner (Fixture.ann Fixture.full) SERVER) _).
  - reflexivity.
  - reflexivity.
  - right. right. reflexivity.
  - reflexivity.
Defined.

(** ** The tag and the local change *)

(** But for [updateTracker] and [updateAura], which promote a placeholder
    only on a tag other than [SyncTo.UI], the state a mutation leaves behind
    does not depend on its tag: the tag decides about forwarding only, and a
    mutation whose forward throws has made the same local change as its
    echo. *)
Theorem tag_decides_forwarding_only (env : Env) (op : Op) (t : SyncTo) (s : State) :
  is_entry_update op = false ->
  state (run env (with_tag t op) s) = state (run env op s).
Proof.
  destruct op; cbn [is_entry_update with_tag]; try discriminate; intros _;
    try reflexivity; cbn [run].
  1-7: unfold_mutations; repeat break_match; reflexivity.
  - unfold pushTracker. destruct (hasEditAccess env s) as [[|]|]; try reflexivity.
    cbn [toUiTrackers map]. repeat break_match; rewrite ?state_forward; reflexivity.
  - destruct (hasEditAccess env s) as [[|]|] eqn:G;
      try (unfold removeTracker; rewrite G; reflexivity).
    destruct (find_first (fun t0 : UiTracker => String.eqb (Tracker.uuid (entity t0)) tracker)
                         (_trackers s)) as [x|] eqn:Hf.
    + rewrite !(@removeTracker_found env tracker _ s x G Hf). cbv zeta.
      repeat break_match; reflexivity.
    + assert (Ha : tracker_present s tracker = false)
        by (apply find_first_none, Hf).
      rewrite !(@removeTracker_absent env tracker _ s true G Ha). reflexivity.
  - unfold pushAura. destruct (hasEditAccess env s) as [[|]|]; try reflexivity.
    cbn [toUiAuras map]. repeat break_match; rewrite ?state_forward; reflexivity.
  - destruct (hasEditAccess env s) as [[|]|] eqn:G;
      try (unfold removeAura; rewrite G; reflexivity).
    destruct (find_first (fun a0 : UiAura => String.eqb (Aura.uuid (entity a0)) aura)
                         (_auras s)) as [x|] eqn:Hf.
    + rewrite !(@removeAura_found env aura _ s x G Hf). cbv zeta.
      repeat break_match; reflexivity.
    + assert (Ha : aura_present s aura = false)
        by (apply find_first_none, Hf).
      rewrite !(@removeAura_absent env aura _ s true G Ha). reflexivity.
Qed.

(** The selection is not registered: adding an owner for the server throws,
    and the owner is in the list as if the request had been an echo. *)
Lemma tag_decides_forwarding_only_witness :
  threw (run Fixture.env_unregistered (AddOwner Fixture.bob SERVER) Fixture.selectB) = true /\
  state (run Fixture.env_unregistered (with_tag SERVER (AddOwner Fixture.bob UI)) Fixture.selectB)
  = state (run Fixture.env_unregistered (AddOwner Fixture.bob UI) Fixture.selectB).
Proof.
  split; [reflexivity|].
  apply tag_decides_forwarding_only. reflexivity.
Defined.

(** ** Which fields a mutation can change *)

(** A mutation never changes the selection, its parent or [lastUuid]; the
    tracker list and its cursor change only under a tracker mutation, the
    aura list and its cursor only under an aura mutation, the owners only
    under an owner mutation, and the default access only under a
    default-access mutation. *)
Theorem mutation_frame (env : Env) (op : Op) (s : State) :
  is_mutation op = true ->
  (_uuid (state (run env op s)) = _uuid s /\
   _parentUuid (state (run env op s)) = _parentUuid s /\
   _lastUuid (state (run env op s)) = _lastUuid s) /\
  (touches_trackers op = false ->
   _trackers (state (run env op s)) = _trackers s /\
   firstRealTrackerIndex (state (run env op s)) = firstRealTrackerIndex s) /\
  (touches_auras op = false ->
   _auras (state (run env op s)) = _auras s /\
   firstRealAuraIndex (state (run env op s)) = firstRealAuraIndex s) /\
  (touches_owners op = false -> _owners (state (run env op s)) = _owners s) /\
  (is_default_access_op op = false -> _access (state (run env op s)) = _access s).
Proof.
  destruct op; cbn [is_mutation tag]; try discriminate; intros _;
    cbn [touches_trackers touches_auras touches_owners is_default_access_op];
    unfold_mutations; cbn [toUiTrackers toUiAuras map];
    repeat break_match; cbn;
    repeat split; intros; try discriminate; congruence.
Qed.

Lemma mutation_frame_witness :
  _owners (state (run Fixture.env (RemoveTracker "PT1" SERVER) Fixture.selectB))
  = _owners Fixture.selectB.
Proof.
  refine (proj1 (proj2 (proj2 (proj2
            (@mutation_frame Fixture.env (RemoveTracker "PT1" SERVER) Fixture.selectB _)))) _);
    reflexivity.
Defined.

(** ** Inserting and removing in an array *)

Section InsertRemove.
Context {A : Type}.
Implicit Types (p q : A -> bool) (l : list A) (x y : A) (i k : nat).

Lemma find_first_removed_at q i x l :
  nth_error l i = Some x -> q x = false ->
  find_first q (removed_at i l) = find_first q l.
Proof.
  unfold removed_at. revert i. induction l as [|z l IH]; intros [|i]; cbn; try discriminate.
  - intros [= ->] Hx. rewrite Hx. reflexivity.
  - intros Hn Hx. destruct (q z); [reflexivity|]. apply IH; assumption.
Qed.

Lemma length_removed_at i x l :
  nth_error l i = Some x -> S (List.length (removed_at i l)) = List.length l.
Proof.
  unfold removed_at. revert i. induction l as [|z l IH]; intros [|i]; cbn; try discriminate.
  - reflexivity.
  - intros Hn. f_equal. apply IH, Hn.
Qed.

Lemma inserted_at_lookup p k x l :
  existsb p l = false -> p x = true -> (k <= List.length l)%nat ->
  find_first p (inserted_at k x l) = Some x /\
  findIndex p (inserted_at k x l) = Z.of_nat k.
Proof.
  unfold inserted_at. revert k. induction l as [|z l IH]; intros k Ha Hx Hk.
  - destruct k; cbn in *; [|lia]. rewrite Hx. split; reflexivity.
  - cbn in Ha. apply orb_false_iff in Ha. destruct Ha as [Hz Hl].
    destruct k as [|k]; cbn.
    + rewrite Hx. split; reflexivity.
    + rewrite Hz. cbn in Hk. destruct (IH k Hl Hx ltac:(lia)) as [F I].
      split; [exact F|]. rewrite I.
      destruct (Z.of_nat k <? 0) eqn:E; [apply Z.ltb_lt in E; lia | lia].
Qed.

Lemma removed_at_inserted_at k x l :
  (k <= List.length l)%nat -> removed_at k (inserted_at k x l) = l.
Proof.
  unfold removed_at, inserted_at. revert k.
  induction l as [|z l IH]; intros [|k] Hk; cbn in *; try lia; try reflexivity.
  f_equal. apply IH. lia.
Qed.

Lemma map_set_nth_same {B : Type} (f : A -> B) i x y l :
  nth_error l i = Some y -> f x = f y -> map f (set_nth i x l) = map f l.
Proof.
  revert i. induction l as [|z l IH]; intros [|i]; cbn; try discriminate.
  - intros [= ->] ->. reflexivity.
  - intros Hn Hf. f_equal. apply IH; assumption.
Qed.
End InsertRemove.

(** ** Removing an entry *)

Lemma findIndex_least {A : Type} (p : A -> bool) (l : list A) (j : nat) (y : A) :
  nth_error l j = Some y -> Z.of_nat j < findIndex p l -> p y = false.
Proof.
  revert j. induction l as [|z l IH]; intros [|j]; cbn [nth_error findIndex];
    try discriminate.
  - intros [= ->]. destruct (p y); [lia | reflexivity].
  - intros Hn. destruct (p z); [lia|].
    destruct (findIndex p l <? 0) eqn:E; [lia|].
    intros Hlt. apply (IH j); [exact Hn | lia].
Qed.

Lemma removeTracker_first env id t s found :
  gate_passes env s = true ->
  find_first (fun x : UiTracker => String.eqb (Tracker.uuid (entity x)) id) (_trackers s)
  = Some found ->
  nth_error (_trackers s)
            (Z.to_nat (findIndex (fun x : UiTracker => String.eqb (Tracker.uuid (entity x)) id)
                                 (_trackers s)))
  = Some found /\
  (forall j y,
     (j < Z.to_nat (findIndex (fun x : UiTracker => String.eqb (Tracker.uuid (entity x)) id)
                              (_trackers s)))%nat ->
     nth_error (_trackers s) j = Some y -> Tracker.uuid (entity y) <> id) /\
  state (removeTracker env id t s)
  = set_trackers s
      (removed_at (Z.to_nat (findIndex
                     (fun x : UiTracker => String.eqb (Tracker.uuid (entity x)) id)
                     (_trackers s)))
                  (_trackers s))
      (if findIndex (fun x : UiTracker => String.eqb (Tracker.uuid (entity x)) id)
                    (_trackers s) <? firstRealTrackerIndex s
       then firstRealTrackerIndex s - 1 else firstRealTrackerIndex s).
Proof.
  intros G Hf. apply gate_passes_spec in G.
  destruct (find_first_nth _ _ Hf) as (Hge & Hn & _).
  split; [exact Hn|]. split.
  - intros j y Hj Hy. apply String.eqb_neq.
    pose proof (@findIndex_least _
                  (fun x : UiTracker => String.eqb (Tracker.uuid (entity x)) id)
                  (_trackers s) j y Hy) as H.
    cbv beta in H. apply H. lia.
  - rewrite (@removeTracker_found env id t s found G Hf). cbv zeta.
    unfold removed_at. repeat break_match; reflexivity.
Qed.

Lemma removeAura_first env id t s found :
  gate_passes env s = true ->
  find_first (fun x : UiAura => String.eqb (Aura.uuid (entity x)) id) (_auras s)
  = Some found ->
  nth_error (_auras s)
            (Z.to_nat (findIndex (fun x : UiAura => String.eqb (Aura.uuid (entity x)) id)
                                 (_auras s)))
  = Some found /\
  (forall j y,
     (j < Z.to_nat (findIndex (fun x : UiAura => String.eqb (Aura.uuid (entity x)) id)
                              (_auras s)))%nat ->
     nth_error (_auras s) j = Some y -> Aura.uuid (entity y) <> id) /\
  state (removeAura env id t s)
  = set_auras s
      (removed_at (Z.to_nat (findIndex
                     (fun x : UiAura => String.eqb (Aura.uuid (entity x)) id)
                     (_auras s)))
                  (_auras s))
      (if findIndex (fun x : UiAura => String.eqb (Aura.uuid (entity x)) id)
                    (_auras s) <? firstRealAuraIndex s
       then firstRealAuraIndex s - 1 else firstRealAuraIndex s).
Proof.
  intros G Hf. apply gate_passes_spec in G.
  destruct (find_first_nth _ _ Hf) as (Hge & Hn & _).
  split; [exact Hn|]. split.
  - intros j y Hj Hy. apply String.eqb_neq.
    pose proof (@findIndex_least _
                  (fun x : UiAura => String.eqb (Aura.uuid (entity x)) id)
                  (_auras s) j y Hy) as H.
    cbv beta in H. apply H. lia.
  - rewrite (@removeAura_found env id t s found G Hf). cbv zeta.
    unfold removed_at. repeat break_match; reflexivity.
Qed.

Lemma removeTracker_otherwise env id t s :
  gate_passes env s = false \/ tracker_present s id = false ->
  state (removeTracker env id t s) = s.
Proof.
  unfold gate_passes. intros H.
  destruct (hasEditAccess env s) as [[|]|] eqn:G;
    try (unfold removeTracker; rewrite G; reflexivity).
  destruct H as [H|H]; [discriminate|].
  rewrite (@removeTracker_absent env id t s true G H). reflexivity.
Qed.

Lemma removeAura_otherwise env id t s :
  gate_passes env s = false \/ aura_present s id = false ->
  state (removeAura env id t s) = s.
Proof.
  unfold gate_passes. intros H.
  destruct (hasEditAccess env s) as [[|]|] eqn:G;
    try (unfold removeAura; rewrite G; reflexivity).
  destruct H as [H|H]; [discriminate|].
  rewrite (@removeAura_absent env id t s true G H). reflexivity.
Qed.

Lemma remove_lengths_and_lookups env id t s :
  (gate_passes env s = true -> tracker_present s id = true ->
   S (List.length (_trackers (state (removeTracker env id t s))))
   = List.length (_trackers s)) /\
  (gate_passes env s = true -> aura_present s id = true ->
   S (List.length (_auras (state (removeAura env id t s))))
   = List.length (_auras s)) /\
  (forall id', id' <> id ->
     find_first (fun x : UiTracker => String.eqb (Tracker.uuid (entity x)) id')
                (_trackers (state (removeTracker env id t s)))
     = find_first (fun x : UiTracker => String.eqb (Tracker.uuid (entity x)) id')
                  (_trackers s)) /\
  (forall id', id' <> id ->
     find_first (fun x : UiAura => String.eqb (Aura.uuid (entity x)) id')
                (_auras (state (removeAura env id t s)))
     = find_first (fun x : UiAura => String.eqb (Aura.uuid (entity x)) id')
                  (_auras s)).
Proof.
  split; [|split; [|split]].
  - intros G Hp. apply gate_passes_spec in G.
    destruct (find_first (fun x : UiTracker => String.eqb (Tracker.uuid (entity x)) id)
                         (_trackers s)) as [x|] eqn:Hf.
    + rewrite (@removeTracker_found env id t s x G Hf). cbv zeta.
      destruct (find_first_nth _ _ Hf) as (_ & Hn & _).
      repeat break_match; cbn [state done call _trackers set_trackers];
        (eapply length_removed_at; exact Hn).
    + apply find_first_none in Hf. unfold tracker_present in Hp. congruence.
  - intros G Hp. apply gate_passes_spec in G.
    destruct (find_first (fun x : UiAura => String.eqb (Aura.uuid (entity x)) id)
                         (_auras s)) as [x|] eqn:Hf.
    + rewrite (@removeAura_found env id t s x G Hf). cbv zeta.
      destruct (find_first_nth _ _ Hf) as (_ & Hn & _).
      repeat break_match; cbn [state done call _auras set_auras];
        (eapply length_removed_at; exact Hn).
    + apply find_first_none in Hf. unfold aura_present in Hp. congruence.
  - intros id' Hne.
    destruct (hasEditAccess env s) as [[|]|] eqn:G;
      try (unfold removeTracker; rewrite G; reflexivity).
    destruct (find_first (fun x : UiTracker => String.eqb (Tracker.uuid (entity x)) id)
                         (_trackers s)) as [x|] eqn:Hf.
    + rewrite (@removeTracker_found env id t s x G Hf). cbv zeta.
      destruct (find_first_nth _ _ Hf) as (_ & Hn & Hx).
      apply String.eqb_eq in Hx.
      assert (Hq : String.eqb (Tracker.uuid (entity x)) id' = false)
        by (apply String.eqb_neq; congruence).
      repeat break_match; cbn [state done call _trackers set_trackers];
        (eapply find_first_removed_at; [exact Hn | exact Hq]).
    + assert (Ha : tracker_present s id = false) by (apply find_first_none, Hf).
      rewrite (@removeTracker_absent env id t s true G Ha). reflexivity.
  - intros id' Hne.
    destruct (hasEditAccess env s) as [[|]|] eqn:G;
      try (unfold removeAura; rewrite G; reflexivity).
    destruct (find_first (fun x : UiAura => String.eqb (Aura.uuid (entity x)) id)
                         (_auras s)) as [x|] eqn:Hf.
    + rewrite (@removeAura_found env id t s x G Hf). cbv zeta.
      destruct (find_first_nth _ _ Hf) as (_ & Hn & Hx).
      apply String.eqb_eq in Hx.
      assert (Hq : String.eqb (Aura.uuid (entity x)) id' = false)
        by (apply String.eqb_neq; congruence).
      repeat break_match; cbn [state done call _auras set_auras];
        (eapply find_first_removed_at; [exact Hn | exact Hq]).
    + assert (Ha : aura_present s id = false) by (apply find_first_none, Hf).
      rewrite (@removeAura_absent env id t s true G Ha). reflexivity.
Qed.

(** [removeTracker] and [removeAura] take out exactly the first entry that
    carries the given uuid, when the gate passes and there is one: the list
    afterwards is the list before without the entry at the index of that
    first match (no earlier entry carries the uuid, later ones with the same
    uuid stay), the cursor goes down by one exactly when that index is
    before it, and nothing else of the state changes.  When the gate does
    not pass or no entry carries the uuid, the state stays as it is.  So
    the list gets shorter by one in the first case, and looking up any other
    uuid gives in every case what it gave before. *)
Theorem remove_takes_one_entry (env : Env) (id : string) (t : SyncTo) (s : State) :
  (gate_passes env s = true ->
   forall found,
     find_first (fun x : UiTracker => String.eqb (Tracker.uuid (entity x)) id) (_trackers s)
     = Some found ->
     nth_error (_trackers s)
               (Z.to_nat (findIndex
                  (fun x : UiTracker => String.eqb (Tracker.uuid (entity x)) id)
                  (_trackers s)))
     = Some found /\
     (forall j y,
        (j < Z.to_nat (findIndex
                (fun x : UiTracker => String.eqb (Tracker.uuid (entity x)) id)
                (_trackers s)))%nat ->
        nth_error (_trackers s) j = Some y -> Tracker.uuid (entity y) <> id) /\
     state (removeTracker env id t s)
     = set_trackers s
         (removed_at (Z.to_nat (findIndex
                        (fun x : UiTracker => String.eqb (Tracker.uuid (entity x)) id)
                        (_trackers s)))
                     (_trackers s))
         (if findIndex (fun x : UiTracker => String.eqb (Tracker.uuid (entity x)) id)
                       (_trackers s) <? firstRealTrackerIndex s
          then firstRealTrackerIndex s - 1 else firstRealTrackerIndex s)) /\
  (gate_passes env s = true ->
   forall found,
     find_first (fun x : UiAura => String.eqb (Aura.uuid (entity x)) id) (_auras s)
     = Some found ->
     nth_error (_auras s)
               (Z.to_nat (findIndex
                  (fun x : UiAura => String.eqb (Aura.uuid (entity x)) id)
                  (_auras s)))
     = Some found /\
     (forall j y,
        (j < Z.to_nat (findIndex
                (fun x : UiAura => String.eqb (Aura.uuid (entity x)) id)
                (_auras s)))%nat ->
        nth_error (_auras s) j = Some y -> Aura.uuid (entity y) <> id) /\
     state (removeAura env id t s)
     = set_auras s
         (removed_at (Z.to_nat (findIndex
                        (fun x : UiAura => String.eqb (Aura.uuid (entity x)) id)
                        (_auras s)))
                     (_auras s))
         (if findIndex (fun x : UiAura => String.eqb (Aura.uuid (entity x)) id)
                       (_auras s) <? firstRealAuraIndex s
          then firstRealAuraIndex s - 1 else firstRealAuraIndex s)) /\
  (gate_passes env s = false \/ tracker_present s id = false ->
   state (removeTracker env id t s) = s) /\
  (gate_passes env s = false \/ aura_present s id = false ->
   state (removeAura env id t s) = s) /\
  (gate_passes env s = true -> tracker_present s id = true ->
   S (List.length (_trackers (state (removeTracker env id t s))))
   = List.length (_trackers s)) /\
  (gate_passes env s = true -> aura_present s id = true ->
   S (List.length (_auras (state (removeAura env id t s))))
   = List.length (_auras s)) /\
  (forall id', id' <> id ->
     find_first (fun x : UiTracker => String.eqb (Tracker.uuid (entity x)) id')
                (_trackers (state (removeTracker env id t s)))
     = find_first (fun x : UiTracker => String.eqb (Tracker.uuid (entity x)) id')
                  (_trackers s)) /\
  (forall id', id' <> id ->
     find_first (fun x : UiAura => String.eqb (Aura.uuid (entity x)) id')
                (_auras (state (removeAura env id t s)))
     = find_first (fun x : UiAura => String.eqb (Aura.uuid (entity x)) id')
                  (_auras s)).
Proof.
  split; [intros G found Hf; exact (@removeTracker_first env id t s found G Hf)|].
  split; [intros G found Hf; exact (@removeAura_first env id t s found G Hf)|].
  split; [apply removeTracker_otherwise|].
  split; [apply removeAura_otherwise|].
  apply remove_lengths_and_lookups.
Qed.

(** A holds [T1, d, d, placeholder], two trackers with one uuid; removing
    that uuid takes the first of the two. *)
Lemma remove_takes_one_entry_witness :
  _trackers (state (removeTracker Fixture.env "d" SERVER Fixture.twins))
  = [mkUi "A" false Fixture.T1; mkUi "A" false Fixture.d2;
     createEmptyTracker "A" "new-0"].
Proof.
  rewrite (proj2 (proj2 (proj1 (remove_takes_one_entry Fixture.env "d" SERVER Fixture.twins)
                               eq_refl (mkUi "A" false Fixture.d1) eq_refl))).
  reflexivity.
Defined.

(** ** Pushing and removing again *)

Lemma hasEditAccess_set_trackers env s l c :
  hasEditAccess env (set_trackers s l c) = hasEditAccess env s.
Proof. reflexivity. Qed.

Lemma hasEditAccess_set_auras env s l c :
  hasEditAccess env (set_auras s l c) = hasEditAccess env s.
Proof. reflexivity. Qed.

Lemma cursor_before_placeholder {T : Type} p (l : list (Ui T)) c :
  trailing l -> before_placeholder p l c -> segmented p l c ->
  0 <= c <= Z.of_nat (List.length l) - 1.
Proof.
  intros [Hlen _] Hb Hs. destruct (has_parent p) eqn:Hp.
  - exact (Hb Hp).
  - rewrite (segmented_no_parent Hp Hs). lia.
Qed.

Lemma pushTracker_removeTracker env x sh t1 t2 s :
  after_clean_select s -> gate_passes env s = true ->
  uuid_is s sh || strict_eq_string (_parentUuid s) sh = true ->
  tracker_present s (Tracker.uuid x) = false ->
  state (removeTracker env (Tracker.uuid x) t2 (state (pushTracker env x sh t1 s))) = s.
Proof.
  intros Hsel G Hrel Habs. apply gate_passes_spec in G.
  destruct (after_clean_select_invariants Hsel) as [[[Ht Hb] _] (_ & Hseg & _)].
  pose proof (cursor_before_placeholder Ht Hb Hseg) as Hc.
  set (ux := mkUi sh false x).
  set (p := fun t : UiTracker => String.eqb (Tracker.uuid (entity t)) (Tracker.uuid x)).
  assert (Hpx : p ux = true) by apply String.eqb_refl.
  assert (Hstep : exists k c',
             (k <= List.length (_trackers s))%nat /\
             state (pushTracker env x sh t1 s)
             = set_trackers s (inserted_at k ux (_trackers s)) c' /\
             (if Z.of_nat k <? c' then c' - 1 else c') = firstRealTrackerIndex s).
  { unfold pushTracker. rewrite G. cbn [toUiTrackers map].
    destruct (uuid_is s sh) eqn:Hu.
    - rewrite state_forward.
      exists (Z.to_nat (Z.of_nat (List.length (_trackers s)) - 1)), (firstRealTrackerIndex s).
      split; [ulia|]. split.
      + rewrite splice_insert by ulia. reflexivity.
      + destruct (_ <? _) eqn:E; [apply Z.ltb_lt in E; ulia | reflexivity].
    - cbn [orb] in Hrel. rewrite Hrel, state_forward.
      exists (Z.to_nat (firstRealTrackerIndex s)), (firstRealTrackerIndex s + 1).
      split; [ulia|]. split.
      + rewrite splice_insert by ulia. reflexivity.
      + destruct (_ <? _) eqn:E; [ulia | apply Z.ltb_ge in E; ulia]. }
  destruct Hstep as (k & c' & Hk & -> & Hcur).
  destruct (@inserted_at_lookup _ p k ux (_trackers s) Habs Hpx Hk) as [Hfind Hidx].
  rewrite (@removeTracker_found env (Tracker.uuid x) t2
             (set_trackers s (inserted_at k ux (_trackers s)) c') ux G Hfind). cbv zeta.
  cbn [_trackers firstRealTrackerIndex set_trackers].
  unfold p in Hidx. unfold UiTracker, UiAura in *. rewrite Hidx, Nat2Z.id, Hcur.
  change (firstn k (inserted_at k ux (_trackers s)) ++ skipn (S k) (inserted_at k ux (_trackers s)))
    with (removed_at k (inserted_at k ux (_trackers s))).
  rewrite (@removed_at_inserted_at _ k ux _ Hk).
  repeat break_match; destruct s; reflexivity.
Qed.

Lemma pushAura_removeAura env x sh t1 t2 s :
  after_clean_select s -> gate_passes env s = true ->
  uuid_is s sh || strict_eq_string (_parentUuid s) sh = true ->
  aura_present s (Aura.uuid x) = false ->
  state (removeAura env (Aura.uuid x) t2 (state (pushAura env x sh t1 s))) = s.
Proof.
  intros Hsel G Hrel Habs. apply gate_passes_spec in G.
  destruct (after_clean_select_invariants Hsel) as [[_ [Ht Hb]] (_ & _ & Hseg)].
  pose proof (cursor_before_placeholder Ht Hb Hseg) as Hc.
  set (ux := mkUi sh false x).
  set (p := fun t : UiAura => String.eqb (Aura.uuid (entity t)) (Aura.uuid x)).
  assert (Hpx : p ux = true) by apply String.eqb_refl.
  assert (Hstep : exists k c',
             (k <= List.length (_auras s))%nat /\
             state (pushAura env x sh t1 s)
             = set_auras s (inserted_at k ux (_auras s)) c' /\
             (if Z.of_nat k <? c' then c' - 1 else c') = firstRealAuraIndex s).
  { unfold pushAura. rewrite G. cbn [toUiAuras map].
    destruct (uuid_is s sh) eqn:Hu.
    - rewrite state_forward.
      exists (Z.to_nat (Z.of_nat (List.length (_auras s)) - 1)), (firstRealAuraIndex s).
      split; [ulia|]. split.
      + rewrite splice_insert by ulia. reflexivity.
      + destruct (_ <? _) eqn:E; [apply Z.ltb_lt in E; ulia | reflexivity].
    - cbn [orb] in Hrel. rewrite Hrel, state_forward.
      exists (Z.to_nat (firstRealAuraIndex s)), (firstRealAuraIndex s + 1).
      split; [ulia|]. split.
      + rewrite splice_insert by ulia. reflexivity.
      + destruct (_ <? _) eqn:E; [ulia | apply Z.ltb_ge in E; ulia]. }
  destruct Hstep as (k & c' & Hk & -> & Hcur).
  destruct (@inserted_at_lookup _ p k ux (_auras s) Habs Hpx Hk) as [Hfind Hidx].
  rewrite (@removeAura_found env (Aura.uuid x) t2
             (set_auras s (inserted_at k ux (_auras s)) c') ux G Hfind). cbv zeta.
  cbn [_auras firstRealAuraIndex set_auras].
  unfold p in Hidx. unfold UiTracker, UiAura in *. rewrite Hidx, Nat2Z.id, Hcur.
  change (firstn k (inserted_at k ux (_auras s)) ++ skipn (S k) (inserted_at k ux (_auras s)))
    with (removed_at k (inserted_at k ux (_auras s))).
  rewrite (@removed_at_inserted_at _ k ux _ Hk).
  repeat break_match; destruct s; reflexivity.
Qed.

(** After a selection (with a parent other than itself, or none and cursors
    at 0) and mutations that spare the placeholders: pushing a tracker or an
    aura whose uuid is not in the list, for the selection or for its parent,
    and removing it again by its uuid gives back the whole state, list order
    and cursor included. *)
Theorem push_remove_round_trip (env : Env) (sh : string) (t1 t2 : SyncTo) (s : State) :
  after_clean_select s -> gate_passes env s = true ->
  uuid_is s sh || strict_eq_string (_parentUuid s) sh = true ->
  (forall x : Tracker.t,
     tracker_present s (Tracker.uuid x) = false ->
     state (removeTracker env (Tracker.uuid x) t2 (state (pushTracker env x sh t1 s))) = s) /\
  (forall x : Aura.t,
     aura_present s (Aura.uuid x) = false ->
     state (removeAura env (Aura.uuid x) t2 (state (pushAura env x sh t1 s))) = s).
Proof.
  intros Hsel G Hrel. split; intros x Ha.
  - apply pushTracker_removeTracker; assumption.
  - apply pushAura_removeAura; assumption.
Qed.

(** B is selected, a tracker is pushed to its parent P and removed again. *)
Lemma push_remove_round_trip_witness :
  state (removeTracker Fixture.env "T2" UI
           (state (pushTracker Fixture.env Fixture.T2 "P" SERVER Fixture.selectB)))
  = Fixture.selectB.
Proof.
  refine (proj1 (@push_remove_round_trip Fixture.env "P" SERVER UI Fixture.selectB _ _ _)
                Fixture.T2 _).
  - apply after_clean_select_here. unfold clean_select. cbn. discriminate.
  - reflexivity.
  - reflexivity.
  - reflexivity.
Defined.

(** ** Updating an entry *)

Lemma nth_error_set_nth_here {A : Type} (i : nat) (x y : A) (l : list A) :
  nth_error l i = Some y -> nth_error (set_nth i x l) i = Some x.
Proof.
  intros H. rewrite <- (app_nil_r (set_nth i x l)). eapply nth_error_set_nth, H.
Qed.

Lemma updateTracker_echo env id delta s :
  map (@shape _) (_trackers (state (updateTracker env id delta UI s)))
  = map (@shape _) (_trackers s) /\
  map (@temporary _) (_trackers (state (updateTracker env id delta UI s)))
  = map (@temporary _) (_trackers s) /\
  firstRealTrackerIndex (state (updateTracker env id delta UI s)) = firstRealTrackerIndex s /\
  calls (updateTracker env id delta UI s) = [] /\
  (gate_passes env s = true ->
   forall found,
     find_first (fun t : UiTracker => String.eqb (Tracker.uuid (entity t)) id) (_trackers s)
     = Some found ->
     nth_error (_trackers (state (updateTracker env id delta UI s)))
               (Z.to_nat (findIndex (fun t : UiTracker => String.eqb (Tracker.uuid (entity t)) id)
                                    (_trackers s)))
     = Some (assign_tracker found delta)).
Proof.
  unfold updateTracker, gate_passes.
  destruct (hasEditAccess env s) as [[|]|]; cbn [state done throw calls];
    try (repeat split; discriminate).
  destruct (find_first _ (_trackers s)) as [found|] eqn:Hf;
    [|cbn [state done calls]; repeat split; discriminate].
  destruct (find_first_nth _ _ Hf) as (_ & Hn & _).
  cbn [SyncTo_eqb assign_tracker shape temporary].
  destruct (UUIDMap_get (layerManager env) (shape found));
    cbn [state done calls _trackers firstRealTrackerIndex set_trackers].
  all: split; [eapply map_set_nth_same; [exact Hn | reflexivity]|].
  all: split; [eapply map_set_nth_same; [exact Hn | reflexivity]|].
  all: split; [reflexivity|]. all: split; [reflexivity|].
  all: intros _ f [= <-]; eapply nth_error_set_nth_here, Hn.
Qed.

Lemma updateAura_echo env id delta s :
  map (@shape _) (_auras (state (updateAura env id delta UI s)))
  = map (@shape _) (_auras s) /\
  map (@temporary _) (_auras (state (updateAura env id delta UI s)))
  = map (@temporary _) (_auras s) /\
  firstRealAuraIndex (state (updateAura env id delta UI s)) = firstRealAuraIndex s /\
  calls (updateAura env id delta UI s) = [] /\
  (gate_passes env s = true ->
   forall found,
     find_first (fun a : UiAura => String.eqb (Aura.uuid (entity a)) id) (_auras s)
     = Some found ->
     nth_error (_auras (state (updateAura env id delta UI s)))
               (Z.to_nat (findIndex (fun a : UiAura => String.eqb (Aura.uuid (entity a)) id)
                                    (_auras s)))
     = Some (assign_aura found delta)).
Proof.
  unfold updateAura, gate_passes.
  destruct (hasEditAccess env s) as [[|]|]; cbn [state done throw calls];
    try (repeat split; discriminate).
  destruct (find_first _ (_auras s)) as [found|] eqn:Hf;
    [|cbn [state done calls]; repeat split; discriminate].
  destruct (find_first_nth _ _ Hf) as (_ & Hn & _).
  cbn [SyncTo_eqb assign_aura shape temporary].
  destruct (UUIDMap_get (layerManager env) (shape found));
    cbn [state done calls _auras firstRealAuraIndex set_auras].
  all: split; [eapply map_set_nth_same; [exact Hn | reflexivity]|].
  all: split; [eapply map_set_nth_same; [exact Hn | reflexivity]|].
  all: split; [reflexivity|]. all: split; [reflexivity|].
  all: intros _ f [= <-]; eapply nth_error_set_nth_here, Hn.
Qed.

Lemma updateTracker_echo_first env id delta s found :
  gate_passes env s = true ->
  find_first (fun x : UiTracker => String.eqb (Tracker.uuid (entity x)) id) (_trackers s)
  = Some found ->
  nth_error (_trackers s)
            (Z.to_nat (findIndex (fun x : UiTracker => String.eqb (Tracker.uuid (entity x)) id)
                                 (_trackers s)))
  = Some found /\
  (forall j y,
     (j < Z.to_nat (findIndex (fun x : UiTracker => String.eqb (Tracker.uuid (entity x)) id)
                              (_trackers s)))%nat ->
     nth_error (_trackers s) j = Some y -> Tracker.uuid (entity y) <> id) /\
  state (updateTracker env id delta UI s)
  = set_trackers s
      (set_nth (Z.to_nat (findIndex
                  (fun x : UiTracker => String.eqb (Tracker.uuid (entity x)) id)
                  (_trackers s)))
               (assign_tracker found delta) (_trackers s))
      (firstRealTrackerIndex s).
Proof.
  intros G Hf. apply gate_passes_spec in G.
  destruct (find_first_nth _ _ Hf) as (Hge & Hn & _).
  split; [exact Hn|]. split.
  - intros j y Hj Hy. apply String.eqb_neq.
    pose proof (@findIndex_least _
                  (fun x : UiTracker => String.eqb (Tracker.uuid (entity x)) id)
                  (_trackers s) j y Hy) as H.
    cbv beta in H. apply H. lia.
  - unfold updateTracker. rewrite G, Hf. cbn [SyncTo_eqb assign_tracker shape temporary].
    destruct (UUIDMap_get (layerManager env) (shape found)); reflexivity.
Qed.

Lemma updateAura_echo_first env id delta s found :
  gate_passes env s = true ->
  find_first (fun x : UiAura => String.eqb (Aura.uuid (entity x)) id) (_auras s)
  = Some found ->
  nth_error (_auras s)
            (Z.to_nat (findIndex (fun x : UiAura => String.eqb (Aura.uuid (entity x)) id)
                                 (_auras s)))
  = Some found /\
  (forall j y,
     (j < Z.to_nat (findIndex (fun x : UiAura => String.eqb (Aura.uuid (entity x)) id)
                              (_auras s)))%nat ->
     nth_error (_auras s) j = Some y -> Aura.uuid (entity y) <> id) /\
  state (updateAura env id delta UI s)
  = set_auras s
      (set_nth (Z.to_nat (findIndex
                  (fun x : UiAura => String.eqb (Aura.uuid (entity x)) id)
                  (_auras s)))
               (assign_aura found delta) (_auras s))
      (firstRealAuraIndex s).
Proof.
  intros G Hf. apply gate_passes_spec in G.
  destruct (find_first_nth _ _ Hf) as (Hge & Hn & _).
  split; [exact Hn|]. split.
  - intros j y Hj Hy. apply String.eqb_neq.
    pose proof (@findIndex_least _
                  (fun x : UiAura => String.eqb (Aura.uuid (entity x)) id)
                  (_auras s) j y Hy) as H.
    cbv beta in H. apply H. lia.
  - unfold updateAura. rewrite G, Hf. cbn [SyncTo_eqb assign_aura shape temporary].
    destruct (UUIDMap_get (layerManager env) (shape found)); reflexivity.
Qed.

Lemma updateTracker_otherwise env id delta t s :
  gate_passes env s = false \/ tracker_present s id = false ->
  state (updateTracker env id delta t s) = s.
Proof.
  unfold gate_passes, updateTracker. intros H.
  destruct (hasEditAccess env s) as [[|]|]; try reflexivity.
  destruct H as [H|H]; [discriminate|].
  unfold tracker_present in H. apply find_first_none in H. rewrite H. reflexivity.
Qed.

Lemma updateAura_otherwise env id delta t s :
  gate_passes env s = false \/ aura_present s id = false ->
  state (updateAura env id delta t s) = s.
Proof.
  unfold gate_passes, updateAura. intros H.
  destruct (hasEditAccess env s) as [[|]|]; try reflexivity.
  destruct H as [H|H]; [discriminate|].
  unfold aura_present in H. apply find_first_none in H. rewrite H. reflexivity.
Qed.

(** An [updateTracker] or [updateAura] tagged [SyncTo.UI] only merges the
    delta into the first entry with the given uuid: when the gate passes and
    there is such an entry, the state afterwards is the state before with
    that one entry, at the index of the first match, replaced by itself with
    the delta merged; otherwise the state stays as it is.  So no entry
    changes its shape or its temporary flag (the placeholder is never
    promoted by an echo), the cursor stays, and nothing is forwarded. *)
Theorem echo_update_only_merges (env : Env) (id : string) (s : State) :
  (forall delta : Tracker.partial,
     (gate_passes env s = true ->
      forall found,
        find_first (fun x : UiTracker => String.eqb (Tracker.uuid (entity x)) id) (_trackers s)
        = Some found ->
        nth_error (_trackers s)
                  (Z.to_nat (findIndex
                     (fun x : UiTracker => String.eqb (Tracker.uuid (entity x)) id)
                     (_trackers s)))
        = Some found /\
        (forall j y,
           (j < Z.to_nat (findIndex
                   (fun x : UiTracker => String.eqb (Tracker.uuid (entity x)) id)
                   (_trackers s)))%nat ->
           nth_error (_trackers s) j = Some y -> Tracker.uuid (entity y) <> id) /\
        state (updateTracker env id delta UI s)
        = set_trackers s
            (set_nth (Z.to_nat (findIndex
                        (fun x : UiTracker => String.eqb (Tracker.uuid (entity x)) id)
                        (_trackers s)))
                     (assign_tracker found delta) (_trackers s))
            (firstRealTrackerIndex s)) /\
     (gate_passes env s = false \/ tracker_present s id = false ->
      state (updateTracker env id delta UI s) = s) /\
     map (@shape _) (_trackers (state (updateTracker env id delta UI s)))
     = map (@shape _) (_trackers s) /\
     map (@temporary _) (_trackers (state (updateTracker env id delta UI s)))
     = map (@temporary _) (_trackers s) /\
     firstRealTrackerIndex (state (updateTracker env id delta UI s))
     = firstRealTrackerIndex s /\
     calls (updateTracker env id delta UI s) = [] /\
     (gate_passes env s = true ->
      forall found,
        find_first (fun t : UiTracker => String.eqb (Tracker.uuid (entity t)) id) (_trackers s)
        = Some found ->
        nth_error (_trackers (state (updateTracker env id delta UI s)))
                  (Z.to_nat (findIndex
                     (fun t : UiTracker => String.eqb (Tracker.uuid (entity t)) id)
                     (_trackers s)))
        = Some (assign_tracker found delta))) /\
  (forall delta : Aura.partial,
     (gate_passes env s = true ->
      forall found,
        find_first (fun x : UiAura => String.eqb (Aura.uuid (entity x)) id) (_auras s)
        = Some found ->
        nth_error (_auras s)
                  (Z.to_nat (findIndex
                     (fun x : UiAura => String.eqb (Aura.uuid (entity x)) id)
                     (_auras s)))
        = Some found /\
        (forall j y,
           (j < Z.to_nat (findIndex
                   (fun x : UiAura => String.eqb (Aura.uuid (entity x)) id)
                   (_auras s)))%nat ->
           nth_error (_auras s) j = Some y -> Aura.uuid (entity y) <> id) /\
        state (updateAura env id delta UI s)
        = set_auras s
            (set_nth (Z.to_nat (findIndex
                        (fun x : UiAura => String.eqb (Aura.uuid (entity x)) id)
                        (_auras s)))
                     (assign_aura found delta) (_auras s))
            (firstRealAuraIndex s)) /\
     (gate_passes env s = false \/ aura_present s id = false ->
      state (updateAura env id delta UI s) = s) /\
     map (@shape _) (_auras (state (updateAura env id delta UI s)))
     = map (@shape _) (_auras s) /\
     map (@temporary _) (_auras (state (updateAura env id delta UI s)))
     = map (@temporary _) (_auras s) /\
     firstRealAuraIndex (state (updateAura env id delta UI s)) = firstRealAuraIndex s /\
     calls (updateAura env id delta UI s) = [] /\
     (gate_passes env s = true ->
      forall found,
        find_first (fun a : UiAura => String.eqb (Aura.uuid (entity a)) id) (_auras s)
        = Some found ->
        nth_error (_auras (state (updateAura env id delta UI s)))
                  (Z.to_nat (findIndex
                     (fun a : UiAura => String.eqb (Aura.uuid (entity a)) id)
                     (_auras s)))
        = Some (assign_aura found delta))).
Proof.
  split; intros delta.
  - split; [intros G found Hf;
            exact (@updateTracker_echo_first env id delta s found G Hf)|].
    split; [apply updateTracker_otherwise|]. apply updateTracker_echo.
  - split; [intros G found Hf;
            exact (@updateAura_echo_first env id delta s found G Hf)|].
    split; [apply updateAura_otherwise|]. apply updateAura_echo.
Qed.

(** A holds [T1, d, d, placeholder], two trackers with one uuid; the echo
    of an edit of that uuid changes the value of the first of the two and
    nothing else. *)
Lemma echo_update_only_merges_witness :
  _trackers (state (updateTracker Fixture.env "d"
                      (Tracker.mkPartial None None None (Some 9) None) UI Fixture.twins))
  = [mkUi "A" false Fixture.T1;
     mkUi "A" false (Tracker.mk "d" true "one" 9 1);
     mkUi "A" false Fixture.d2;
     createEmptyTracker "A" "new-0"].
Proof.
  rewrite (proj2 (proj2 (proj1 (proj1 (echo_update_only_merges Fixture.env "d" Fixture.twins)
                                      (Tracker.mkPartial None None None (Some 9) None))
                               eq_refl (mkUi "A" false Fixture.d1) eq_refl))).
  reflexivity.
Defined.

Lemma updateTracker_plain env id delta t s found sh :
  t <> UI -> gate_passes env s = true ->
  find_first (fun x : UiTracker => String.eqb (Tracker.uuid (entity x)) id) (_trackers s)
  = Some found ->
  temporary found = false ->
  UUIDMap_get (layerManager env) (shape found) = Some sh ->
  updateTracker env id delta t s
  = call (set_trackers s
            (set_nth (Z.to_nat (findIndex
                        (fun x : UiTracker => String.eqb (Tracker.uuid (entity x)) id)
                        (_trackers s)))
                     (assign_tracker found delta) (_trackers s))
            (firstRealTrackerIndex s))
         sh (Gateway.updateTracker id delta t).
Proof.
  intros Hn G Hf Ht Hsh. apply gate_passes_spec in G. apply SyncTo_eqb_neq in Hn.
  unfold updateTracker. rewrite G, Hf. cbn [assign_tracker shape temporary].
  rewrite Hsh, Hn, Ht. reflexivity.
Qed.

Lemma updateAura_plain env id delta t s found sh :
  t <> UI -> gate_passes env s = true ->
  find_first (fun x : UiAura => String.eqb (Aura.uuid (entity x)) id) (_auras s)
  = Some found ->
  temporary found = false ->
  UUIDMap_get (layerManager env) (shape found) = Some sh ->
  updateAura env id delta t s
  = call (set_auras s
            (set_nth (Z.to_nat (findIndex
                        (fun x : UiAura => String.eqb (Aura.uuid (entity x)) id)
                        (_auras s)))
                     (assign_aura found delta) (_auras s))
            (firstRealAuraIndex s))
         sh (Gateway.updateAura id delta t).
Proof.
  intros Hn G Hf Ht Hsh. apply gate_passes_spec in G. apply SyncTo_eqb_neq in Hn.
  unfold updateAura. rewrite G, Hf. cbn [assign_aura shape temporary].
  rewrite Hsh, Hn, Ht. reflexivity.
Qed.

(** An update of an entry that is not temporary, with a tag other than
    [SyncTo.UI], a passing gate and a registered shape: the gateway gets one
    [updateTracker] (resp. [updateAura]) with the uuid, the delta and the
    tag as they came in, on the shape the entry belongs to; the list keeps
    its length and its temporary flags, and no placeholder is added. *)
Theorem plain_update_forwarded (env : Env) (id : string) (t : SyncTo) (s : State)
        (sh : Shape.t) :
  t <> UI -> gate_passes env s = true ->
  (forall (delta : Tracker.partial) found,
     find_first (fun x : UiTracker => String.eqb (Tracker.uuid (entity x)) id) (_trackers s)
     = Some found ->
     temporary found = false ->
     UUIDMap_get (layerManager env) (shape found) = Some sh ->
     calls (updateTracker env id delta t s)
     = [Gateway.mkCall sh (Gateway.updateTracker id delta t)] /\
     threw (updateTracker env id delta t s) = false /\
     List.length (_trackers (state (updateTracker env id delta t s)))
     = List.length (_trackers s) /\
     map (@temporary _) (_trackers (state (updateTracker env id delta t s)))
     = map (@temporary _) (_trackers s)) /\
  (forall (delta : Aura.partial) found,
     find_first (fun x : UiAura => String.eqb (Aura.uuid (entity x)) id) (_auras s)
     = Some found ->
     temporary found = false ->
     UUIDMap_get (layerManager env) (shape found) = Some sh ->
     calls (updateAura env id delta t s)
     = [Gateway.mkCall sh (Gateway.updateAura id delta t)] /\
     threw (updateAura env id delta t s) = false /\
     List.length (_auras (state (updateAura env id delta t s)))
     = List.length (_auras s) /\
     map (@temporary _) (_auras (state (updateAura env id delta t s)))
     = map (@temporary _) (_auras s)).
Proof.
  intros Hn G. split; intros delta found Hf Ht Hsh.
  - rewrite (@updateTracker_plain env id delta t s found sh Hn G Hf Ht Hsh).
    destruct (find_first_nth _ _ Hf) as (_ & Hnth & _).
    cbn [call calls threw state _trackers set_trackers].
    repeat split; [apply length_set_nth|].
    eapply map_set_nth_same; [exact Hnth | reflexivity].
  - rewrite (@updateAura_plain env id delta t s found sh Hn G Hf Ht Hsh).
    destruct (find_first_nth _ _ Hf) as (_ & Hnth & _).
    cbn [call calls threw state _auras set_auras].
    repeat split; [apply length_set_nth|].
    eapply map_set_nth_same; [exact Hnth | reflexivity].
Qed.

(** The game master renames the parent's tracker while B is selected. *)
Lemma plain_update_forwarded_witness :
  calls (updateTracker Fixture.env "PT1"
           (Tracker.mkPartial None None (Some "shield") None None) SHAPE Fixture.selectB)
  = [Gateway.mkCall Fixture.P
       (Gateway.updateTracker "PT1" (Tracker.mkPartial None None (Some "shield") None None)
                              SHAPE)].
Proof.
  refine (proj1 (proj1 (@plain_update_forwarded Fixture.env "PT1" SHAPE Fixture.selectB
                          Fixture.P _ _)
                       (Tracker.mkPartial None None (Some "shield") None None)
                       (mkUi "P" false Fixture.PT1) _ _ _)).
  - discriminate.
  - reflexivity.
  - reflexivity.
  - reflexivity.
  - reflexivity.
Defined.

(** ** Cursor bounds *)

Lemma nonneg_step {T : Type} safe u p (l l' : list (Ui T)) c c' :
  list_step safe u p (l, c) (l', c') -> 0 <= c -> 0 <= c'.
Proof.
  intros Hs Hc. inversion Hs; subst; try assumption; try lia.
  destruct (Z.of_nat i <? c) eqn:E; [apply Z.ltb_lt in E; lia | assumption].
Qed.

Lemma reachable_cursors_nonneg s :
  reachable s -> 0 <= firstRealTrackerIndex s /\ 0 <= firstRealAuraIndex s.
Proof.
  induction 1 as [|env op s _ [IHt IHa]].
  - cbn. lia.
  - destruct (is_mutation op) eqn:Hm.
    + split.
      * refine (nonneg_step (@trackers_step false env op s Hm _) IHt). discriminate.
      * refine (nonneg_step (@auras_step false env op s Hm _) IHa). discriminate.
    + destruct op; try discriminate; cbn [run].
      * unfold setActiveShape, done.
        cbn [state firstRealTrackerIndex firstRealAuraIndex].
        destruct (getCompositeParent _ _); split; try assumption; apply Nat2Z.is_nonneg.
      * cbn. lia.
Qed.

(** In every reachable state both cursors are at least 0, and when the
    selection has a parent they are at most the length of their list: a
    parent's entry is always spliced in at an index of the list. *)
Theorem cursor_bounds (s : State) :
  reachable s ->
  0 <= firstRealTrackerIndex s /\ 0 <= firstRealAuraIndex s /\
  (has_parent (_parentUuid s) = true ->
   firstRealTrackerIndex s <= Z.of_nat (List.length (_trackers s)) /\
   firstRealAuraIndex s <= Z.of_nat (List.length (_auras s))).
Proof.
  intros R. destruct (reachable_cursors_nonneg R) as [Ht Ha].
  destruct (reachable_cursors_in_range R) as [Rt Ra].
  repeat split; try assumption; [apply (Rt H) | apply (Ra H)].
Qed.

Lemma cursor_bounds_witness :
  firstRealTrackerIndex
    (run_all [(Fixture.env, RemoveTracker "PT1" SERVER);
              (Fixture.env, RemoveTracker "new-0" SERVER)] Fixture.selectB)
  <= Z.of_nat (List.length
       (_trackers
          (run_all [(Fixture.env, RemoveTracker "PT1" SERVER);
                    (Fixture.env, RemoveTracker "new-0" SERVER)] Fixture.selectB))).
Proof.
  refine (proj1 (proj2 (proj2 (@cursor_bounds _ _)) _)).
  - cbn [run_all]. apply reachable_step, reachable_step.
    exact (reachable_step Fixture.env (SetActiveShape Fixture.B) reachable_initial).
  - reflexivity.
Defined.

(** ** Whom the store calls *)

Section Owned.
Context {T : Type}.
Implicit Types (l : list (Ui T)) (x : Ui T) (u : option string) (p : Nullish string).

Lemma strict_eq_value p v : strict_eq_string p v = true -> p = Value v.
Proof.
  destruct p; cbn; try discriminate. intros H. apply String.eqb_eq in H. congruence.
Qed.

Lemma Forall_splice_insert (Q : Ui T -> Prop) l (k : Z) x :
  Forall Q l -> Q x -> Forall Q (snd (splice l k 0 [x])).
Proof.
  intros Hl Hx. unfold splice. cbv zeta. cbn [snd].
  apply Forall_app. split; [apply Forall_firstn', Hl|].
  apply Forall_app. split; [repeat constructor; exact Hx|].
  apply Forall_skipn', Forall_skipn', Hl.
Qed.

Lemma owned_step safe u p l c l' c' :
  list_step safe u p (l, c) (l', c') -> owned_entries u p l -> owned_entries u p l'.
Proof.
  unfold owned_entries. intros Hs Ho. inversion Hs; subst; clear Hs.
  - assumption.
  - apply Forall_splice_insert; [assumption | left; reflexivity].
  - apply Forall_splice_insert; [assumption | right; apply strict_eq_value; assumption].
  - apply Forall_set_nth; [assumption|].
    match goal with H : shape _ = shape _ |- _ => rewrite H end.
    rewrite Forall_forall in Ho. eapply Ho, nth_error_In. eassumption.
  - apply Forall_app. split.
    + apply Forall_set_nth; [assumption|].
      match goal with H : shape _ = shape _ |- _ => rewrite H end.
      rewrite Forall_forall in Ho. eapply Ho, nth_error_In. eassumption.
    + constructor; [left; reflexivity | constructor].
  - apply Forall_app. split;
      [apply Forall_firstn'; assumption | exact (@Forall_skipn' _ (S i) _ _ Ho)].
Qed.
End Owned.

Lemma reachable_lists_owned s : reachable s -> lists_owned s.
Proof.
  induction 1 as [|env op s _ [IHt IHa]].
  - split; constructor.
  - destruct (is_mutation op) eqn:Hm.
    + destruct (mutation_keeps_selection env op s Hm) as [Hu Hp].
      unfold lists_owned. rewrite Hu, Hp. split.
      * refine (owned_step (@trackers_step false env op s Hm _) IHt). discriminate.
      * refine (owned_step (@auras_step false env op s Hm _) IHa). discriminate.
    + destruct op; try discriminate; cbn [run].
      * unfold lists_owned, owned_entries, setActiveShape, done.
        cbn [state _uuid _parentUuid _trackers _auras].
        unfold toUiTrackers, toUiAuras.
        destruct (getCompositeParent _ _) as [par|]; cbn [optional_chain nullish_coalesce];
          split; repeat (apply Forall_app; split);
          try (apply Forall_toUi; intros; cbn; auto);
          repeat constructor; cbn; auto.
      * split; constructor.
Qed.

(** In a reachable state every call of a mutation goes to a shape that
    [layerManager.UUIDMap] holds under the uuid of the selection or of its
    parent: the store never forwards to any other shape. *)
Theorem calls_stay_with_selection (env : Env) (op : Op) (s : State) (c : Gateway.Call) :
  reachable s ->
  In c (calls (run env op s)) ->
  exists k, UUIDMap_get (layerManager env) k = Some (Gateway.receiver c) /\
            (_uuid s = Some k \/ _parentUuid s = Value k).
Proof.
  intros R Hin. destruct (reachable_lists_owned R) as [Ot Oa].
  unfold owned_entries in Ot, Oa. rewrite Forall_forall in Ot, Oa.
  destruct op; cbn [run] in Hin.
  1-7: revert Hin; unfold_mutations; repeat break_match; cbn;
    try contradiction; intros [<-|[]]; cbn; eauto.
  - revert Hin. unfold pushTracker. destruct (hasEditAccess env s) as [[|]|];
      try contradiction. cbn [toUiTrackers map].
    destruct (uuid_is s shape0) eqn:Hu.
    + apply uuid_is_spec in Hu. unfold forward, call_on, call, done, throw.
      repeat break_match; cbn; try contradiction; intros [<-|[]]; cbn; eauto.
    + destruct (strict_eq_string (_parentUuid s) shape0) eqn:Hp; [|contradiction].
      apply strict_eq_value in Hp. unfold forward, call_on, call, done, throw.
      repeat break_match; cbn; try contradiction; intros [<-|[]]; cbn; eauto.
  - revert Hin. unfold updateTracker. destruct (hasEditAccess env s) as [[|]|];
      try contradiction.
    destruct (find_first _ (_trackers s)) as [found|] eqn:Hf; [|contradiction].
    destruct (find_first_nth _ _ Hf) as (_ & Hn & _).
    pose proof (Ot _ (nth_error_In _ _ Hn)) as Hown.
    cbn [assign_tracker shape temporary]. unfold call, done, throw.
    repeat break_match; cbn; try contradiction; intros [<-|[]]; cbn;
      exists (shape found); (split; [assumption|]);
      destruct Hown as [Hown|Hown]; auto; congruence.
  - destruct (hasEditAccess env s) as [[|]|] eqn:G;
      try (unfold removeTracker in Hin; rewrite G in Hin; contradiction).
    destruct (find_first (fun t0 : UiTracker => String.eqb (Tracker.uuid (entity t0)) tracker)
                         (_trackers s)) as [x|] eqn:Hf.
    + rewrite (@removeTracker_found env tracker syncTo s x G Hf) in Hin. cbv zeta in Hin.
      destruct (find_first_nth _ _ Hf) as (_ & Hn & _).
      pose proof (Ot _ (nth_error_In _ _ Hn)) as Hown.
      revert Hin. unfold call, done. repeat break_match; cbn; try contradiction;
        intros [<-|[]]; cbn; exists (shape x); (split; [assumption|]);
        destruct Hown as [Hown|Hown]; auto; congruence.
    + assert (Ha : tracker_present s tracker = false) by (apply find_first_none, Hf).
      rewrite (@removeTracker_absent env tracker syncTo s true G Ha) in Hin. contradiction.
  - revert Hin. unfold pushAura. destruct (hasEditAccess env s) as [[|]|];
      try contradiction. cbn [toUiAuras map].
    destruct (uuid_is s shape0) eqn:Hu.
    + apply uuid_is_spec in Hu. unfold forward, call_on, call, done, throw.
      repeat break_match; cbn; try contradiction; intros [<-|[]]; cbn; eauto.
    + destruct (strict_eq_string (_parentUuid s) shape0) eqn:Hp; [|contradiction].
      apply strict_eq_value in Hp. unfold forward, call_on, call, done, throw.
      repeat break_match; cbn; try contradiction; intros [<-|[]]; cbn; eauto.
  - revert Hin. unfold updateAura. destruct (hasEditAccess env s) as [[|]|];
      try contradiction.
    destruct (find_first _ (_auras s)) as [found|] eqn:Hf; [|contradiction].
    destruct (find_first_nth _ _ Hf) as (_ & Hn & _).
    pose proof (Oa _ (nth_error_In _ _ Hn)) as Hown.
    cbn [assign_aura shape temporary]. unfold call, done, throw.
    repeat break_match; cbn; try contradiction; intros [<-|[]]; cbn;
      exists (shape found); (split; [assumption|]);
      destruct Hown as [Hown|Hown]; auto; congruence.
  - destruct (hasEditAccess env s) as [[|]|] eqn:G;
      try (unfold removeAura in Hin; rewrite G in Hin; contradiction).
    destruct (find_first (fun a0 : UiAura => String.eqb (Aura.uuid (entity a0)) aura)
                         (_auras s)) as [x|] eqn:Hf.
    + rewrite (@removeAura_found env aura syncTo s x G Hf) in Hin. cbv zeta in Hin.
      destruct (find_first_nth _ _ Hf) as (_ & Hn & _).
      pose proof (Oa _ (nth_error_In _ _ Hn)) as Hown.
      revert Hin. unfold call, done. repeat break_match; cbn; try contradiction;
        intros [<-|[]]; cbn; exists (shape x); (split; [assumption|]);
        destruct Hown as [Hown|Hown]; auto; congruence.
    + assert (Ha : aura_present s aura = false) by (apply find_first_none, Hf).
      rewrite (@removeAura_absent env aura syncTo s true G Ha) in Hin. contradiction.
  - contradiction.
  - contradiction.
Qed.

(** B is selected and the tracker of its parent P is removed: the call goes
    to P. *)
Lemma calls_stay_with_selection_witness :
  exists k, UUIDMap_get (layerManager Fixture.env) k = Some Fixture.P /\
            (_uuid Fixture.selectB = Some k \/ _parentUuid Fixture.selectB = Value k).
Proof.
  refine (@calls_stay_with_selection Fixture.env (RemoveTracker "PT1" SERVER) Fixture.selectB
            (Gateway.mkCall Fixture.P (Gateway.removeTracker "PT1" SERVER)) _ _).
  - exact (reachable_step Fixture.env (SetActiveShape Fixture.B) reachable_initial).
  - left. reflexivity.
Defined.

(** ** When a mutation throws *)

Lemma SyncTo_eqb_false a b : SyncTo_eqb a b = false -> a <> b.
Proof. destruct a, b; cbn; congruence. Qed.

(** In a reachable state a mutation throws only in its forwarding step:
    its tag is not [SyncTo.UI], and the uuid it looks up without a test,
    the selection for the access and owner mutations and the payload's shape
    for a push, is not registered in [layerManager.UUIDMap]; no call has
    been made.  So echoes never throw, and neither do updates and removals
    of trackers and auras, [setActiveShape] and [clear]. *)
Theorem throws_only_when_unregistered (env : Env) (op : Op) (s : State) :
  reachable s ->
  threw (run env op s) = true ->
  exists t k,
    tag op = Some t /\ t <> UI /\
    forward_target op s = Some k /\ registered env k = false /\
    calls (run env op s) = [].
Proof.
  intros R. destruct (reachable_hasEditAccess env R) as [b Hb].
  destruct (reachable_well_formed R) as [Ha _].
  destruct op; cbn [run tag forward_target].
  1-7: unfold_mutations; unfold registered; rewrite ?Hb;
    repeat break_match; cbn; try discriminate; intros _;
    try (exfalso; apply Ha; congruence);
    do 2 eexists; repeat split; try reflexivity;
    try (apply SyncTo_eqb_false; eassumption); rewrite ?Heqo1, ?Heqo0; reflexivity.
  - unfold pushTracker, forward, call_on, call, done, throw, registered. rewrite Hb.
    cbn [toUiTrackers map].
    repeat break_match; cbn; try discriminate; intros _;
      do 2 eexists; repeat split;
      first [ reflexivity
            | apply SyncTo_eqb_false; eassumption
            | match goal with H : UUIDMap_get _ _ = None |- _ => rewrite H end;
              reflexivity ].
  - unfold updateTracker. rewrite Hb. destruct b; [|discriminate].
    destruct (hasEditAccess_selected _ _ Hb) as [k Hk]. rewrite Hk.
    unfold call, done, throw. repeat break_match; cbn; discriminate.
  - destruct b; [|unfold removeTracker; rewrite Hb; discriminate].
    destruct (find_first (fun t0 : UiTracker => String.eqb (Tracker.uuid (entity t0)) tracker)
                         (_trackers s)) as [x|] eqn:Hf.
    + rewrite (@removeTracker_found env tracker syncTo s x Hb Hf). cbv zeta.
      unfold call, done. repeat break_match; cbn; discriminate.
    + assert (Hab : tracker_present s tracker = false) by (apply find_first_none, Hf).
      rewrite (@removeTracker_absent env tracker syncTo s true Hb Hab). discriminate.
  - unfold pushAura, forward, call_on, call, done, throw, registered. rewrite Hb.
    cbn [toUiAuras map].
    repeat break_match; cbn; try discriminate; intros _;
      do 2 eexists; repeat split;
      first [ reflexivity
            | apply SyncTo_eqb_false; eassumption
            | match goal with H : UUIDMap_get _ _ = None |- _ => rewrite H end;
              reflexivity ].
  - unfold updateAura. rewrite Hb. destruct b; [|discriminate].
    destruct (hasEditAccess_selected _ _ Hb) as [k Hk]. rewrite Hk.
    unfold call, done, throw. repeat break_match; cbn; discriminate.
  - destruct b; [|unfold removeAura; rewrite Hb; discriminate].
    destruct (find_first (fun a0 : UiAura => String.eqb (Aura.uuid (entity a0)) aura)
                         (_auras s)) as [x|] eqn:Hf.
    + rewrite (@removeAura_found env aura syncTo s x Hb Hf). cbv zeta.
      unfold call, done. repeat break_match; cbn; discriminate.
    + assert (Hab : aura_present s aura = false) by (apply find_first_none, Hf).
      rewrite (@removeAura_absent env aura syncTo s true Hb Hab). discriminate.
  - discriminate.
  - discriminate.
Qed.

(** The selection was taken off the board; the game master pushes a tracker
    to it for the server. *)
Lemma throws_only_when_unregistered_witness :
  exists t k,
    tag (PushTracker Fixture.T2 "B" SERVER) = Some t /\ t <> UI /\
    forward_target (PushTracker Fixture.T2 "B" SERVER) Fixture.selectB = Some k /\
    registered Fixture.env_unregistered k = false /\
    calls (run Fixture.env_unregistered (PushTracker Fixture.T2 "B" SERVER) Fixture.selectB) = [].
Proof.
  refine (@throws_only_when_unregistered Fixture.env_unregistered
            (PushTracker Fixture.T2 "B" SERVER) Fixture.selectB _ _).
  - exact (reachable_step Fixture.env (SetActiveShape Fixture.B) reachable_initial).
  - reflexivity.
Defined.

(** * Properties of the tools *)

(** ** Features *)

Lemma includes_number_In l f : Tool.includes_number l f = true <-> In f l.
Proof.
  unfold Tool.includes_number. rewrite existsb_exists. split.
  - intros (x & Hin & Hx). apply Z.eqb_eq in Hx. congruence.
  - intros H. exists f. split; [assumption | apply Z.eqb_refl].
Qed.

(** [hasFeature] grants a feature exactly when the feature is not listed as
    disabled and either nothing is listed as enabled or the feature is; a
    missing array counts as an empty one, and a feature listed in both
    arrays is refused. *)
Theorem hasFeature_spec (feature : Z) (features : Tool.ToolFeatures) :
  Tool.hasFeature feature features = true <->
  ~ In feature (Tool.listed (Tool.disabled features)) /\
  (Tool.listed (Tool.enabled features) = [] \/
   In feature (Tool.listed (Tool.enabled features))).
Proof.
  unfold Tool.hasFeature. destruct features as [en dis].
  cbn [Tool.enabled Tool.disabled].
  rewrite andb_true_iff, orb_true_iff.
  assert (D : Tool.coalesce
                (Value (Tool.js_not (optional_chain dis
                                       (fun l => Tool.includes_number l feature)))) true
              = true <-> ~ In feature (Tool.listed dis)).
  { destruct dis as [d|]; cbn.
    - rewrite negb_true_iff. split.
      + intros H Hin. apply includes_number_In in Hin. congruence.
      + intros H. apply not_true_is_false. intros Hin.
        apply H, includes_number_In, Hin.
    - tauto. }
  assert (E1 : (Tool.coalesce (optional_chain en (fun l => Z.of_nat (List.length l))) 0 =? 0)
               = true <-> Tool.listed en = []).
  { destruct en as [e|]; cbn.
    - rewrite Z.eqb_eq. destruct e; cbn [List.length]; split; intros H;
        try reflexivity; try discriminate; lia.
    - split; reflexivity. }
  assert (E2 : Tool.coalesce (optional_chain en (fun l => Tool.includes_number l feature))
                             false = true <-> In feature (Tool.listed en)).
  { destruct en as [e|]; cbn.
    - apply includes_number_In.
    - split; [discriminate | contradiction]. }
  tauto.
Qed.

(** ** Changing between build and play mode *)

(** After [onToolsModeChange] the current tool is one of the tools of the
    new mode or it is Select; a current tool that the new mode has is kept;
    the tool lists are untouched; and a second change to the same mode
    changes nothing more. *)
Theorem mode_change_lands_on_allowed_tool (Select : string) (mode : Tool.Mode)
        (parent : Tool.Tools) :
  (In (Tool.currentTool (Tool.onToolsModeChange Select mode parent))
      (Tool.tools_of mode parent) \/
   Tool.currentTool (Tool.onToolsModeChange Select mode parent) = Select) /\
  (In (Tool.currentTool parent) (Tool.tools_of mode parent) ->
   Tool.onToolsModeChange Select mode parent = parent) /\
  Tool.buildTools (Tool.onToolsModeChange Select mode parent) = Tool.buildTools parent /\
  Tool.playTools (Tool.onToolsModeChange Select mode parent) = Tool.playTools parent /\
  Tool.onToolsModeChange Select mode (Tool.onToolsModeChange Select mode parent)
  = Tool.onToolsModeChange Select mode parent.
Proof.
  assert (Hinc : forall l s, includes l s = true <-> In s l).
  { intros l s. unfold includes. rewrite existsb_exists. split.
    - intros (x & Hin & Hx). apply String.eqb_eq in Hx. congruence.
    - intros H. exists s. split; [assumption | apply String.eqb_refl]. }
  destruct mode; unfold Tool.onToolsModeChange, Tool.tools_of.
  - destruct (includes (map fst (Tool.buildTools parent)) (Tool.currentTool parent)) eqn:E;
      cbn [negb].
    + rewrite E. cbn [negb]. repeat split; auto. left. apply Hinc, E.
    + cbn [Tool.set_currentTool Tool.currentTool Tool.buildTools Tool.playTools].
      repeat split; auto.
      * intros H. apply Hinc in H. congruence.
      * destruct (includes (map fst (Tool.buildTools parent)) Select); reflexivity.
  - destruct (includes (map fst (Tool.playTools parent)) (Tool.currentTool parent)) eqn:E;
      cbn [negb].
    + rewrite E. cbn [negb]. repeat split; auto. left. apply Hinc, E.
    + cbn [Tool.set_currentTool Tool.currentTool Tool.buildTools Tool.playTools].
      repeat split; auto.
      * intros H. apply Hinc in H. congruence.
      * destruct (includes (map fst (Tool.playTools parent)) Select); reflexivity.
Qed.

(** The draw tool is current and play mode has no draw tool. *)
Lemma mode_change_lands_on_allowed_tool_witness :
  Tool.onToolsModeChange "Select" Tool.Build
    (Tool.mkTools "Draw" [("Select", Tool.mkFeatures None None);
                          ("Draw", Tool.mkFeatures None None)]
                  [("Select", Tool.mkFeatures None None)])
  = Tool.mkTools "Draw" [("Select", Tool.mkFeatures None None);
                         ("Draw", Tool.mkFeatures None None)]
                 [("Select", Tool.mkFeatures None None)].
Proof.
  refine (proj1 (proj2 (mode_change_lands_on_allowed_tool "Select" Tool.Build _)) _).
  cbn. auto.
Defined.

(** ** The ping tool *)

Section PingFacts.
Context {LP GP : Type}.
Implicit Types (env : PingTool.Env LP GP) (s : PingTool.State GP)
         (tr e : list (PingTool.Effect GP)).

Lemma added_app tr e : PingTool.added (tr ++ e) = PingTool.added tr ++ PingTool.added e.
Proof. unfold PingTool.added. apply flat_map_app. Qed.

Lemma removed_app tr e :
  PingTool.removed (tr ++ e) = PingTool.removed tr ++ PingTool.removed e.
Proof. unfold PingTool.removed. apply flat_map_app. Qed.

Lemma cleanup_consistent env s tr :
  PingTool.consistent s tr ->
  PingTool.consistent (fst (PingTool.cleanup env s)) (tr ++ snd (PingTool.cleanup env s)).
Proof.
  intros C. pose proof C as (Hact & Hlt & Hincl & Hnr & Hna).
  unfold PingTool.cleanup.
  destruct (PingTool.active s) eqn:A; cbn [negb fst snd];
    [|rewrite app_nil_r; exact C].
  destruct (Hact eq_refl) as (p & b & sp & -> & -> & -> & Hpb & Hp & Hb & Hnp & Hnb).
  destruct (PingTool.getLayer_draw env) as [layer|]; cbn [fst snd].
  - unfold PingTool.consistent. cbn [PingTool.active PingTool.constructed].
    rewrite added_app, removed_app. cbn. rewrite app_nil_r.
    split; [discriminate|]. split; [assumption|]. split; [|split; [|assumption]].
    + apply incl_app; [assumption|]. intros x [<-|[<-|[]]]; assumption.
    + apply NoDup_app; [assumption | |].
      * constructor; [intros [H|[]]; congruence | constructor; [intros [] | constructor]].
      * intros x Hx [<-|[<-|[]]]; contradiction.
  - unfold PingTool.consistent.
    rewrite added_app, removed_app. cbn. rewrite !app_nil_r. exact C.
Qed.

Lemma onDown_consistent env lp s tr :
  PingTool.consistent s tr ->
  PingTool.consistent (fst (PingTool.onDown env lp s)) (tr ++ snd (PingTool.onDown env lp s)).
Proof.
  intros C. pose proof (cleanup_consistent env C) as C1.
  unfold PingTool.onDown. destruct (PingTool.cleanup env s) as [s1 e1].
  cbn [fst snd] in C1. destruct C1 as (Hact & Hlt & Hincl & Hnr & Hna).
  destruct (PingTool.getLayer_draw env) as [layer|]; cbn [fst snd];
    rewrite app_assoc; unfold PingTool.consistent;
    rewrite added_app, removed_app; cbn; rewrite ?app_nil_r.
  - assert (Fp : ~ In (PingTool.constructed s1) (PingTool.added (tr ++ e1)))
      by (intros H; apply Hlt in H; lia).
    assert (Fb : ~ In (S (PingTool.constructed s1)) (PingTool.added (tr ++ e1)))
      by (intros H; apply Hlt in H; lia).
    split; [|split; [|split; [|split]]].
    + intros _. exists (PingTool.constructed s1), (S (PingTool.constructed s1)),
        (PingTool.l2g env lp).
      repeat split; try lia.
      * apply in_or_app. right. left. reflexivity.
      * apply in_or_app. right. right. left. reflexivity.
      * intros H. apply Fp, Hincl, H.
      * intros H. apply Fb, Hincl, H.
    + intros r Hr. apply in_app_or in Hr. destruct Hr as [Hr|[<-|[<-|[]]]]; try lia.
      apply Hlt in Hr. lia.
    + apply incl_appl. assumption.
    + assumption.
    + apply NoDup_app; [assumption | |].
      * constructor; [intros [H|[]]; lia | constructor; [intros [] | constructor]].
      * intros x Hx [<-|[<-|[]]]; contradiction.
  - split; [|repeat split; assumption].
    intros A. destruct (Hact A) as (p & b & sp & Hp & Hb & _ & Hrest).
    exists p, b, (PingTool.l2g env lp). repeat split; try assumption; apply Hrest.
Qed.

Lemma onMove_consistent env lp s tr :
  PingTool.consistent s tr ->
  PingTool.consistent (fst (PingTool.onMove env lp s)) (tr ++ snd (PingTool.onMove env lp s)).
Proof.
  intros C. unfold PingTool.onMove.
  repeat break_match; cbn [fst snd]; unfold PingTool.consistent;
    rewrite added_app, removed_app; cbn; rewrite ?app_nil_r; exact C.
Qed.

Lemma handle_consistent env (ev : PingTool.Event LP) s tr :
  PingTool.consistent s tr ->
  PingTool.consistent (fst (PingTool.handle env ev s)) (tr ++ snd (PingTool.handle env ev s)).
Proof.
  destruct ev; cbn [PingTool.handle]; unfold PingTool.onUp, PingTool.onDeselect.
  - apply onDown_consistent.
  - apply cleanup_consistent.
  - apply onMove_consistent.
  - apply cleanup_consistent.
Qed.

Lemma handle_all_consistent (evs : list (PingTool.Env LP GP * PingTool.Event LP)) s tr :
  PingTool.consistent s tr ->
  PingTool.consistent (fst (PingTool.handle_all evs s tr)) (snd (PingTool.handle_all evs s tr)).
Proof.
  revert s tr. induction evs as [|[env ev] evs IH]; intros s tr C; cbn [PingTool.handle_all].
  - exact C.
  - pose proof (handle_consistent env ev C) as C'.
    destruct (PingTool.handle env ev s) as [s' e]. apply IH, C'.
Qed.

(** Whatever events reach the ping tool, in whatever order and with or
    without a draw layer at each of them: while the tool is active it holds
    its two circles and its start point, the circles are two different ones
    that it has added to a layer and not removed; it removes only circles it
    has added, removes none twice and adds none twice. *)
Theorem ping_tool_consistent
        (evs : list (PingTool.Env LP GP * PingTool.Event LP)) :
  PingTool.consistent (fst (PingTool.handle_all evs (PingTool.initial GP) []))
                      (snd (PingTool.handle_all evs (PingTool.initial GP) [])).
Proof.
  apply handle_all_consistent. unfold PingTool.consistent. cbn.
  repeat split; try discriminate; try contradiction; try constructor.
  intros x [].
Qed.

(** A press that finds a draw layer activates the tool, whatever its state
    before, and the following release, if it finds a draw layer, removes
    exactly the two circles that the press added, in the same order, from
    the layer that is the draw layer at the release; it clears [ping] and
    [startPoint] and leaves [border] as it is.  A release that finds no draw
    layer leaves the tool active and removes nothing. *)
Theorem ping_press_release env1 env2 lp s (layer1 : nat) :
  PingTool.getLayer_draw env1 = Some layer1 ->
  PingTool.active (fst (PingTool.onDown env1 lp s)) = true /\
  (forall layer2, PingTool.getLayer_draw env2 = Some layer2 ->
     PingTool.removed (snd (PingTool.onUp env2 (fst (PingTool.onDown env1 lp s))))
     = PingTool.added (snd (PingTool.onDown env1 lp s)) /\
     (forall l r m, In (PingTool.removeShape GP l r m)
                       (snd (PingTool.onUp env2 (fst (PingTool.onDown env1 lp s)))) ->
                    l = layer2) /\
     PingTool.active (fst (PingTool.onUp env2 (fst (PingTool.onDown env1 lp s)))) = false /\
     PingTool.ping (fst (PingTool.onUp env2 (fst (PingTool.onDown env1 lp s)))) = None /\
     PingTool.startPoint (fst (PingTool.onUp env2 (fst (PingTool.onDown env1 lp s)))) = None /\
     PingTool.border (fst (PingTool.onUp env2 (fst (PingTool.onDown env1 lp s))))
     = PingTool.border (fst (PingTool.onDown env1 lp s))) /\
  (PingTool.getLayer_draw env2 = None ->
   fst (PingTool.onUp env2 (fst (PingTool.onDown env1 lp s)))
   = fst (PingTool.onDown env1 lp s) /\
   PingTool.removed (snd (PingTool.onUp env2 (fst (PingTool.onDown env1 lp s)))) = []).
Proof.
  intros L1. unfold PingTool.onUp, PingTool.onDown.
  destruct (PingTool.cleanup env1 s) as [s1 e1] eqn:Hc. rewrite L1. cbn [fst snd].
  assert (He1 : PingTool.added e1 = []).
  { revert Hc. unfold PingTool.cleanup. repeat break_match; intros [= _ <-]; reflexivity. }
  split; [reflexivity|]. split.
  - intros layer2 L2. unfold PingTool.cleanup.
    cbn [PingTool.active PingTool.ping PingTool.border PingTool.startPoint negb].
    rewrite L2. cbn [fst snd]. rewrite added_app, He1. cbn.
    repeat split. intros l r m [H|[H|[]]]; congruence.
  - intros L2. unfold PingTool.cleanup.
    cbn [PingTool.active PingTool.ping PingTool.border PingTool.startPoint negb].
    rewrite L2. cbn. split; reflexivity.
Qed.

(** After a release (or a deselect) that found a draw layer, moves do
    nothing until the next press: no effect and no change of state. *)
Theorem ping_release_stops_moves env1 env2 lp s (layer1 : nat) :
  PingTool.getLayer_draw env1 = Some layer1 ->
  PingTool.onMove env2 lp (fst (PingTool.onUp env1 s))
  = (fst (PingTool.onUp env1 s), []).
Proof.
  intros L1. unfold PingTool.onUp, PingTool.cleanup, PingTool.onMove. rewrite L1.
  destruct (PingTool.active s) eqn:A; cbn [negb fst]; [|rewrite A; reflexivity].
  destruct (PingTool.ping s) eqn:P, (PingTool.border s) eqn:B,
    (PingTool.startPoint s) eqn:S; cbn [fst PingTool.active negb];
    rewrite ?A, ?P, ?B, ?S; reflexivity.
Qed.
End PingFacts.

(** A press at (3, 4) with draw layer 1, then a release with draw layer 2:
    the two circles constructed first are removed, from layer 2. *)
Lemma ping_press_release_witness :
  PingTool.removed
    (snd (PingTool.onUp (PingFixture.env (Some 2%nat))
            (fst (PingTool.onDown (PingFixture.env (Some 1%nat)) (3, 4)
                                  (PingTool.initial (Z * Z))))))
  = [0%nat; 1%nat].
Proof.
  exact (proj1 (proj1 (proj2 (@ping_press_release _ _ (PingFixture.env (Some 1%nat))
                                (PingFixture.env (Some 2%nat)) (3, 4)
                                (PingTool.initial (Z * Z)) 1%nat eq_refl))
                      2%nat eq_refl)).
Defined.

Lemma ping_release_stops_moves_witness :
  PingTool.onMove (PingFixture.env (Some 1%nat)) (5, 6)
    (fst (PingTool.onUp (PingFixture.env (Some 1%nat))
            (fst (PingTool.onDown (PingFixture.env (Some 1%nat)) (3, 4)
                                  (PingTool.initial (Z * Z))))))
  = (fst (PingTool.onUp (PingFixture.env (Some 1%nat))
            (fst (PingTool.onDown (PingFixture.env (Some 1%nat)) (3, 4)
                                  (PingTool.initial (Z * Z))))), []).
Proof.
  exact (@ping_release_stops_moves _ _ (PingFixture.env (Some 1%nat))
           (PingFixture.env (Some 1%nat)) (5, 6) _ 1%nat eq_refl).
Defined.
